(** * XCRI-CAP serializer (xcri_rdf.py): a shallow embedding and its properties

    The Python module turns an RDF graph describing a course catalogue into
    an XCRI-CAP XML document.  This development embeds

    - the namespace tables and the compact-name resolver [xsi_type],
    - the part of rdflib the module consumes (terms, [objects], [subjects],
      [value], truth values of terms),
    - the indenting SAX writer [IndentingXMLGenerator],
    - the mapping rules of [XCRICAPSerializer], and
    - the two stack drivers [serialize] and [generator],

    and proves properties of them.  The rules and the drivers are given
    twice: first with the writer of a call that returns, then ([Traced])
    with the writer of a call however it ends, which tells what an
    interrupted run has written.

    Python [str] values are modelled as [string] (sequences of code points
    below 256); a Python [dict] whose insertion order is observable is an
    association list; a Python [set] is a [gset]. *)

From Stdlib Require Import String Ascii ZArith List Lia Bool.
From stdpp Require Import base decidable option list countable strings gmap.
Import ListNotations.
Local Open Scope string_scope.

(** ** Python string operations *)

Module Py.

(** [s.startswith(p)] *)
Definition startswith (s p : string) : bool := String.prefix p s.

(** [s[i:]] *)
Definition slice_from (i : nat) (s : string) : string :=
  String.substring i (String.length s - i) s.

(** [s[:i]] *)
Definition slice_to (i : nat) (s : string) : string :=
  String.substring 0 i s.

(** [s * n] for an integer [n] (empty when [n <= 0]). *)
Fixpoint repeat_nat (s : string) (n : nat) : string :=
  match n with
  | O => ""
  | S k => s ++ repeat_nat s k
  end.

Definition repeat (s : string) (n : Z) : string := repeat_nat s (Z.to_nat n).

(** [''.join(l)] and [sep.join(l)] *)
Definition join (sep : string) (l : list string) : string := String.concat sep l.

(** Truth value of a string: non-empty. *)
Definition str_bool (s : string) : bool :=
  match s with EmptyString => false | String _ _ => true end.

End Py.

(** ** Namespace tables *)

Definition XMLNS : list (string * string) :=
  [ ("xcri", "http://xcri.org/profiles/1.2/catalog");
    ("mlo", "http://purl.org/net/mlo");
    ("dc", "http://purl.org/dc/elements/1.1/");
    ("xsi", "http://www.w3.org/2001/XMLSchema-instance");
    ("cdp", "http://xcri.co.uk");
    ("html", "http://www.w3.org/1999/xhtml");
    ("xcriterms", "http://xcri.org/profiles/1.2/catalog/terms") ].

(** [XMLNS[k]]; the keys used below are all present. *)
Fixpoint dict_get (d : list (string * string)) (k : string) : string :=
  match d with
  | [] => ""
  | (k', v) :: rest => if String.eqb k k' then v else dict_get rest k
  end.

(** [sorted(keys, key=len, reverse=True)]: Python's sort is stable, and with
    [reverse=True] elements with equal keys keep their original order. *)
Fixpoint insert_by_len_desc (x : string) (l : list string) : list string :=
  match l with
  | [] => [x]
  | y :: rest =>
      if Nat.ltb (String.length x) (String.length y)
      then y :: insert_by_len_desc x rest
      else x :: l
  end.

Definition sorted_by_len_desc (l : list string) : list string :=
  fold_right insert_by_len_desc [] l.

(** [INVERSE_XMLNS = [(k, XMLNS[k]) for k in sorted(XMLNS, key=len, reverse=True)]]:
    pairs (prefix, namespace URI), ordered by decreasing length of the prefix. *)
Definition INVERSE_XMLNS : list (string * string) :=
  map (fun k => (k, dict_get XMLNS k)) (sorted_by_len_desc (map fst XMLNS)).

(** The RDF vocabulary namespaces [NS]. *)
Module NS.
Definition skos := "http://www.w3.org/2004/02/skos/core#".
Definition foaf := "http://xmlns.com/foaf/0.1/".
Definition xcri := "http://xcri.org/profiles/1.2/".
Definition cdp := "http://xcri.co.uk/".
Definition rdf := "http://www.w3.org/1999/02/22-rdf-syntax-ns#".
Definition rdfs := "http://www.w3.org/2000/01/rdf-schema#".
Definition dc := "http://purl.org/dc/elements/1.1/".
Definition dcterms := "http://purl.org/dc/terms/".
Definition spatialrelations := "http://data.ordnancesurvey.co.uk/ontology/spatialrelations/".
Definition mlo := "http://purl.org/net/mlo/".
Definition time := "http://www.w3.org/2006/time#".
Definition xtypes := "http://purl.org/xtypes/".
Definition v := "http://www.w3.org/2006/vcard/ns#".
Definition xsd := "http://www.w3.org/2001/XMLSchema#".
Definition xcriterms := "http://xcri.org/profiles/1.2/catalog/terms/".
End NS.

(** ** The local-part pattern [is_localpart]

    The pattern is compiled with [re.VERBOSE]; white space inside a character
    class is not ignored by that flag, so the space character belongs to both
    classes.  [$] matches at the end of the string and also just before a
    newline that ends the string.  The ranges above U+00FF are outside the
    code points modelled here. *)

Definition in_range (lo hi : nat) (c : ascii) : bool :=
  Nat.leb lo (nat_of_ascii c) && Nat.leb (nat_of_ascii c) hi.

Definition localpart_start (c : ascii) : bool :=
  in_range 65 90 c          (* A-Z *)
  || Ascii.eqb c " "
  || Ascii.eqb c "_"
  || in_range 97 122 c      (* a-z *)
  || in_range 192 214 c     (* \xc0-\xd6 *)
  || in_range 216 246 c     (* \xd8-\xf6 *)
  || in_range 248 255 c.    (* \xf8-\xff *)

Definition localpart_char (c : ascii) : bool :=
  localpart_start c
  || Ascii.eqb c "-"
  || Ascii.eqb c "."
  || in_range 48 57 c.      (* \d *)

Definition newline : ascii := ascii_of_nat 10.

(** The tail [[...]*$] of the pattern. *)
Fixpoint localpart_rest (s : string) : bool :=
  match s with
  | EmptyString => true
  | String c rest =>
      (localpart_char c && localpart_rest rest)
      || (Ascii.eqb c newline && match rest with EmptyString => true | _ => false end)
  end.

Definition is_localpart (s : string) : bool :=
  match s with
  | EmptyString => false
  | String c rest => localpart_start c && localpart_rest rest
  end.

(** ** Exceptions and results *)

Inductive exn : Type :=
| AttributeError
| TypeError
| ValueError
| IndexError
| UniquenessError
| XMLSyntaxError.

(** The outcome of running a piece of the program: a value, an exception
    that propagates, or a loop that has not finished within the fuel given. *)
Inductive result (A : Type) : Type :=
| Ok (a : A)
| Raise (e : exn)
| OutOfFuel.
Arguments Ok {A} a.
Arguments Raise {A} e.
Arguments OutOfFuel {A}.

Definition bind {A B : Type} (r : result A) (f : A -> result B) : result B :=
  match r with
  | Ok a => f a
  | Raise e => Raise e
  | OutOfFuel => OutOfFuel
  end.

Declare Scope result_scope.
Delimit Scope result_scope with result.
Notation "'do' x <- c 'in' k" := (bind c (fun x => k))
  (at level 10, x name, c at level 100, k at level 200) : result_scope.
Local Open Scope result_scope.

(** ** Attribute dictionaries *)

Definition attrs := list (string * string).

(** [d[k] = v]: replaces the value in place when the key exists, appends
    otherwise. *)
Fixpoint dict_set (k v : string) (d : attrs) : attrs :=
  match d with
  | [] => [(k, v)]
  | (k', v') :: rest =>
      if String.eqb k k' then (k, v) :: rest else (k', v') :: dict_set k v rest
  end.

(** ** Compact names: [xsi_type] *)

(** The first loop of [xsi_type].  The loop header binds the first component
    of each pair of [INVERSE_XMLNS] to [ns] and the second to [prefix]. *)
Fixpoint xsi_type_known (table : list (string * string)) (uri : string) : option attrs :=
  match table with
  | [] => None
  | (ns, prefix) :: rest =>
      if Py.startswith uri ns then
        let localpart := Py.slice_from (String.length ns) uri in
        if is_localpart localpart
        then Some [("xsi:type", prefix ++ ":" ++ localpart)]
        else xsi_type_known rest uri
      else xsi_type_known rest uri
  end.

(** The second loop: [for i in range(len(uri))], written as a recursion on
    the number of indices left to try. *)
Fixpoint xsi_type_scan (todo : nat) (i : nat) (uri : string) : attrs :=
  match todo with
  | O => []
  | S todo' =>
      if is_localpart (Py.slice_from i uri)
      then [("xsi:type", "ns:" ++ Py.slice_from i uri); ("xmlns:ns", Py.slice_to i uri)]
      else xsi_type_scan todo' (S i) uri
  end.

(** [xsi_type(uri)].  The argument is a [datatype] attribute, which is a URI
    or [None]; [None.startswith] raises [AttributeError]. *)
Definition xsi_type (uri : option string) : result attrs :=
  match uri with
  | None => Raise AttributeError
  | Some u =>
      match xsi_type_known INVERSE_XMLNS u with
      | Some a => Ok a
      | None => Ok (xsi_type_scan (String.length u) 0 u)
      end
  end.

(** ** The part of rdflib the serializer consumes *)

(** The native Python value an rdflib literal converts to.  Only what the
    serializer can observe is kept: whether the value is a [str], a
    [datetime.date], a [datetime.datetime], or something else, of which just
    the truth value matters. *)
Inductive pyvalue : Type :=
| PyStr (s : string)
| PyDate (year month day : Z)
| PyDateTime (year month day hour minute second : Z)
| PyOther (truth : bool).

(** An rdflib [Literal]: lexical form, [datatype], [language], and the native
    [value] rdflib computed from lexical form and datatype when the literal
    was built ([None] when the datatype has no conversion or it failed). *)
Record literal : Type := mkLiteral {
  lexical : string;
  datatype : option string;
  language : option string;
  value : option pyvalue
}.

Inductive term : Type :=
| URIRef (s : string)
| BNode (s : string)
| Literal (l : literal).

#[global] Instance pyvalue_eq_dec : EqDecision pyvalue.
Proof. solve_decision. Defined.

#[global] Instance literal_eq_dec : EqDecision literal.
Proof. solve_decision. Defined.

#[global] Instance term_eq_dec : EqDecision term.
Proof. solve_decision. Defined.

Definition pyvalue_encode (v : pyvalue) : string + (Z * Z * Z) + (Z * Z * Z * (Z * Z * Z)) + bool :=
  match v with
  | PyStr s => inl (inl (inl s))
  | PyDate y m d => inl (inl (inr (y, m, d)))
  | PyDateTime y m d h mi s => inl (inr (y, m, d, (h, mi, s)))
  | PyOther b => inr b
  end.

Definition pyvalue_decode (x : string + (Z * Z * Z) + (Z * Z * Z * (Z * Z * Z)) + bool) : pyvalue :=
  match x with
  | inl (inl (inl s)) => PyStr s
  | inl (inl (inr (y, m, d))) => PyDate y m d
  | inl (inr (y, m, d, (h, mi, s))) => PyDateTime y m d h mi s
  | inr b => PyOther b
  end.

#[global] Instance pyvalue_countable : Countable pyvalue.
Proof. apply (inj_countable' pyvalue_encode pyvalue_decode). intros []; reflexivity. Defined.

#[global] Instance literal_countable : Countable literal.
Proof.
  apply (inj_countable'
           (fun l => (lexical l, datatype l, language l, value l))
           (fun x => match x with (a, b, c, d) => mkLiteral a b c d end)).
  intros []; reflexivity.
Defined.

#[global] Instance term_countable : Countable term.
Proof.
  apply (inj_countable'
           (fun t => match t with
                     | URIRef s => inl (inl s)
                     | BNode s => inl (inr s)
                     | Literal l => inr l
                     end)
           (fun x => match x with
                     | inl (inl s) => URIRef s
                     | inl (inr s) => BNode s
                     | inr l => Literal l
                     end)).
  intros []; reflexivity.
Defined.

(** [Literal(lexical)] with no datatype and no language. *)
Definition plain_literal (s : string) : term := Literal (mkLiteral s None None None).

(** [str(term)] *)
Definition term_str (t : term) : string :=
  match t with
  | URIRef s => s
  | BNode s => s
  | Literal l => lexical l
  end.

Definition pyvalue_bool (v : pyvalue) : bool :=
  match v with
  | PyStr s => Py.str_bool s
  | PyDate _ _ _ => true
  | PyDateTime _ _ _ _ _ _ => true
  | PyOther b => b
  end.

(** [bool(term)].  [URIRef] and [BNode] are strings.  [Literal.__bool__]
    answers with the truth value of the native value when there is one and
    with [len(self) != 0] otherwise. *)
Definition term_bool (t : term) : bool :=
  match t with
  | URIRef s => Py.str_bool s
  | BNode s => Py.str_bool s
  | Literal l =>
      match value l with
      | Some v => pyvalue_bool v
      | None => Py.str_bool (lexical l)
      end
  end.

(** Truth value of something that is a term or [None]. *)
Definition truthy (o : option term) : bool :=
  match o with
  | None => false
  | Some t => term_bool t
  end.

(** [isinstance(x, rdflib.Literal)] *)
Definition is_Literal (o : option term) : bool :=
  match o with Some (Literal _) => true | _ => false end.

(** [x.datatype]: defined on literals only. *)
Definition term_datatype (t : term) : result (option string) :=
  match t with
  | Literal l => Ok (datatype l)
  | _ => Raise AttributeError
  end.

(** A graph: its triples, in the order the store iterates over them.
    Predicates are URIs. *)
Definition triple : Type := term * string * term.
Definition graph : Type := list triple.

(** A pattern component: [None] matches anything. *)
Definition matches (pat : option term) (t : term) : bool :=
  match pat with
  | None => true
  | Some x => bool_decide (x = t)
  end.

(** [graph.objects(subject, predicate)] *)
Definition objects (g : graph) (s : option term) (p : string) : list term :=
  omap (fun '(s', p', o') =>
          if matches s s' && String.eqb p p' then Some o' else None) g.

(** [graph.subjects(predicate, object)] *)
Definition subjects (g : graph) (p : string) (o : option term) : list term :=
  omap (fun '(s', p', o') =>
          if String.eqb p p' && matches o o' then Some s' else None) g.

(** [graph.value(subject, predicate)]: the first object, or [None].  rdflib
    answers [None] at once unless exactly one component of the pattern is
    left open, so a [None] subject gives [None]. *)
Definition graph_value (g : graph) (s : option term) (p : string) : option term :=
  match s with
  | None => None
  | Some _ => head (objects g s p)
  end.

(** [graph.value(None, predicate, object)]: the first subject, or [None]. *)
Definition graph_value_subject (g : graph) (p : string) (o : option term) : option term :=
  match o with
  | None => None
  | Some _ => head (subjects g p o)
  end.

(** [(s, p, o) in graph] *)
Definition contains (g : graph) (s : term) (p : string) (o : term) : bool :=
  bool_decide ((s, p, o) ∈ g).

(** ** The SAX writer *)

(** The calls that reach the underlying [XMLGenerator]; each one appends
    text to the stream. *)
Inductive sax : Type :=
| StartDocument
| EndDocument
| StartElement (name : string) (attrib : attrs)
| EndElement (name : string)
| Characters (content : string).

#[global] Instance sax_eq_dec : EqDecision sax.
Proof. solve_decision. Defined.

(** An [IndentingXMLGenerator] together with the stream it writes to. *)
Record xmlgen : Type := mkXg {
  stream : list sax;
  depth : Z;
  chars : bool
}.

Definition write (e : sax) (xg : xmlgen) : xmlgen :=
  mkXg (stream xg ++ [e]) (depth xg) (chars xg).

(** [IndentingXMLGenerator(stream, encoding)] on an empty stream. *)
Definition new_xmlgen : xmlgen := mkXg [] 0 false.

Definition indent (d : Z) : string := String newline "" ++ Py.repeat "  " d.

Definition startElement (name : string) (attrib : attrs) (xg : xmlgen) : xmlgen :=
  let xg1 := if negb (Z.eqb (depth xg) 0) && negb (chars xg)
             then write (Characters (indent (depth xg))) xg
             else xg in
  let xg2 := write (StartElement name attrib) xg1 in
  mkXg (stream xg2) (depth xg + 1) false.

Definition characters (content : string) (xg : xmlgen) : xmlgen :=
  let xg1 := write (Characters content) xg in
  mkXg (stream xg1) (depth xg1) true.

Definition endElement (name : string) (xg : xmlgen) : xmlgen :=
  let xg0 := mkXg (stream xg) (depth xg - 1) (chars xg) in
  let xg1 := if negb (chars xg0)
             then characters (indent (depth xg0)) xg0
             else xg0 in
  let xg2 := write (EndElement name) xg1 in
  mkXg (stream xg2) (depth xg2) false.

Definition textualElement (name : string) (attrib : attrs) (content : string)
    (xg : xmlgen) : xmlgen :=
  endElement name (characters content (startElement name attrib xg)).

Definition startDocument (xg : xmlgen) : xmlgen := write StartDocument xg.
Definition endDocument (xg : xmlgen) : xmlgen := write EndDocument xg.

(** ** Parsed markup fragments (lxml) *)

(** A node of a parsed fragment.  An lxml element has its [tag] (in Clark
    notation when namespaced), [prefix], [nsmap], [attrib], [text], and the
    children, each with its [tail].  The parsers keep comments and
    processing instructions (and entities they do not resolve) as children
    too: such a node has no attributes, no prefix and no children, and its
    [tag] is not a string but the function that builds such nodes. *)
#[warnings="-register-all"]
Inductive etree : Type :=
| Element (tag : string) (prefix : option string)
          (nsmap : list (option string * string)) (attrib : attrs)
          (text : option string) (children : list (etree * option string))
| ContentOnly.

(** [d.get(k)] on a namespace map. *)
Fixpoint nsmap_get (d : list (option string * string)) (k : option string) : option string :=
  match d with
  | [] => None
  | (k', v) :: rest => if bool_decide (k = k') then Some v else nsmap_get rest k
  end.

(** The part of [s] after the first ["}"], if there is one. *)
Fixpoint after_brace (s : string) : option string :=
  match s with
  | EmptyString => None
  | String c rest => if Ascii.eqb c "}" then Some rest else after_brace rest
  end.

(** The loop over [xml.nsmap] that adds the declarations differing from the
    ambient ones to the attributes. *)
Fixpoint ns_declarations (own previous : list (option string * string)) (attrib : attrs) : attrs :=
  match own with
  | [] => attrib
  | (ns, uri) :: rest =>
      if bool_decide (Some uri = nsmap_get previous ns)
      then ns_declarations rest previous attrib
      else match ns with
           | None => ns_declarations rest previous (dict_set "xmlns" uri attrib)
           | Some n => ns_declarations rest previous (dict_set ("xmlns:" ++ n) uri attrib)
           end
  end.

(** [xml.tag.split('}', 1)[-1]] and [xml.tag.split('}', 1)[1]]; the second
    raises [IndexError] when the tag has no brace. *)
Definition element_tag (tag : string) (prefix : option string) : result string :=
  match prefix with
  | None => Ok (match after_brace tag with Some l => l | None => tag end)
  | Some p =>
      match after_brace tag with
      | Some l => Ok (p ++ ":" ++ l)
      | None => Raise IndexError
      end
  end.

(** [serialize_etree(xml, xg, previous_nsmap)].  On a comment or a
    processing instruction the attributes and the namespace map are empty
    and the prefix is [None], so the first thing that fails is
    [xml.tag.split], with [AttributeError]. *)
Fixpoint serialize_etree (xml : etree) (previous_nsmap : list (option string * string))
    (xg : xmlgen) : result xmlgen :=
  match xml with
  | ContentOnly => Raise AttributeError
  | Element tag prefix nsmap attrib text children =>
      let attrib' := ns_declarations nsmap previous_nsmap attrib in
      do tagname <- element_tag tag prefix in
      let xg1 := startElement tagname attrib' xg in
      let xg2 := match text with
                 | Some t => if Py.str_bool t then characters t xg1 else xg1
                 | None => xg1
                 end in
      do xg3 <-
        (fix children_loop (cs : list (etree * option string)) (xg : xmlgen) : result xmlgen :=
           match cs with
           | [] => Ok xg
           | (child, tail) :: rest =>
               do xg' <- serialize_etree child nsmap xg in
               children_loop rest
                 (match tail with
                  | Some t => if Py.str_bool t then characters t xg' else xg'
                  | None => xg'
                  end)
           end) children xg2 in
      Ok (endElement tagname xg3)
  end.

(** ** Dates *)

Record datetime : Type := mkDatetime {
  year : Z; month : Z; day : Z; hour : Z; minute : Z; second : Z
}.

(** Days since 1970-01-01 of a proleptic Gregorian date. *)
Definition days_from_civil (y m d : Z) : Z :=
  (let y' := if m <=? 2 then y - 1 else y in
   let era := y' / 400 in
   let yoe := y' - era * 400 in
   let mp := (m + 9) mod 12 in
   let doy := (153 * mp + 2) / 5 + d - 1 in
   let doe := yoe * 365 + yoe / 4 - yoe / 100 + doy in
   era * 146097 + doe - 719468)%Z.

(** [%A]: 1970-01-01 was a Thursday. *)
Definition weekday_name (y m d : Z) : string :=
  nth (Z.to_nat (((days_from_civil y m d + 3) mod 7)%Z))
      ["Monday"; "Tuesday"; "Wednesday"; "Thursday"; "Friday"; "Saturday"; "Sunday"] "".

(** [%B] *)
Definition month_name (m : Z) : string :=
  nth (Z.to_nat (m - 1)%Z)
      ["January"; "February"; "March"; "April"; "May"; "June"; "July";
       "August"; "September"; "October"; "November"; "December"] "".

Definition digit (n : Z) : string :=
  String (ascii_of_nat (48 + Z.to_nat (n mod 10)%Z)) "".

(** Two decimal digits, zero padded ([%d], [%I], [%M]). *)
Definition two_digits (n : Z) : string := digit (n / 10)%Z ++ digit n.

(** Four decimal digits ([%Y] for years 1000 to 9999). *)
Definition four_digits (n : Z) : string :=
  digit (Z.div n 1000) ++ digit (Z.div n 100) ++ digit (n / 10)%Z ++ digit n.

(** [parsed.strftime("%A, %d %B %Y")] *)
Definition strftime_date (dt : datetime) : string :=
  weekday_name (year dt) (month dt) (day dt) ++ ", " ++ two_digits (day dt) ++ " "
    ++ month_name (month dt) ++ " " ++ four_digits (year dt).

(** [parsed.strftime("%I:%M %p, %A, %d %B %Y")] *)
Definition strftime_datetime (dt : datetime) : string :=
  let h12 := (if hour dt mod 12 =? 0 then 12 else hour dt mod 12)%Z in
  two_digits h12 ++ ":" ++ two_digits (minute dt) ++ " "
    ++ (if (hour dt <? 12)%Z then "AM" else "PM") ++ ", " ++ strftime_date dt.

(** ** External collaborators

    The markup parsers of lxml, the date parser of dateutil (on a string: a
    [datetime], or [ValueError]) and the clock. *)
Record externals : Type := mkExternals {
  etree_fromstring : string -> result etree;
  etree_fromstring_html : string -> result etree;
  dateutil_parse_str : string -> result datetime;
  utcnow_isoformat : string
}.

(** A Python value held by one of the serializer's local variables: [None],
    a native value, or an RDF term. *)
Inductive pyobj : Type :=
| PNone
| PNative (v : pyvalue)
| PTerm (t : term).

Definition of_option (o : option term) : pyobj :=
  match o with
  | None => PNone
  | Some t => PTerm t
  end.

(** [bool(x)] *)
Definition py_bool (x : pyobj) : bool :=
  match x with
  | PNone => false
  | PNative v => pyvalue_bool v
  | PTerm t => term_bool t
  end.

(** [isinstance(x, str)]: the three kinds of term are subclasses of [str]. *)
Definition is_str (x : pyobj) : bool :=
  match x with
  | PNative (PyStr _) => true
  | PTerm _ => true
  | _ => false
  end.

(** [isinstance(x, (datetime.datetime, datetime.date))] *)
Definition is_date (x : pyobj) : bool :=
  match x with
  | PNative (PyDate _ _ _) => true
  | PNative (PyDateTime _ _ _ _ _ _) => true
  | _ => false
  end.

(** The text of a string-like value, as the writer receives it. *)
Definition py_text (x : pyobj) : string :=
  match x with
  | PNative (PyStr s) => s
  | PTerm t => term_str t
  | _ => ""
  end.

(** [x or ''] for a string-like [x], as text. *)
Definition or_empty (x : pyobj) : string :=
  if py_bool x then py_text x else "".

(** [a or b] *)
Definition py_or (a b : pyobj) : pyobj := if py_bool a then a else b.

(** [literal.toPython()]: the native value, or the literal itself. *)
Definition toPython (l : literal) : pyobj :=
  match value l with
  | Some v => PNative v
  | None => PTerm (Literal l)
  end.

(** [dateutil.parser.parse(x)]: anything that is not a string (or a stream)
    is refused with [TypeError]. *)
Definition dateutil_parse (ext : externals) (x : pyobj) : result datetime :=
  match x with
  | PTerm t => dateutil_parse_str ext (term_str t)
  | PNative (PyStr s) => dateutil_parse_str ext s
  | _ => Raise TypeError
  end.

(** [x.datatype] *)
Definition py_datatype (x : pyobj) : result (option string) :=
  match x with
  | PTerm t => term_datatype t
  | _ => Raise AttributeError
  end.

(** ** The predicate lists of the module *)

Definition identifiers : list string :=
  [NS.dc ++ "identifier"; NS.dcterms ++ "identifier"].
Definition subject_predicates : list string :=
  [NS.dcterms ++ "subject"; NS.dc ++ "subject"].
Definition labels : list string :=
  [NS.skos ++ "prefLabel"; NS.rdfs ++ "label"; NS.dcterms ++ "title"; NS.dc ++ "title"].
Definition urls : list string :=
  [NS.foaf ++ "homepage"; NS.foaf ++ "page"].
Definition descriptions : list string :=
  [NS.dcterms ++ "description"; NS.rdfs ++ "comment"].

Definition common_descriptive_elements : list (string * string) :=
  [ (NS.xcri ++ "abstract", "xcri:abstract");
    (NS.xcri ++ "applicationProcedure", "xcri:applicationProcedure");
    (NS.mlo ++ "assessment", "mlo:assessment");
    (NS.xcri ++ "learningOutcome", "xcri:learningOutcome");
    (NS.mlo ++ "objective", "mlo:objective");
    (NS.mlo ++ "prerequisite", "mlo:prerequisite");
    (NS.xcri ++ "regulations", "xcri:regulations") ].

Definition address_elements : list (string * string) :=
  [ (NS.v ++ "street-address", "mlo:address");
    (NS.v ++ "extended-address", "mlo:address");
    (NS.v ++ "locality", "mlo:address");
    (NS.v ++ "postal-code", "mlo:postcode") ].

Definition xsi_schema_locations : list (string * string) :=
  [ ("http://xcri.org/profiles/1.2/catalog", "http://www.xcri.co.uk/bindings/xcri_cap_1_2.xsd");
    ("http://xcri.org/profiles/1.2/catalog/terms", "http://www.xcri.co.uk/bindings/xcri_cap_terms_1_2.xsd");
    ("http://xcri.co.uk", "http://www.xcri.co.uk/bindings/coursedataprogramme.xsd");
    ("http://www.w3.org/2003/01/geo/wgs84_pos", "http://xcri-dev.conted.ox.ac.uk/geo.xsd") ].

(** (predicate, element name, scheme of the notation) *)
Definition controlled_vocabularies : list (string * string * string) :=
  [ (NS.xcri ++ "studyMode", "xcri:studyMode",
     "http://xcri.org/profiles/catalog/1.2/studyMode/notation");
    (NS.xcri ++ "attendanceMode", "xcri:attendanceMode",
     "http://xcri.org/profiles/catalog/1.2/attendanceMode/notation");
    (NS.xcri ++ "attendancePattern", "xcri:attendancePattern",
     "http://xcri.org/profiles/catalog/1.2/attendancePattern/notation") ].

(** [typed_descriptive_elements]: the dictionary from predicate to typed
    name, in the order the names are listed. *)
Definition typed_descriptive_elements : list (string * string) :=
  map (fun n => (NS.xcriterms ++ n, "xcriterms:" ++ n))
      [ "careerOutcome"; "contactHours"; "contactPattern"; "events";
        "indicativeResource"; "leadsTo"; "policy"; "providedResource";
        "requiredResource"; "specialFeature"; "support"; "structure";
        "studyHours"; "teachingStrategy"; "topic" ]
  ++ map (fun n => (NS.cdp ++ n, "cdp:" ++ n)) [ "metadataKeywords"; "targetAudience" ].

(** [self.xmlns = XMLNS.copy()], as an ambient namespace map. *)
Definition xmlns_nsmap : list (option string * string) :=
  map (fun '(k, v) => (Some k, v)) XMLNS.

(** ** The mapping rules of [XCRICAPSerializer] *)

(** [for x in l: body(x)], where the body may raise. *)
Fixpoint for_each {A : Type} (l : list A) (body : A -> xmlgen -> result xmlgen)
    (xg : xmlgen) : result xmlgen :=
  match l with
  | [] => Ok xg
  | x :: rest => do xg' <- body x xg in for_each rest body xg'
  end.

Section Rules.

Variable ext : externals.
Variable g : graph.

(** [descriptive_text_element(xg, name, obj, attrib)] *)
Definition descriptive_text_element (name : string) (obj : term) (attrib : attrs)
    (xg : xmlgen) : result xmlgen :=
  match obj with
  | URIRef u => Ok (endElement name (startElement name [("href", u)] xg))
  | _ =>
      do dt <- term_datatype obj in
      if bool_decide (dt = Some (NS.xtypes ++ "Fragment-XHTML")) then
        do xml <- etree_fromstring ext (term_str obj) in
        do xg' <- serialize_etree xml xmlns_nsmap (startElement name attrib xg) in
        Ok (endElement name xg')
      else if bool_decide (dt = Some (NS.xtypes ++ "Fragment-HTML")) then
        do xml <- etree_fromstring_html ext (term_str obj) in
        do xg' <- serialize_etree xml xmlns_nsmap (startElement name attrib xg) in
        Ok (endElement name xg')
      else Ok (textualElement name attrib (term_str obj) xg)
  end.

(** The chained [self.graph.objects(entity, p)] for [p] in [ps]. *)
Definition chain_objects (entity : option term) (ps : list string) : list term :=
  concat (map (objects g entity) ps).

(** [_find_first(name, ps, rich_element)] *)
Definition _find_first (name : string) (ps : list string) (rich_element : bool)
    (entity : option term) (xg : xmlgen) : result xmlgen :=
  match chain_objects entity ps with
  | [] => Ok xg
  | obj :: _ =>
      if rich_element
      then descriptive_text_element name obj [] xg
      else Ok (textualElement name [] (term_str obj) xg)
  end.

Definition serialize_title := _find_first "dc:title" labels false.
Definition serialize_url := _find_first "mlo:url" urls false.
Definition serialize_description := _find_first "dc:description" descriptions true.
Definition serialize_places := _find_first "mlo:places" [NS.mlo ++ "places"] false.
Definition serialize_applyTo := _find_first "xcri:applyTo" [NS.xcri ++ "applyTo"] false.

(** The set of plain identifiers collected by [serialize_identifiers]. *)
Definition plain_identifiers (entity : option term) : gset string :=
  (match entity with
   | Some (URIRef u) => {[ u ]}
   | _ => ∅
   end)
  ∪ list_to_set (omap (fun obj => match obj with
                                  | Literal l => Some (lexical l)
                                  | _ => None
                                  end)
                      (chain_objects entity identifiers)).

(** [serialize_identifiers(xg, entity)] *)
Definition serialize_identifiers (entity : option term) (xg : xmlgen) : result xmlgen :=
  do xg1 <- for_each (objects g entity (NS.skos ++ "notation"))
              (fun obj xg =>
                 do dt <- term_datatype obj in
                 do attrib <- xsi_type dt in
                 match attrib with
                 | [] => Ok xg
                 | _ => Ok (textualElement "dc:identifier" attrib (term_str obj) xg)
                 end) xg in
  for_each (elements (plain_identifiers entity))
    (fun identifier xg => Ok (textualElement "dc:identifier" [] identifier xg)) xg1.

(** [serialize_common(xg, entity)] *)
Definition serialize_common (entity : option term) (xg : xmlgen) : result xmlgen :=
  do xg1 <- serialize_identifiers entity xg in
  do xg2 <- serialize_title entity xg1 in
  do xg3 <- serialize_url entity xg2 in
  serialize_description entity xg3.

(** [serialize_common_descriptive_elements(xg, entity)] *)
Definition serialize_common_descriptive_elements (entity : option term)
    (xg : xmlgen) : result xmlgen :=
  for_each common_descriptive_elements
    (fun '(prop, name) xg =>
       for_each (objects g entity prop)
         (fun obj xg => descriptive_text_element name obj [] xg) xg) xg.

(** [serialize_typed_descriptive_elements(xg, entity)] *)
Definition serialize_typed_descriptive_elements (entity : option term)
    (xg : xmlgen) : result xmlgen :=
  for_each typed_descriptive_elements
    (fun '(prop, name) xg =>
       match graph_value g entity prop with
       | Some v =>
           if term_bool v
           then descriptive_text_element "dc:description" v [("xsi:type", name)] xg
           else Ok xg
       | None => Ok xg
       end) xg.

(** The [while] loop of [serialize_location].  [Some address]: the loop
    was left by [break]; [None]: the loop condition became false and the
    [else] clause returns.  One unit of fuel is spent per test of the
    loop condition. *)
Fixpoint location_walk (fuel : nat) (entity with_address : option term)
    : result (option term) :=
  match fuel with
  | O => OutOfFuel
  | S fuel' =>
      if truthy with_address then
        let address := graph_value g entity (NS.v ++ "adr") in
        if truthy address then Ok address
        else location_walk fuel' entity
               (graph_value g with_address (NS.spatialrelations ++ "within"))
      else Ok None
  end.

(** [serialize_location(xg, entity)] *)
Definition serialize_location (fuel : nat) (entity : option term) (xg : xmlgen)
    : result xmlgen :=
  do found <- location_walk fuel entity entity in
  match found with
  | None => Ok xg
  | Some address =>
      if existsb (fun '(prop, name) => truthy (graph_value g (Some address) prop))
                 address_elements
      then
        let xg1 := startElement "mlo:location" [] xg in
        let xg2 := fold_left
                     (fun xg '(prop, name) =>
                        let obj := graph_value g (Some address) prop in
                        match obj with
                        | Some o => if term_bool o
                                    then textualElement name [] (term_str o) xg
                                    else xg
                        | None => xg
                        end) address_elements xg1 in
        Ok (endElement "mlo:location" xg2)
      else Ok xg
  end.

(** The search for a notation of the expected scheme: the first notation
    whose datatype is [scheme], [None] when the loop runs to its end. *)
Fixpoint find_notation (notations : list term) (scheme : string) : result (option term) :=
  match notations with
  | [] => Ok None
  | notation :: rest =>
      do dt <- term_datatype notation in
      if bool_decide (dt = Some scheme) then Ok (Some notation)
      else find_notation rest scheme
  end.

(** [for label in labels: content = self.graph.value(node, label); if
    content: break], started with [content] bound to the given value. *)
Fixpoint label_loop (node : option term) (ps : list string) (content : option term)
    : option term :=
  match ps with
  | [] => content
  | label :: rest =>
      let content' := graph_value g node label in
      if truthy content' then content' else label_loop node rest content'
  end.

(** The body of the loop of [serialize_controlled_vocabularies] for one
    vocabulary. *)
Definition controlled_vocabulary (presentation : option term)
    (cv : string * string * string) (xg : xmlgen) : result xmlgen :=
  let '(prop, name, scheme) := cv in
  let value := graph_value g presentation prop in
  if negb (truthy value) then Ok xg
  else
    do notation <- find_notation (objects g value (NS.skos ++ "notation")) scheme in
    let content := label_loop value labels None in
    if negb (truthy notation || truthy content) then Ok xg
    else
      Ok (textualElement name
            (match notation with
             | Some n => if term_bool n then [("identifier", term_str n)] else []
             | None => []
             end)
            (or_empty (of_option content)) xg).

(** [serialize_controlled_vocabularies(xg, presentation)] *)
Definition serialize_controlled_vocabularies (presentation : option term)
    (xg : xmlgen) : result xmlgen :=
  for_each controlled_vocabularies (controlled_vocabulary presentation) xg.

(** The subjects named directly by the course. *)
Definition direct_subjects (course : option term) : gset term :=
  list_to_set (chain_objects course subject_predicates).

(** First pass over a snapshot of the set: what has a subject as narrower
    term, and what a subject has as broader term. *)
Definition add_broader (subjects0 : gset term) : gset term :=
  foldr (fun subject acc =>
           acc ∪ list_to_set (subjects g (NS.skos ++ "narrower") (Some subject))
               ∪ list_to_set (objects g (Some subject) (NS.skos ++ "broader")))
        subjects0 (elements subjects0).

(** Second pass over a snapshot of the set: the related terms. *)
Definition add_related (subjects1 : gset term) : gset term :=
  foldr (fun subject acc =>
           acc ∪ list_to_set (objects g (Some subject) (NS.skos ++ "related")))
        subjects1 (elements subjects1).

(** The set [subjects] when the emission loop of [serialize_subjects]
    starts. *)
Definition subject_closure (course : option term) : gset term :=
  add_related (add_broader (direct_subjects course)).

(** The attributes and the content [serialize_subjects] computes for one
    subject. *)
Definition subject_attrib_content (subject : term) : result (attrs * pyobj) :=
  match subject with
  | Literal l => Ok ([], PNative (PyStr (lexical l)))
  | _ =>
      let notation := graph_value g (Some subject) (NS.skos ++ "notation") in
      do attrib0 <-
        match notation with
        | Some n => if term_bool n
                    then do dt <- term_datatype n in xsi_type dt
                    else Ok []
        | None => Ok []
        end in
      let attrib1 :=
        match notation with
        | Some n => if term_bool n then dict_set "identifier" (term_str n) attrib0
                    else attrib0
        | None => attrib0
        end in
      let content := label_loop (Some subject) labels None in
      let attrib2 :=
        if Py.startswith (term_str subject) "http://jacs.dataincubator.org/"
        then dict_set "xsi:type" "cdp:JACS3" attrib1
        else attrib1 in
      Ok (attrib2, of_option content)
  end.

(** The body of the emission loop of [serialize_subjects]. *)
Definition subject_element (subject : term) (xg : xmlgen) : result xmlgen :=
  do ac <- subject_attrib_content subject in
  let '(attrib, content) := ac in
  if negb (bool_decide (attrib = [])) || py_bool content
  then Ok (textualElement "dc:subject" attrib (or_empty content) xg)
  else Ok xg.

(** [serialize_subjects(xg, course)] *)
Definition serialize_subjects (course : option term) (xg : xmlgen) : result xmlgen :=
  for_each (elements (subject_closure course)) subject_element xg.

(** The values of [dtf] and [content] before the test
    [if not (dtf or content)] of [serialize_date]. *)
Definition date_parts (entity : option term) (prop : string) : pyobj * pyobj :=
  let dt := graph_value g entity prop in
  match dt with
  | Some (Literal l) =>
      let dtf := toPython l in
      let '(dtf, content) := if is_str dtf then (PNone, dtf) else (dtf, PNone) in
      let dtf := if is_date dtf then dtf else PNone in
      (dtf, content)
  | _ =>
      let dtf := py_or (of_option (graph_value g dt (NS.time ++ "inXSDDateTime")))
                       (of_option (graph_value g dt (NS.rdf ++ "value"))) in
      (dtf, of_option (label_loop dt labels None))
  end.

(** [serialize_date(xg, entity, prop, name)] *)
Definition serialize_date (entity : option term) (prop name : string)
    (xg : xmlgen) : result xmlgen :=
  let '(dtf, content) := date_parts entity prop in
  if negb (py_bool dtf || py_bool content) then Ok xg
  else
    do content' <-
      (if negb (py_bool content) then
         match dateutil_parse ext dtf with
         | Raise ValueError => Ok dtf
         | Raise e => Raise e
         | OutOfFuel => OutOfFuel
         | Ok parsed =>
             do dt <- py_datatype dtf in
             if bool_decide (dt = Some (NS.xsd ++ "date"))
             then Ok (PNative (PyStr (strftime_date parsed)))
             else if bool_decide (dt = Some (NS.xsd ++ "dateTime"))
             then Ok (PNative (PyStr (strftime_datetime parsed)))
             else Ok content
         end
       else Ok content) in
    let attrib := if py_bool dtf then [("dtf", py_text dtf)] else [] in
    Ok (textualElement name attrib (or_empty content') xg).

End Rules.

(** ** Producers

    A Python generator of the serializer: each [next] runs the code up to the
    following [yield] and hands back the value yielded, which is either
    another generator or not a generator at all ([None], the value of a
    plain method call); after the last [yield] the remaining code runs and
    [StopIteration] is raised. *)

Definition action : Type := xmlgen -> result xmlgen.

#[warnings="-register-all"]
Inductive generator : Type :=
| Stop (final : action)
| Yield (act : action) (item : option generator) (rest : generator).

Definition skip : action := fun xg => Ok xg.

Definition fail_with (r : result xmlgen) : action := fun _ => r.

(** Code that runs before the first [yield] (or before the end) of a
    generator. *)
Definition prepend (a : action) (gen : generator) : generator :=
  match gen with
  | Stop final => Stop (fun xg => do xg' <- a xg in final xg')
  | Yield act item rest => Yield (fun xg => do xg' <- a xg in act xg') item rest
  end.

(** [for x in l: yield f(x)], followed by [rest]. *)
Definition yield_each {A : Type} (l : list A) (f : A -> generator) (rest : generator)
    : generator :=
  fold_right (fun x r => Yield skip (Some (f x)) r) rest l.

Section Producers.

Variable ext : externals.
Variable g : graph.
Variable fuel : nat.

(** [venue_element(xg, venue)] *)
Definition venue_element (venue : term) : generator :=
  Yield (fun xg =>
           serialize_common ext g (Some venue)
             (startElement "xcri:provider" [] (startElement "xcri:venue" [] xg)))
        None
    (Yield (serialize_location g fuel (Some venue)) None
       (Stop (fun xg =>
                Ok (endElement "xcri:venue" (endElement "xcri:provider" xg))))).

(** [presentation_content(xg, presentation)] *)
Definition presentation_content (presentation : term) : generator :=
  let p := Some presentation in
  prepend
    (fun xg =>
       do xg1 <- serialize_common ext g p xg in
       do xg2 <- serialize_common_descriptive_elements ext g p xg1 in
       do xg3 <- serialize_date ext g p (NS.mlo ++ "start") "mlo:start" xg2 in
       do xg4 <- serialize_date ext g p (NS.xcri ++ "end") "xcri:end" xg3 in
       do xg5 <- serialize_date ext g p (NS.xcri ++ "applyFrom") "xcri:applyFrom" xg4 in
       do xg6 <- serialize_date ext g p (NS.xcri ++ "applyUntil") "xcri:applyUntil" xg5 in
       do xg7 <- serialize_places ext g p xg6 in
       do xg8 <- serialize_applyTo ext g p xg7 in
       serialize_controlled_vocabularies g p xg8)
    (yield_each (objects g p (NS.xcri ++ "venue")) venue_element (Stop skip)).

(** [presentation_element(xg, presentation)] *)
Definition presentation_element (presentation : term) : generator :=
  Yield (fun xg => Ok (startElement "xcri:presentation" [] xg))
        (Some (presentation_content presentation))
    (Stop (fun xg => Ok (endElement "xcri:presentation" xg))).

(** [course_content(xg, course)] *)
Definition course_content (course : term) : generator :=
  let c := Some course in
  Yield (serialize_common ext g c) None
    (Yield (serialize_common_descriptive_elements ext g c) None
       (Yield (serialize_typed_descriptive_elements ext g c) None
          (Yield (serialize_subjects g c) None
             (yield_each (objects g c (NS.mlo ++ "specifies")) presentation_element
                (Stop skip))))).

(** [course_element(xg, course)] *)
Definition course_element (course : term) : generator :=
  Yield (fun xg => Ok (startElement "xcri:course" [] xg))
        (Some (course_content course))
    (Stop (fun xg => Ok (endElement "xcri:course" xg))).

(** [provider_content(xg, provider, courses)] *)
Definition provider_content (provider : option term) (courses : list term) : generator :=
  let tail := yield_each courses course_element (Stop skip) in
  if truthy provider
  then Yield (serialize_common ext g provider) None
         (Yield (serialize_location g fuel provider) None tail)
  else tail.

(** [provider_element(xg, provider, courses)] *)
Definition provider_element (provider : option term) (courses : list term) : generator :=
  Yield (fun xg => Ok (startElement "xcri:provider" [] xg))
        (Some (provider_content provider courses))
    (Stop (fun xg => Ok (endElement "xcri:provider" xg))).

(** [provider_courses[provider].add(course)] on a [defaultdict(set)]. *)
Fixpoint add_course (provider : option term) (course : term)
    (d : list (option term * gset term)) : list (option term * gset term) :=
  match d with
  | [] => [(provider, {[ course ]})]
  | (p, cs) :: rest =>
      if bool_decide (p = provider) then (p, cs ∪ {[ course ]}) :: rest
      else (p, cs) :: add_course provider course rest
  end.

(** The body of the [for member in ...] loop of [catalog_content]. *)
Definition visit_member (st : gset (option term) * list (option term * gset term))
    (member : term) : gset (option term) * list (option term * gset term) :=
  let '(catalogs, provider_courses) := st in
  if contains g member (NS.rdf ++ "type") (URIRef (NS.xcri ++ "course")) then
    let provider := graph_value_subject g (NS.mlo ++ "offers") (Some member) in
    (catalogs, add_course provider member provider_courses)
  else if contains g member (NS.rdf ++ "type") (URIRef (NS.xcri ++ "catalog")) then
    (catalogs ∪ {[ Some member ]}, provider_courses)
  else st.

(** The [while catalogs:] loop of [catalog_content]; [catalogs.pop()]
    takes the first element in the set's order of enumeration.  One unit
    of fuel is spent per test of the loop condition. *)
Fixpoint collect_courses (n : nat) (catalogs : gset (option term))
    (provider_courses : list (option term * gset term))
    : result (list (option term * gset term)) :=
  match n with
  | O => OutOfFuel
  | S n' =>
      match elements catalogs with
      | [] => Ok provider_courses
      | c :: _ =>
          let '(catalogs', provider_courses') :=
            fold_left visit_member (objects g c (NS.skos ++ "member"))
                      (catalogs ∖ {[ c ]}, provider_courses) in
          collect_courses n' catalogs' provider_courses'
      end
  end.

(** [catalog_content(xg, catalog)].  The courses are collected when the
    generator is resumed after its first [yield]. *)
Definition catalog_content (simple : bool) (catalog : option term) : generator :=
  Yield (serialize_common ext g catalog) None
    (match collect_courses fuel {[ catalog ]} [] with
     | Ok provider_courses =>
         if simple then
           let provider := graph_value g catalog (NS.dcterms ++ "publisher") in
           Yield skip
             (Some (provider_element provider
                      (concat (map (fun pc => elements (snd pc)) provider_courses))))
             (Stop skip)
         else
           yield_each provider_courses
             (fun pc => provider_element (fst pc) (elements (snd pc))) (Stop skip)
     | Raise e => Stop (fail_with (Raise e))
     | OutOfFuel => Stop (fail_with OutOfFuel)
     end).

(** The attributes of the root element. *)
Definition catalog_attrib : attrs :=
  app (map (fun '(prefix, uri) => ("xmlns:" ++ prefix, uri)) XMLNS)
      [ ("xsi:schemaLocation",
         Py.join " " (map (fun '(k, v) => Py.join " " [k; v]) xsi_schema_locations));
        ("generated", utcnow_isoformat ext ++ "+00:00") ].

(** [catalog_element(xg, catalog)] *)
Definition catalog_element (simple : bool) (catalog : option term) : generator :=
  Yield (fun xg => Ok (startElement "xcri:catalog" catalog_attrib xg))
        (Some (catalog_content simple catalog))
    (Stop (fun xg => Ok (endElement "xcri:catalog" xg))).

(** [_serialize()] *)
Definition _serialize (simple : bool) (catalog : option term) : generator :=
  Yield (fun xg => Ok (startDocument xg))
        (Some (catalog_element simple catalog))
    (Stop (fun xg => Ok (endDocument xg))).

End Producers.

(** ** The stack drivers *)

(** One turn of the loop shared by [serialize] and [generator]:
    [next(stack[-1])], then either [stack.pop()] on [StopIteration] or
    [stack.append(item)] when the item is a generator.  The top of the stack
    is the head of the list. *)
Definition step (stack : list generator) (xg : xmlgen) : result (list generator * xmlgen) :=
  match stack with
  | [] => Ok ([], xg)
  | Stop final :: below => do xg' <- final xg in Ok (below, xg')
  | Yield act item rest :: below =>
      do xg' <- act xg in
      Ok (match item with
          | Some nested => nested :: rest :: below
          | None => rest :: below
          end, xg')
  end.

(** The number of turns a generator, and a stack, can still take. *)
Fixpoint turns (gen : generator) : nat :=
  match gen with
  | Stop _ => 1
  | Yield _ item rest =>
      S (match item with Some nested => turns nested | None => 0 end + turns rest)
  end.

Definition stack_turns (stack : list generator) : nat :=
  fold_right (fun gen n => turns gen + n) 0 stack.

(** [while stack: ...] of [serialize], for at most [n] turns; [None] when
    the stack is not empty after [n] turns. *)
Fixpoint serialize_loop (n : nat) (stack : list generator) (xg : xmlgen)
    : option (result xmlgen) :=
  match stack with
  | [] => Some (Ok xg)
  | _ =>
      match n with
      | O => None
      | S n' =>
          match step stack xg with
          | Ok st => serialize_loop n' (fst st) (snd st)
          | Raise e => Some (Raise e)
          | OutOfFuel => Some OutOfFuel
          end
      end
  end.

(** [seek(0); truncate()] on the stream. *)
Definition truncate (xg : xmlgen) : xmlgen := mkXg [] (depth xg) (chars xg).

(** [while stack: ...] of [generator], and the [yield] after it, for at
    most [n] turns; the result is the list of the chunks yielded. *)
Fixpoint generator_loop (n : nat) (stack : list generator) (xg : xmlgen)
    : option (result (list (list sax))) :=
  match stack with
  | [] => Some (Ok [stream xg])
  | _ =>
      match n with
      | O => None
      | S n' =>
          match step stack xg with
          | Ok st =>
              match generator_loop n' (fst st) (truncate (snd st)) with
              | Some r => Some (do chunks <- r in Ok (stream (snd st) :: chunks))
              | None => None
              end
          | Raise e => Some (Raise e)
          | OutOfFuel => Some OutOfFuel
          end
      end
  end.

(** The result of a loop that is given as many turns as the generators on
    its stack can take. *)
Definition finished {A : Type} (r : option (result A)) : result A :=
  match r with
  | Some r => r
  | None => OutOfFuel
  end.

(** [XCRICAPSerializer(graph, catalog, simple=...).serialize(stream)]: how
    the call ends and, when it returns, the contents of the sink.  What a
    call that raises leaves in the sink is given by [Traced.serialize]
    below. *)
Definition serialize (ext : externals) (g : graph) (fuel : nat) (simple : bool)
    (catalog : option term) (sink : list sax) : result (list sax) :=
  let gen := _serialize ext g fuel simple catalog in
  do xg <- finished (serialize_loop (turns gen) [gen] (mkXg sink 0 false)) in
  Ok (stream xg).

(** [XCRICAPSerializer(graph, catalog, simple=...).generator()]: how the
    iteration ends and, when it runs to its end, the chunks yielded.  The
    chunks yielded before an exception are given by
    [Traced.generator_chunks] below. *)
Definition generator_chunks (ext : externals) (g : graph) (fuel : nat) (simple : bool)
    (catalog : option term) : result (list (list sax)) :=
  let gen := _serialize ext g fuel simple catalog in
  finished (generator_loop (turns gen) [gen] new_xmlgen).

(** ** The text [XMLGenerator] writes *)

(** [xml.sax.saxutils.escape(data, entities)] with [entities] applied
    after the three standard replacements. *)
Fixpoint escape (quote_ws : bool) (s : string) : string :=
  match s with
  | EmptyString => ""
  | String c rest =>
      (if Ascii.eqb c "&" then "&amp;"
       else if Ascii.eqb c ">" then "&gt;"
       else if Ascii.eqb c "<" then "&lt;"
       else if quote_ws && Ascii.eqb c newline then "&#10;"
       else if quote_ws && Ascii.eqb c (ascii_of_nat 13) then "&#13;"
       else if quote_ws && Ascii.eqb c (ascii_of_nat 9) then "&#9;"
       else String c "") ++ escape quote_ws rest
  end.

Fixpoint contains_char (c : ascii) (s : string) : bool :=
  match s with
  | EmptyString => false
  | String c' rest => Ascii.eqb c c' || contains_char c rest
  end.

Fixpoint replace_dquote (s : string) : string :=
  match s with
  | EmptyString => ""
  | String c rest =>
      (if Ascii.eqb c (ascii_of_nat 34) then "&quot;" else String c "") ++ replace_dquote rest
  end.

Definition dquote : string := String (ascii_of_nat 34) "".

(** [xml.sax.saxutils.quoteattr(data)] *)
Definition quoteattr (data : string) : string :=
  let data := escape true data in
  if contains_char (ascii_of_nat 34) data then
    if contains_char "'" data
    then dquote ++ replace_dquote data ++ dquote
    else "'" ++ data ++ "'"
  else dquote ++ data ++ dquote.

(** The text one call writes (encoding [utf-8]). *)
Definition render_sax (e : sax) : string :=
  match e with
  | StartDocument =>
      "<?xml version=" ++ dquote ++ "1.0" ++ dquote ++ " encoding=" ++ dquote ++ "utf-8"
        ++ dquote ++ "?>" ++ String newline ""
  | EndDocument => ""
  | StartElement name attrib =>
      "<" ++ name
        ++ Py.join "" (map (fun '(k, v) => " " ++ k ++ "=" ++ quoteattr v) attrib) ++ ">"
  | EndElement name => "</" ++ name ++ ">"
  | Characters content => escape false content
  end.

(** The text of a stream, or of a chunk. *)
Definition render (events : list sax) : string :=
  Py.join "" (map render_sax events).

(** ** Nesting of the elements written *)

(** Runs through the events with the list of the names of the elements that
    are open (innermost first); [None] when an element is closed that is not
    the innermost open one. *)
Fixpoint nesting (open : list string) (events : list sax) : option (list string) :=
  match events with
  | [] => Some open
  | StartElement name _ :: rest => nesting (name :: open) rest
  | EndElement name :: rest =>
      match open with
      | top :: below => if String.eqb name top then nesting below rest else None
      | [] => None
      end
  | _ :: rest => nesting open rest
  end.

(** ** Notions used in the statements *)

(** The entity reached from [entity] by following
    [spatialrelations:within] [n] times. *)
Fixpoint within_iter (g : graph) (n : nat) (entity : option term) : option term :=
  match n with
  | O => entity
  | S n' => graph_value g (within_iter g n' entity) (NS.spatialrelations ++ "within")
  end.

(** One step of the relations the subject closure follows: [y] has [x] as
    a narrower term, or [x] has [y] as a broader or as a related term. *)
Definition linked (g : graph) (x y : term) : Prop :=
  y ∈ subjects g (NS.skos ++ "narrower") (Some x)
  \/ y ∈ objects g (Some x) (NS.skos ++ "broader")
  \/ y ∈ objects g (Some x) (NS.skos ++ "related").

(** The first pass of the closure: narrower (inverse) and broader. *)
Definition near (g : graph) (x y : term) : Prop :=
  y ∈ subjects g (NS.skos ++ "narrower") (Some x)
  \/ y ∈ objects g (Some x) (NS.skos ++ "broader").

(** The writer with [s] put in front of what its stream holds. *)
Definition shift (s : list sax) (xg : xmlgen) : xmlgen :=
  mkXg (s ++ stream xg) (depth xg) (chars xg).

(** An action that only appends to the stream and never looks at it. *)
Definition framed (a : action) : Prop :=
  forall s xg, a (shift s xg) = do xg' <- a xg in Ok (shift s xg').

(** The white space [startElement] writes first. *)
Definition indentation (d : Z) (c : bool) : list sax :=
  if negb (d =? 0)%Z && negb c then [Characters (indent d)] else [].

(** What has been appended between two states of the writer, the depth
    being the same in both. *)
Definition appends (xg xg' : xmlgen) (body : list sax) : Prop :=
  stream xg' = (stream xg ++ body)%list /\ depth xg' = depth xg.

(** What an action has appended, not leaving text as the last thing
    written. *)
Definition emits (xg xg' : xmlgen) (body : list sax) : Prop :=
  appends xg xg' body /\ (chars xg = false -> chars xg' = false).

(** Events that close every element they open, and no other. *)
Definition balanced (body : list sax) : Prop :=
  forall open, nesting open body = Some open.

Definition tidy (a : action) : Prop :=
  forall xg xg', a xg = Ok xg' -> exists body, emits xg xg' body /\ balanced body.

(** What [venue_element] appends around [inner] when the writer is at
    depth [d]: the [xcri:venue] element, and inside it nothing but the
    [xcri:provider] element that holds [inner]. *)
Definition venue_events (d : Z) (c : bool) (inner : list sax) : list sax :=
  indentation d c
  ++ [StartElement "xcri:venue" []]
  ++ indentation (d + 1) false
  ++ [StartElement "xcri:provider" []]
  ++ inner
  ++ [ Characters (indent (d + 1)); EndElement "xcri:provider";
       Characters (indent d); EndElement "xcri:venue" ].

(** Sample graphs. *)
Module Sample.

(** Parsers that refuse everything, and a fixed clock. *)
Definition ext : externals :=
  mkExternals (fun _ => Raise XMLSyntaxError) (fun _ => Raise XMLSyntaxError)
              (fun _ => Raise ValueError) "2024-01-01T00:00:00".

Definition xsd_date : string := NS.xsd ++ "date".
Definition xsd_dateTime : string := NS.xsd ++ "dateTime".

(** A building without an address of its own, within a campus that has
    one. *)
Definition building : term := URIRef "http://example.org/building".
Definition campus : term := URIRef "http://example.org/campus".
Definition campus_address : term := BNode "adr1".

Definition located : graph :=
  [ (building, NS.spatialrelations ++ "within", campus);
    (campus, NS.v ++ "adr", campus_address);
    (campus_address, NS.v ++ "street-address", plain_literal "1 High Street") ].

(** Two places, each within the other, neither with an address. *)
Definition place_a : term := URIRef "http://example.org/a".
Definition place_b : term := URIRef "http://example.org/b".

Definition circular : graph :=
  [ (place_a, NS.spatialrelations ++ "within", place_b);
    (place_b, NS.spatialrelations ++ "within", place_a) ].

(** A presentation with a start date. *)
Definition presentation : term := URIRef "http://example.org/presentation".

Definition date_literal : literal :=
  mkLiteral "2024-03-15" (Some xsd_date) None (Some (PyDate 2024 3 15)).

Definition dateTime_literal : literal :=
  mkLiteral "2024-03-15T14:30:00" (Some xsd_dateTime) None
            (Some (PyDateTime 2024 3 15 14 30 0)).

Definition dated (prop : string) (l : literal) : graph :=
  [ (presentation, prop, Literal l) ].

(** An entity with a notation that has no datatype. *)
Definition entity : term := URIRef "http://example.org/course".

Definition untyped_notation : graph :=
  [ (entity, NS.skos ++ "notation", plain_literal "C101") ].

(** A presentation whose study mode has a label and a notation of the
    scheme of another vocabulary. *)
Definition mode : term := URIRef "http://example.org/mode/full-time".
Definition attendanceMode_scheme : string :=
  "http://xcri.org/profiles/catalog/1.2/attendanceMode/notation".

Definition wrong_scheme : graph :=
  [ (presentation, NS.xcri ++ "studyMode", mode);
    (mode, NS.skos ++ "notation",
     Literal (mkLiteral "FT" (Some attendanceMode_scheme) None None));
    (mode, NS.rdfs ++ "label", plain_literal "Full time") ].

(** A course whose subject has a broader term that has a broader term. *)
Definition subject_a : term := URIRef "http://example.org/subject/a".
Definition subject_b : term := URIRef "http://example.org/subject/b".
Definition subject_c : term := URIRef "http://example.org/subject/c".

Definition chain : graph :=
  [ (entity, NS.dcterms ++ "subject", subject_a);
    (subject_a, NS.skos ++ "broader", subject_b);
    (subject_b, NS.skos ++ "broader", subject_c) ].

(** A course whose subject has a notation of a scheme without a compact
    name, and no label. *)
Definition numbered_scheme : string := "http://example.org/schemes/2024".

Definition coded_subject : graph :=
  [ (entity, NS.dcterms ++ "subject", subject_a);
    (subject_a, NS.skos ++ "notation",
     Literal (mkLiteral "X100" (Some numbered_scheme) None None)) ].

(** A catalogue with one provider, offering one course with one
    presentation that has a start date and nothing else. *)
Definition catalogue : term := URIRef "http://example.org/catalogue".
Definition provider : term := URIRef "http://example.org/provider".

Definition small_catalogue : graph :=
  [ (catalogue, NS.rdf ++ "type", URIRef (NS.xcri ++ "catalog"));
    (catalogue, NS.skos ++ "member", entity);
    (catalogue, NS.dcterms ++ "publisher", provider);
    (provider, NS.mlo ++ "offers", entity);
    (entity, NS.rdf ++ "type", URIRef (NS.xcri ++ "course"));
    (entity, NS.mlo ++ "specifies", presentation);
    (presentation, NS.mlo ++ "start", plain_literal "Autumn 2024") ].

End Sample.

(** ** What is written when a call does not return

    A call on the writer changes the stream for good: when an exception
    leaves a mapping rule, what the rule has written before it stays in the
    stream.  The definitions above tell how a call ends and, when it
    returns, what the writer then is.  The definitions of [Traced] follow
    the same source text and give the writer as it is when the call ends,
    however it ends.  The two entry points are read off them in full: what
    is in the sink after [serialize], and which chunks [generator] has
    yielded, also when a step raises. *)

Module Traced.

(** How a call ends: it returns, an exception leaves it, or a loop inside
    it has not finished within the fuel given. *)
Inductive ending : Type :=
| Returns
| Raises (e : exn)
| Hangs.

(** Code that works on the writer: the writer when the code ends, and how
    it ends. *)
Definition action : Type := xmlgen -> xmlgen * ending.

Definition skip : action := fun xg => (xg, Returns).

(** Calls on the writer itself, which do not fail. *)
Definition wrote (f : xmlgen -> xmlgen) : action := fun xg => (f xg, Returns).

(** [a; b] *)
Definition andthen (a b : action) : action :=
  fun xg =>
    match a xg with
    | (xg1, Returns) => b xg1
    | stopped => stopped
    end.

(** A computation that does not touch the writer, and the code that goes
    on with its value. *)
Definition given {A : Type} (r : result A) (k : A -> action) : action :=
  fun xg =>
    match r with
    | Ok x => k x xg
    | Raise e => (xg, Raises e)
    | OutOfFuel => (xg, Hangs)
    end.

(** A rule in which everything that can fail comes before the first call
    on the writer: when it does not return, it has written nothing. *)
Definition all_or_nothing (rule : xmlgen -> result xmlgen) : action :=
  fun xg =>
    match rule xg with
    | Ok xg' => (xg', Returns)
    | Raise e => (xg, Raises e)
    | OutOfFuel => (xg, Hangs)
    end.

(** [for x in l: body(x)] *)
Fixpoint for_each {A : Type} (l : list A) (body : A -> action) : action :=
  match l with
  | [] => skip
  | x :: rest => andthen (body x) (for_each rest body)
  end.

(** [xg.characters(t)] under [if t:], for a [text] or a [tail]. *)
Definition characters_if (t : option string) (xg : xmlgen) : xmlgen :=
  match t with
  | Some t => if Py.str_bool t then characters t xg else xg
  | None => xg
  end.

(** [serialize_etree(xml, xg, previous_nsmap)]: the opening tag is written
    before the children are visited, so a child that fails leaves the
    element open. *)
Fixpoint serialize_etree (xml : etree) (previous_nsmap : list (option string * string))
    (xg : xmlgen) : xmlgen * ending :=
  match xml with
  | ContentOnly => (xg, Raises AttributeError)
  | Element tag prefix nsmap attrib text children =>
      let attrib' := ns_declarations nsmap previous_nsmap attrib in
      match element_tag tag prefix with
      | Ok tagname =>
          let xg2 := characters_if text (startElement tagname attrib' xg) in
          match
            (fix children_loop (cs : list (etree * option string)) (xg : xmlgen)
               : xmlgen * ending :=
               match cs with
               | [] => (xg, Returns)
               | (child, tail) :: rest =>
                   match serialize_etree child nsmap xg with
                   | (xg', Returns) => children_loop rest (characters_if tail xg')
                   | stopped => stopped
                   end
               end) children xg2
          with
          | (xg3, Returns) => (endElement tagname xg3, Returns)
          | stopped => stopped
          end
      | Raise e => (xg, Raises e)
      | OutOfFuel => (xg, Hangs)
      end
  end.

Section Rules.

Variable ext : externals.
Variable g : graph.

(** [descriptive_text_element(xg, name, obj, attrib)]: the fragment is
    parsed before the opening tag is written, and re-emitted after it. *)
Definition descriptive_text_element (name : string) (obj : term) (attrib : attrs) : action :=
  match obj with
  | URIRef u => wrote (fun xg => endElement name (startElement name [("href", u)] xg))
  | _ =>
      given (term_datatype obj) (fun dt =>
        if bool_decide (dt = Some (NS.xtypes ++ "Fragment-XHTML")) then
          given (etree_fromstring ext (term_str obj)) (fun xml =>
            andthen (wrote (startElement name attrib))
              (andthen (serialize_etree xml xmlns_nsmap) (wrote (endElement name))))
        else if bool_decide (dt = Some (NS.xtypes ++ "Fragment-HTML")) then
          given (etree_fromstring_html ext (term_str obj)) (fun xml =>
            andthen (wrote (startElement name attrib))
              (andthen (serialize_etree xml xmlns_nsmap) (wrote (endElement name))))
        else wrote (textualElement name attrib (term_str obj)))
  end.

(** [_find_first(name, ps, rich_element)] *)
Definition _find_first (name : string) (ps : list string) (rich_element : bool)
    (entity : option term) : action :=
  match chain_objects g entity ps with
  | [] => skip
  | obj :: _ =>
      if rich_element
      then descriptive_text_element name obj []
      else wrote (textualElement name [] (term_str obj))
  end.

Definition serialize_title := _find_first "dc:title" labels false.
Definition serialize_url := _find_first "mlo:url" urls false.
Definition serialize_description := _find_first "dc:description" descriptions true.
Definition serialize_places := _find_first "mlo:places" [NS.mlo ++ "places"] false.
Definition serialize_applyTo := _find_first "xcri:applyTo" [NS.xcri ++ "applyTo"] false.

(** [serialize_identifiers(xg, entity)]: the identifiers of the notations
    before the one that fails have been written. *)
Definition serialize_identifiers (entity : option term) : action :=
  andthen
    (for_each (objects g entity (NS.skos ++ "notation"))
       (fun obj =>
          given (term_datatype obj) (fun dt =>
            given (xsi_type dt) (fun attrib =>
              match attrib with
              | [] => skip
              | _ => wrote (textualElement "dc:identifier" attrib (term_str obj))
              end))))
    (for_each (elements (plain_identifiers g entity))
       (fun identifier => wrote (textualElement "dc:identifier" [] identifier))).

(** [serialize_common(xg, entity)] *)
Definition serialize_common (entity : option term) : action :=
  andthen (serialize_identifiers entity)
    (andthen (serialize_title entity)
       (andthen (serialize_url entity) (serialize_description entity))).

(** [serialize_common_descriptive_elements(xg, entity)] *)
Definition serialize_common_descriptive_elements (entity : option term) : action :=
  for_each common_descriptive_elements
    (fun '(prop, name) =>
       for_each (objects g entity prop)
         (fun obj => descriptive_text_element name obj [])).

(** [serialize_typed_descriptive_elements(xg, entity)] *)
Definition serialize_typed_descriptive_elements (entity : option term) : action :=
  for_each typed_descriptive_elements
    (fun '(prop, name) =>
       match graph_value g entity prop with
       | Some v =>
           if term_bool v
           then descriptive_text_element "dc:description" v [("xsi:type", name)]
           else skip
       | None => skip
       end).

(** [serialize_location(xg, entity)], from the rule above: the loop comes
    first, and the calls on the writer after it do not fail. *)
Definition serialize_location (fuel : nat) (entity : option term) : action :=
  all_or_nothing (serialize_location g fuel entity).

(** [serialize_controlled_vocabularies(xg, presentation)], from the loop
    body above: [notation.datatype] is looked up before the one call on
    the writer. *)
Definition serialize_controlled_vocabularies (presentation : option term) : action :=
  for_each controlled_vocabularies
    (fun cv => all_or_nothing (controlled_vocabulary g presentation cv)).

(** [serialize_subjects(xg, course)], from the body of the emission loop
    above: [xsi_type(notation.datatype)] comes before the one call on the
    writer. *)
Definition serialize_subjects (course : option term) : action :=
  for_each (elements (subject_closure g course))
    (fun subject => all_or_nothing (subject_element g subject)).

(** [serialize_date(xg, entity, prop, name)], from the rule above: the
    parser and [dtf.datatype] come before the one call on the writer. *)
Definition serialize_date (entity : option term) (prop name : string) : action :=
  all_or_nothing (serialize_date ext g entity prop name).

End Rules.

(** A generator of the serializer, as above. *)
#[warnings="-register-all"]
Inductive generator : Type :=
| Stop (final : action)
| Yield (act : action) (item : option generator) (rest : generator).

Definition prepend (a : action) (gen : generator) : generator :=
  match gen with
  | Stop final => Stop (andthen a final)
  | Yield act item rest => Yield (andthen a act) item rest
  end.

Definition yield_each {A : Type} (l : list A) (f : A -> generator) (rest : generator)
    : generator :=
  fold_right (fun x r => Yield skip (Some (f x)) r) rest l.

Section Producers.

Variable ext : externals.
Variable g : graph.
Variable fuel : nat.

(** [venue_element(xg, venue)] *)
Definition venue_element (venue : term) : generator :=
  Yield (andthen (wrote (startElement "xcri:venue" []))
           (andthen (wrote (startElement "xcri:provider" []))
              (serialize_common ext g (Some venue))))
        None
    (Yield (serialize_location g fuel (Some venue)) None
       (Stop (andthen (wrote (endElement "xcri:provider"))
                (wrote (endElement "xcri:venue"))))).

(** [presentation_content(xg, presentation)]: the rules are called one
    after the other before the first [yield]. *)
Definition presentation_content (presentation : term) : generator :=
  let p := Some presentation in
  prepend
    (andthen (serialize_common ext g p)
       (andthen (serialize_common_descriptive_elements ext g p)
          (andthen (serialize_date ext g p (NS.mlo ++ "start") "mlo:start")
             (andthen (serialize_date ext g p (NS.xcri ++ "end") "xcri:end")
                (andthen (serialize_date ext g p (NS.xcri ++ "applyFrom") "xcri:applyFrom")
                   (andthen (serialize_date ext g p (NS.xcri ++ "applyUntil")
                               "xcri:applyUntil")
                      (andthen (serialize_places ext g p)
                         (andthen (serialize_applyTo ext g p)
                            (serialize_controlled_vocabularies g p)))))))))
    (yield_each (objects g p (NS.xcri ++ "venue")) venue_element (Stop skip)).

(** [presentation_element(xg, presentation)] *)
Definition presentation_element (presentation : term) : generator :=
  Yield (wrote (startElement "xcri:presentation" []))
        (Some (presentation_content presentation))
    (Stop (wrote (endElement "xcri:presentation"))).

(** [course_content(xg, course)] *)
Definition course_content (course : term) : generator :=
  let c := Some course in
  Yield (serialize_common ext g c) None
    (Yield (serialize_common_descriptive_elements ext g c) None
       (Yield (serialize_typed_descriptive_elements ext g c) None
          (Yield (serialize_subjects g c) None
             (yield_each (objects g c (NS.mlo ++ "specifies")) presentation_element
                (Stop skip))))).

(** [course_element(xg, course)] *)
Definition course_element (course : term) : generator :=
  Yield (wrote (startElement "xcri:course" []))
        (Some (course_content course))
    (Stop (wrote (endElement "xcri:course"))).

(** [provider_content(xg, provider, courses)] *)
Definition provider_content (provider : option term) (courses : list term) : generator :=
  let tail := yield_each courses course_element (Stop skip) in
  if truthy provider
  then Yield (serialize_common ext g provider) None
         (Yield (serialize_location g fuel provider) None tail)
  else tail.

(** [provider_element(xg, provider, courses)] *)
Definition provider_element (provider : option term) (courses : list term) : generator :=
  Yield (wrote (startElement "xcri:provider" []))
        (Some (provider_content provider courses))
    (Stop (wrote (endElement "xcri:provider"))).

(** [catalog_content(xg, catalog)]: the loop that collects the courses
    does not touch the writer. *)
Definition catalog_content (simple : bool) (catalog : option term) : generator :=
  Yield (serialize_common ext g catalog) None
    (match collect_courses g fuel {[ catalog ]} [] with
     | Ok provider_courses =>
         if simple then
           let provider := graph_value g catalog (NS.dcterms ++ "publisher") in
           Yield skip
             (Some (provider_element provider
                      (concat (map (fun pc => elements (snd pc)) provider_courses))))
             (Stop skip)
         else
           yield_each provider_courses
             (fun pc => provider_element (fst pc) (elements (snd pc))) (Stop skip)
     | Raise e => Stop (fun xg => (xg, Raises e))
     | OutOfFuel => Stop (fun xg => (xg, Hangs))
     end).

(** [catalog_element(xg, catalog)] *)
Definition catalog_element (simple : bool) (catalog : option term) : generator :=
  Yield (wrote (startElement "xcri:catalog" (catalog_attrib ext)))
        (Some (catalog_content simple catalog))
    (Stop (wrote (endElement "xcri:catalog"))).

(** [_serialize()] *)
Definition _serialize (simple : bool) (catalog : option term) : generator :=
  Yield (wrote startDocument)
        (Some (catalog_element simple catalog))
    (Stop (wrote endDocument)).

End Producers.

(** One turn of the loop shared by [serialize] and [generator]:
    [next(stack[-1])], then [stack.pop()] on [StopIteration], or
    [stack.append(item)] when the item is a generator.  Any other exception
    leaves the loop, and the entry point. *)
Definition step (stack : list generator) (xg : xmlgen)
    : list generator * (xmlgen * ending) :=
  match stack with
  | [] => ([], (xg, Returns))
  | Stop final :: below => (below, final xg)
  | Yield act item rest :: below =>
      (match item with
       | Some nested => nested :: rest :: below
       | None => rest :: below
       end, act xg)
  end.

Fixpoint turns (gen : generator) : nat :=
  match gen with
  | Stop _ => 1
  | Yield _ item rest =>
      S (match item with Some nested => turns nested | None => 0 end + turns rest)
  end.

Definition stack_turns (stack : list generator) : nat :=
  fold_right (fun gen n => turns gen + n) 0 stack.

(** [while stack: ...] of [serialize], for at most [n] turns: the writer
    when the loop is left, and how; [None] when the stack is not empty
    after [n] turns. *)
Fixpoint serialize_loop (n : nat) (stack : list generator) (xg : xmlgen)
    : option (xmlgen * ending) :=
  match stack with
  | [] => Some (xg, Returns)
  | _ =>
      match n with
      | O => None
      | S n' =>
          match step stack xg with
          | (stack', (xg', Returns)) => serialize_loop n' stack' xg'
          | (_, stopped) => Some stopped
          end
      end
  end.

(** What [generator] has handed to its consumer when it ends: the chunks
    yielded, what is in the buffer without having been yielded, and how
    the iteration ended. *)
Record yielded : Type := mkYielded {
  chunks : list (list sax);
  unyielded : list sax;
  ended : ending
}.

(** [while stack: ...] of [generator] and the [yield] after it, for at most
    [n] turns.  A turn that ends well yields the buffer and empties it.  An
    exception in [next(stack[-1])] leaves [generator] before the [yield] of
    that turn: what the turn has written is in the buffer and is not
    yielded. *)
Fixpoint generator_loop (n : nat) (stack : list generator) (xg : xmlgen)
    : option yielded :=
  match stack with
  | [] => Some (mkYielded [stream xg] [] Returns)
  | _ =>
      match n with
      | O => None
      | S n' =>
          match step stack xg with
          | (stack', (xg', Returns)) =>
              match generator_loop n' stack' (truncate xg') with
              | Some y => Some (mkYielded (stream xg' :: chunks y) (unyielded y) (ended y))
              | None => None
              end
          | (_, (xg', e)) => Some (mkYielded [] (stream xg') e)
          end
      end
  end.

(** [XCRICAPSerializer(graph, catalog, simple=...).serialize(stream)]: what
    is in the sink afterwards, and how the call ended.  The loop is given
    as many turns as the generators can take. *)
Definition serialize (ext : externals) (g : graph) (fuel : nat) (simple : bool)
    (catalog : option term) (sink : list sax) : list sax * ending :=
  let gen := _serialize ext g fuel simple catalog in
  match serialize_loop (turns gen) [gen] (mkXg sink 0 false) with
  | Some (xg, e) => (stream xg, e)
  | None => (sink, Hangs)
  end.

(** [XCRICAPSerializer(graph, catalog, simple=...).generator()], iterated
    until it ends. *)
Definition generator_chunks (ext : externals) (g : graph) (fuel : nat) (simple : bool)
    (catalog : option term) : yielded :=
  let gen := _serialize ext g fuel simple catalog in
  match generator_loop (turns gen) [gen] new_xmlgen with
  | Some y => y
  | None => mkYielded [] [] Hangs
  end.

(** An action that only appends to the stream and never looks at it. *)
Definition framed (a : action) : Prop :=
  forall s xg, a (shift s xg) = (shift s (fst (a xg)), snd (a xg)).

Fixpoint gen_framed (gen : generator) : Prop :=
  match gen with
  | Stop final => framed final
  | Yield act item rest =>
      framed act
      /\ match item with Some nested => gen_framed nested | None => True end
      /\ gen_framed rest
  end.

(** What the rules above say of a call, read off how it ended. *)
Definition outcome (t : xmlgen * ending) : result xmlgen :=
  match t with
  | (xg, Returns) => Ok xg
  | (_, Raises e) => Raise e
  | (_, Hangs) => OutOfFuel
  end.

End Traced.

(** The traced code ends as the code above does, and returns the same
    writer. *)
Definition refines (t : Traced.action) (a : action) : Prop :=
  forall xg, Traced.outcome (t xg) = a xg.

Fixpoint gen_refines (t : Traced.generator) (gen : generator) : Prop :=
  match t, gen with
  | Traced.Stop final, Stop final' => refines final final'
  | Traced.Yield act item rest, Yield act' item' rest' =>
      refines act act'
      /\ match item, item' with
         | Some nested, Some nested' => gen_refines nested nested'
         | None, None => True
         | _, _ => False
         end
      /\ gen_refines rest rest'
  | _, _ => False
  end.

(** What the two entry points have in common for one graph, catalogue
    root, mode and clock: they end the same way, and the sink holds what
    was there, then the chunks yielded, then what the failing step had
    written when there is one.  When they end well nothing is left out, and
    the chunks put together are what was written, call for call and
    character for character. *)
Definition same_output (sink : list sax) (blocking : list sax * Traced.ending)
    (incremental : Traced.yielded) : Prop :=
  let '(out, e) := blocking in
  e = Traced.ended incremental
  /\ out = (sink ++ concat (Traced.chunks incremental) ++ Traced.unyielded incremental)%list
  /\ (e = Traced.Returns ->
      Traced.unyielded incremental = []
      /\ out = (sink ++ concat (Traced.chunks incremental))%list
      /\ render out
         = (render sink ++ Py.join "" (map render (Traced.chunks incremental)))%string).

(** The same for the two loops, started on the same stack and writer. *)
Definition loops_agree (blocking : option (xmlgen * Traced.ending))
    (incremental : option Traced.yielded) : Prop :=
  match blocking, incremental with
  | Some (xg', e), Some y =>
      e = Traced.ended y
      /\ stream xg' = (concat (Traced.chunks y) ++ Traced.unyielded y)%list
      /\ (e = Traced.Returns -> Traced.unyielded y = [])
  | None, None => True
  | _, _ => False
  end.

(** ** Notions used in the further properties *)

(** [d.get(k)] on an attribute dictionary. *)
Fixpoint attrs_get (d : attrs) (k : string) : option string :=
  match d with
  | [] => None
  | (k', v) :: rest => if String.eqb k k' then Some v else attrs_get rest k
  end.

(** The attribute that declares the namespace of a prefix ([None]: the
    default namespace). *)
Definition ns_key (ns : option string) : string :=
  match ns with
  | None => "xmlns"
  | Some n => "xmlns:" ++ n
  end.

(** Every node of the fragment is an element, and every element with a
    prefix has a tag in Clark notation: no comment, no processing
    instruction, and [xml.tag.split('}', 1)[1]] exists wherever it is
    asked for. *)
Fixpoint etree_tags_ok (xml : etree) : bool :=
  match xml with
  | Element tag prefix _ _ _ children =>
      match element_tag tag prefix with Ok _ => true | _ => false end
      && (fix all_ok (cs : list (etree * option string)) : bool :=
            match cs with
            | [] => true
            | (child, _) :: rest => etree_tags_ok child && all_ok rest
            end) children
  | ContentOnly => false
  end.

(** The number of elements of a fragment. *)
Fixpoint etree_size (xml : etree) : nat :=
  match xml with
  | Element _ _ _ _ _ children =>
      S ((fix sum (cs : list (etree * option string)) : nat :=
            match cs with
            | [] => 0
            | (child, _) :: rest => etree_size child + sum rest
            end) children)
  | ContentOnly => 0
  end.

(** The number of opening tags among the events. *)
Fixpoint count_starts (events : list sax) : nat :=
  match events with
  | [] => 0
  | StartElement _ _ :: rest => S (count_starts rest)
  | _ :: rest => count_starts rest
  end.

(** The notation [serialize_subjects] takes into account for a subject:
    the value of [skos:notation], if there is one and it is truthy. *)
Definition subject_notation (g : graph) (subject : term) : option term :=
  match graph_value g (Some subject) (NS.skos ++ "notation") with
  | Some n => if term_bool n then Some n else None
  | None => None
  end.

(** The datatype [xsi_type] can work on: that of a literal that has
    one. *)
Definition notation_datatype (notation : term) : option string :=
  match notation with
  | Literal l => datatype l
  | _ => None
  end.

(** The names of the elements among the events that are not inside another
    of them, in the order they are opened; [inside] counts the elements that are
    open. *)
Fixpoint outermost (inside : nat) (events : list sax) : list string :=
  match events with
  | [] => []
  | StartElement name _ :: rest =>
      match inside with
      | O => name :: outermost 1 rest
      | S _ => outermost (S inside) rest
      end
  | EndElement _ :: rest => outermost (pred inside) rest
  | _ :: rest => outermost inside rest
  end.

(** The elements [serialize_common] can write. *)
Definition common_names : list string :=
  ["dc:identifier"; "dc:title"; "mlo:url"; "dc:description"].

(** An action that, when it returns, has written complete elements with
    names among [names] (with whatever inside them) and nothing else but
    indentation. *)
Definition writes_only (names : list string) (a : action) : Prop :=
  forall xg xg',
    a xg = Ok xg' ->
    exists body,
      emits xg xg' body /\ balanced body
      /\ Forall (fun name => name ∈ names) (outermost 0 body).

(** A generator run to its end by plain recursion: the code before each
    [yield], then the generator yielded (if it is one) run to its end, then
    the rest. *)
Fixpoint run (gen : generator) (xg : xmlgen) : result xmlgen :=
  match gen with
  | Stop final => final xg
  | Yield act item rest =>
      do xg1 <- act xg in
      do xg2 <- match item with
                | Some nested => run nested xg1
                | None => Ok xg1
                end in
      run rest xg2
  end.

(** The generators of a stack run to their ends, the top one first. *)
Fixpoint run_stack (stack : list generator) (xg : xmlgen) : result xmlgen :=
  match stack with
  | [] => Ok xg
  | gen :: below => do xg' <- run gen xg in run_stack below xg'
  end.

(** A member that the loop of [catalog_content] puts on its work list: of
    type catalogue, and not of type course. *)
Definition nested_catalog (g : graph) (member : term) : bool :=
  negb (contains g member (NS.rdf ++ "type") (URIRef (NS.xcri ++ "course")))
  && contains g member (NS.rdf ++ "type") (URIRef (NS.xcri ++ "catalog")).

(** The courses filed in [provider_courses], under whatever provider. *)
Definition courses_of (provider_courses : list (option term * gset term)) : gset term :=
  union_list (map snd provider_courses).

Module Fragment.

Definition xhtml : string := "http://www.w3.org/1999/xhtml".

(** [<div xmlns="http://www.w3.org/1999/xhtml">Hello <b>world</b>!</div>] *)
Definition hello : etree :=
  Element "{http://www.w3.org/1999/xhtml}div" None [(None, xhtml)] []
          (Some "Hello ")
          [ (Element "{http://www.w3.org/1999/xhtml}b" None [(None, xhtml)] []
                     (Some "world") [], Some "!") ].

(** [<p>Fees<!-- to be confirmed --> apply</p>] *)
Definition commented : etree :=
  Element "p" None [] [] (Some "Fees") [ (ContentOnly, Some " apply") ].

End Fragment.

Module Sample2.

(** A provider with a title under two vocabularies, the generic one first
    in the store, and the same identifier under both identifier
    predicates. *)
Definition college : term := URIRef "http://example.org/college".

Definition titled : graph :=
  [ (college, NS.dc ++ "title", plain_literal "College (dc)");
    (college, NS.rdfs ++ "label", plain_literal "College (rdfs)");
    (college, NS.dc ++ "identifier", plain_literal "COL-1");
    (college, NS.dcterms ++ "identifier", plain_literal "COL-1") ].

(** A date parser that knows one date. *)
Definition ext : externals :=
  mkExternals (fun _ => Raise XMLSyntaxError) (fun _ => Raise XMLSyntaxError)
              (fun s => if String.eqb s "2024-03-15"
                        then Ok (mkDatetime 2024 3 15 0 0 0)
                        else Raise ValueError)
              "2024-01-01T00:00:00".

(** A presentation whose start is a resource with a machine-readable date,
    without and with a label. *)
Definition instant : term := BNode "t1".

Definition timed : graph :=
  [ (Sample.presentation, NS.mlo ++ "start", instant);
    (instant, NS.time ++ "inXSDDateTime", Literal Sample.date_literal) ].

Definition timed_labelled : graph :=
  app timed [ (instant, NS.rdfs ++ "label", plain_literal "Spring term") ].

(** A JACS subject with a notation of a scheme of its own. *)
Definition jacs_subject : term := URIRef "http://jacs.dataincubator.org/g100".

Definition jacs : graph :=
  [ (Sample.entity, NS.dcterms ++ "subject", jacs_subject);
    (jacs_subject, NS.skos ++ "notation",
     Literal (mkLiteral "G100" (Some "http://example.org/schemes/jacs") None None));
    (jacs_subject, NS.skos ++ "prefLabel", plain_literal "Mathematics") ].

(** A JACS subject whose notation is a plain literal. *)
Definition jacs_plain : graph :=
  [ (Sample.entity, NS.dcterms ++ "subject", jacs_subject);
    (jacs_subject, NS.skos ++ "notation", plain_literal "G100");
    (jacs_subject, NS.skos ++ "prefLabel", plain_literal "Mathematics") ].

(** The catalogue of [Sample.small_catalogue], with the start of the
    presentation given as a typed date. *)
Definition dated_catalogue : graph :=
  [ (Sample.catalogue, NS.rdf ++ "type", URIRef (NS.xcri ++ "catalog"));
    (Sample.catalogue, NS.skos ++ "member", Sample.entity);
    (Sample.catalogue, NS.dcterms ++ "publisher", Sample.provider);
    (Sample.provider, NS.mlo ++ "offers", Sample.entity);
    (Sample.entity, NS.rdf ++ "type", URIRef (NS.xcri ++ "course"));
    (Sample.entity, NS.mlo ++ "specifies", Sample.presentation);
    (Sample.presentation, NS.mlo ++ "start", Literal Sample.date_literal) ].

(** Two catalogues, each a member of the other. *)
Definition catalogue_a : term := URIRef "http://example.org/catalogue/a".
Definition catalogue_b : term := URIRef "http://example.org/catalogue/b".

Definition nested_in_a_circle : graph :=
  [ (catalogue_a, NS.rdf ++ "type", URIRef (NS.xcri ++ "catalog"));
    (catalogue_b, NS.rdf ++ "type", URIRef (NS.xcri ++ "catalog"));
    (catalogue_a, NS.skos ++ "member", catalogue_b);
    (catalogue_b, NS.skos ++ "member", catalogue_a) ].

End Sample2.

(** * Properties *)

(** ** Compact names *)

(** The table [xsi_type] runs through, as the module computes it: the pairs
    are (prefix, URI), ordered by the length of the prefix. *)
Lemma INVERSE_XMLNS_value :
  INVERSE_XMLNS =
    [ ("xcriterms", "http://xcri.org/profiles/1.2/catalog/terms");
      ("xcri", "http://xcri.org/profiles/1.2/catalog");
      ("html", "http://www.w3.org/1999/xhtml");
      ("mlo", "http://purl.org/net/mlo");
      ("xsi", "http://www.w3.org/2001/XMLSchema-instance");
      ("cdp", "http://xcri.co.uk");
      ("dc", "http://purl.org/dc/elements/1.1/") ].
Proof. reflexivity. Qed.

(** The first loop of [xsi_type] compares the URI with the prefixes, and
    puts the namespace URI where the prefix belongs. *)
Example xsi_type_prefix_as_namespace :
  xsi_type (Some "dcterms") = Ok [("xsi:type", "http://purl.org/dc/elements/1.1/:terms")].
Proof. reflexivity. Qed.

(** C7.  A URI that starts with the namespace URIs of both [xcri] and
    [xcriterms] and continues with a valid local part is not given the
    compact name [xcriterms:Credit] of the longest matching namespace:
    [xsi_type] matches none of the known namespaces and makes up a
    namespace [ns] for it. *)
Theorem xsi_type_ignores_known_namespaces :
  let uri := "http://xcri.org/profiles/1.2/catalog/termsCredit" in
  Py.startswith uri (dict_get XMLNS "xcri") = true
  /\ Py.startswith uri (dict_get XMLNS "xcriterms") = true
  /\ is_localpart (Py.slice_from (String.length (dict_get XMLNS "xcriterms")) uri) = true
  /\ xsi_type (Some uri) =
       Ok [ ("xsi:type", "ns:termsCredit");
            ("xmlns:ns", "http://xcri.org/profiles/1.2/catalog/") ].
Proof. repeat split; reflexivity. Qed.

(** ** Identifiers *)

Lemma for_each_raise {A : Type} (body : A -> xmlgen -> result xmlgen) (e : exn)
    (l : list A) (x : A) (xg : xmlgen) :
  x ∈ l ->
  (forall y xg', body y xg' = Raise e \/ exists xg'', body y xg' = Ok xg'') ->
  (forall xg', body x xg' = Raise e) ->
  for_each l body xg = Raise e.
Proof.
  intros Hin Hany Hx. revert xg.
  induction l as [|y l IH]; intros xg.
  - inversion Hin.
  - simpl. apply elem_of_cons in Hin as [->|Hin].
    + rewrite Hx. reflexivity.
    + destruct (Hany y xg) as [Hr|[xg'' Hok]].
      * rewrite Hr. reflexivity.
      * rewrite Hok. simpl. apply IH. exact Hin.
Qed.

(** On a URI, [xsi_type] always returns. *)
Lemma xsi_type_Some (d : string) : exists a, xsi_type (Some d) = Ok a.
Proof.
  unfold xsi_type. destruct (xsi_type_known INVERSE_XMLNS d); eauto.
Qed.

(** C8.  When one of the [skos:notation] objects of an entity is a literal
    without a datatype, [serialize_identifiers] raises [AttributeError]
    ([xsi_type] is applied to [None]); the identifier is not skipped. *)
Theorem serialize_identifiers_untyped_notation_raises
    (g : graph) (entity : option term) (xg : xmlgen) (l : literal) :
  Literal l ∈ objects g entity (NS.skos ++ "notation") ->
  datatype l = None ->
  serialize_identifiers g entity xg = Raise AttributeError.
Proof.
  intros Hin Hnone. unfold serialize_identifiers.
  erewrite for_each_raise; [reflexivity | exact Hin | |].
  - intros y xg'. destruct y as [u|b|l']; cbn [term_datatype bind];
      [left; reflexivity .. |].
    destruct (datatype l') as [d|]; [|left; reflexivity].
    right. destruct (xsi_type_Some d) as [a ->]. cbn [bind].
    destruct a; eauto.
  - intros xg'. cbn [term_datatype bind]. rewrite Hnone. reflexivity.
Qed.

Lemma serialize_identifiers_untyped_notation_raises_witness :
  serialize_identifiers Sample.untyped_notation (Some Sample.entity) new_xmlgen
  = Raise AttributeError.
Proof.
  apply (serialize_identifiers_untyped_notation_raises
           Sample.untyped_notation (Some Sample.entity) new_xmlgen
           (mkLiteral "C101" None None None)).
  - vm_compute. apply list_elem_of_here.
  - reflexivity.
Defined.

(** ** Locations *)

(** [graph.value(entity, p)] in a one-step form. *)
Lemma graph_value_None (g : graph) (p : string) : graph_value g None p = None.
Proof. reflexivity. Qed.

(** The walk of [serialize_location] asks the starting entity for its
    address at every turn: without an address on the entity itself nothing
    is ever written, whatever the entities it lies within. *)
Lemma location_walk_own_address_only (g : graph) (entity : option term) :
  truthy (graph_value g entity (NS.v ++ "adr")) = false ->
  forall fuel with_address,
    location_walk g fuel entity with_address = Ok None
    \/ location_walk g fuel entity with_address = OutOfFuel.
Proof.
  intros Hadr fuel. induction fuel as [|fuel IH]; intros w; simpl.
  - right; reflexivity.
  - destruct (truthy w); [|left; reflexivity].
    rewrite Hadr. apply IH.
Qed.

(** C1.  In the graph [Sample.located] the building lies within the campus
    and the campus bears an address with a street; [serialize_location]
    writes nothing for the building, because each turn of its loop looks up
    the address of the building again instead of that of the entity the walk
    has reached. *)
Theorem serialize_location_misses_containing_entity :
  within_iter Sample.located 1 (Some Sample.building) = Some Sample.campus
  /\ graph_value Sample.located (Some Sample.campus) (NS.v ++ "adr")
     = Some Sample.campus_address
  /\ graph_value Sample.located (Some Sample.campus_address) (NS.v ++ "street-address")
     = Some (plain_literal "1 High Street")
  /\ forall n xg,
       serialize_location Sample.located (3 + n) (Some Sample.building) xg = Ok xg.
Proof.
  split; [reflexivity|]. split; [reflexivity|]. split; [reflexivity|].
  intros n xg. reflexivity.
Qed.

(** For the campus itself the location is written. *)
Example serialize_location_campus :
  serialize_location Sample.located 1 (Some Sample.campus) new_xmlgen
  = Ok (mkXg [ StartElement "mlo:location" [];
               Characters (indent 1);
               StartElement "mlo:address" [];
               Characters "1 High Street";
               EndElement "mlo:address";
               Characters (indent 0);
               EndElement "mlo:location" ] 0 false).
Proof. reflexivity. Qed.

(** ** Dates *)

Lemma graph_value_singleton (s : term) (p : string) (o : term) :
  graph_value [(s, p, o)] (Some s) p = Some o.
Proof.
  unfold graph_value, objects. simpl.
  rewrite bool_decide_eq_true_2 by reflexivity.
  rewrite String.eqb_refl. reflexivity.
Qed.

(** C2.  For a literal of datatype [xsd:date] or [xsd:dateTime] that rdflib
    has converted to a date, [serialize_date] raises [TypeError]: the
    converted value, not a string, is handed to [dateutil.parser.parse].
    This holds for every predicate, element name and writer state, and
    whatever the date parser does on strings. *)
Theorem serialize_date_typed_literal_raises
    (ext : externals) (prop name : string) (xg : xmlgen) :
  serialize_date ext (Sample.dated prop Sample.date_literal)
                 (Some Sample.presentation) prop name xg = Raise TypeError
  /\ serialize_date ext (Sample.dated prop Sample.dateTime_literal)
                    (Some Sample.presentation) prop name xg = Raise TypeError.
Proof.
  unfold serialize_date, date_parts, Sample.dated.
  rewrite !graph_value_singleton. split; reflexivity.
Qed.

(** A literal that rdflib could not convert is written as it is, without a
    [dtf] attribute. *)
Lemma serialize_date_raw_text
    (ext : externals) (prop name : string) (xg : xmlgen) :
  serialize_date ext (Sample.dated prop (mkLiteral "sometime next year" None None None))
                 (Some Sample.presentation) prop name xg
  = Ok (textualElement name [] "sometime next year" xg).
Proof.
  unfold serialize_date, date_parts, Sample.dated.
  rewrite !graph_value_singleton. reflexivity.
Qed.

(** The two formats give the texts expected for 15 March 2024. *)
Example strftime_formats :
  strftime_date (mkDatetime 2024 3 15 0 0 0) = "Friday, 15 March 2024"
  /\ strftime_datetime (mkDatetime 2024 3 15 14 30 0) = "02:30 PM, Friday, 15 March 2024".
Proof. split; reflexivity. Qed.

(** ** Controlled vocabularies *)

(** When every notation is a literal of another scheme, the search for a
    notation ends without one. *)
Lemma find_notation_none (notations : list term) (scheme : string) :
  (forall n, n ∈ notations -> exists l, n = Literal l /\ datatype l <> Some scheme) ->
  find_notation notations scheme = Ok None.
Proof.
  induction notations as [|n rest IH]; intros H; simpl; [reflexivity|].
  destruct (H n) as (l & -> & Hd); [apply list_elem_of_here|].
  cbn [term_datatype bind].
  rewrite bool_decide_eq_false_2 by exact Hd.
  apply IH. intros m Hm. apply H. apply list_elem_of_further. exact Hm.
Qed.

(** C3 (as the code has it).  When the notations of the value node all
    carry another scheme, none of them is used: the element is written
    exactly when a label is found, with the label as its text and without an
    [identifier] attribute. *)
Theorem controlled_vocabulary_wrong_scheme
    (g : graph) (presentation : option term) (prop name scheme : string)
    (v : term) (xg : xmlgen) :
  graph_value g presentation prop = Some v ->
  (forall n, n ∈ objects g (Some v) (NS.skos ++ "notation") ->
             exists l, n = Literal l /\ datatype l <> Some scheme) ->
  controlled_vocabulary g presentation (prop, name, scheme) xg
  = Ok (if term_bool v && truthy (label_loop g (Some v) labels None)
        then textualElement name []
               (or_empty (of_option (label_loop g (Some v) labels None))) xg
        else xg).
Proof.
  intros Hv Hn. unfold controlled_vocabulary. rewrite Hv. cbn [truthy].
  destruct (term_bool v); cbn [negb andb]; [|reflexivity].
  rewrite (find_notation_none _ _ Hn). cbn [bind truthy orb].
  destruct (truthy (label_loop g (Some v) labels None)); reflexivity.
Qed.

Lemma controlled_vocabulary_wrong_scheme_witness :
  controlled_vocabulary Sample.wrong_scheme (Some Sample.presentation)
    (NS.xcri ++ "studyMode", "xcri:studyMode",
     "http://xcri.org/profiles/catalog/1.2/studyMode/notation") new_xmlgen
  = Ok (textualElement "xcri:studyMode" [] "Full time" new_xmlgen).
Proof.
  apply (controlled_vocabulary_wrong_scheme Sample.wrong_scheme
           (Some Sample.presentation) (NS.xcri ++ "studyMode") "xcri:studyMode"
           "http://xcri.org/profiles/catalog/1.2/studyMode/notation"
           Sample.mode new_xmlgen).
  - reflexivity.
  - intros n Hn. vm_compute in Hn.
    apply list_elem_of_singleton in Hn. subst n.
    eexists. split; [reflexivity|]. discriminate.
Defined.

(** C3 (as stated) fails: the study mode of [Sample.wrong_scheme] has a
    notation of the attendance-mode scheme and a label, and the element
    [xcri:studyMode] is written, with the label as its text. *)
Lemma controlled_vocabulary_wrong_scheme_emitted :
  objects Sample.wrong_scheme (Some Sample.mode) (NS.skos ++ "notation")
  = [ Literal (mkLiteral "FT" (Some Sample.attendanceMode_scheme) None None) ]
  /\ serialize_controlled_vocabularies Sample.wrong_scheme
       (Some Sample.presentation) new_xmlgen
     = Ok (mkXg [ StartElement "xcri:studyMode" [];
                  Characters "Full time";
                  EndElement "xcri:studyMode" ] 0 false).
Proof. split; reflexivity. Qed.

(** ** Subjects *)

(** Membership in a set grown by a pass over a list. *)
Lemma elem_of_foldr_union (f : term -> gset term) (l : list term) (s0 : gset term)
    (y : term) :
  y ∈ foldr (fun x acc => acc ∪ f x) s0 l <-> y ∈ s0 \/ exists x, x ∈ l /\ y ∈ f x.
Proof.
  induction l as [|x l IH]; simpl.
  - split; [auto|]. intros [H|(x & Hx & _)]; [exact H | inversion Hx].
  - rewrite elem_of_union, IH. split.
    + intros [[H|(x' & Hx' & Hy)]|H].
      * left; exact H.
      * right; exists x'; split; [apply list_elem_of_further; exact Hx' | exact Hy].
      * right; exists x; split; [apply list_elem_of_here | exact H].
    + intros [H|(x' & Hx' & Hy)].
      * left; left; exact H.
      * apply elem_of_cons in Hx' as [->|Hx'].
        -- right; exact Hy.
        -- left; right; exists x'; split; assumption.
Qed.

Lemma elem_of_add_broader (g : graph) (s0 : gset term) (y : term) :
  y ∈ add_broader g s0 <-> y ∈ s0 \/ exists x, x ∈ s0 /\ near g x y.
Proof.
  unfold add_broader, near. setoid_rewrite <- (elem_of_elements s0) at 2.
  induction (elements s0) as [|x l IH]; simpl.
  - split; [auto|]. intros [H|(x & Hx & _)]; [exact H | inversion Hx].
  - rewrite !elem_of_union, !elem_of_list_to_set, IH. split.
    + intros [[[H|(x' & Hx' & Hy)]|H]|H].
      * left; exact H.
      * right; exists x'; split; [apply list_elem_of_further; exact Hx' | exact Hy].
      * right; exists x; split; [apply list_elem_of_here | left; exact H].
      * right; exists x; split; [apply list_elem_of_here | right; exact H].
    + intros [H|(x' & Hx' & Hy)].
      * left; left; left; exact H.
      * apply elem_of_cons in Hx' as [->|Hx'].
        -- destruct Hy as [Hy|Hy]; [left; right; exact Hy | right; exact Hy].
        -- left; left; right; exists x'; split; assumption.
Qed.

Lemma elem_of_add_related (g : graph) (s1 : gset term) (y : term) :
  y ∈ add_related g s1
  <-> y ∈ s1 \/ exists x, x ∈ s1 /\ y ∈ objects g (Some x) (NS.skos ++ "related").
Proof.
  unfold add_related.
  rewrite (elem_of_foldr_union
             (fun x => list_to_set (objects g (Some x) (NS.skos ++ "related")))).
  setoid_rewrite elem_of_elements. setoid_rewrite elem_of_list_to_set. reflexivity.
Qed.

(** C4 (as the code has it).  The set of subjects consists of the direct
    subjects, of what is one narrower (inverse) or broader step away from a
    direct subject, and of what is one related step away from any of those:
    one pass for each, no further iteration. *)
Theorem subject_closure_two_passes (g : graph) (course : option term) (y : term) :
  y ∈ subject_closure g course
  <-> y ∈ direct_subjects g course
      \/ (exists d, d ∈ direct_subjects g course /\ near g d y)
      \/ (exists x, (x ∈ direct_subjects g course
                     \/ exists d, d ∈ direct_subjects g course /\ near g d x)
                    /\ y ∈ objects g (Some x) (NS.skos ++ "related")).
Proof.
  unfold subject_closure.
  rewrite elem_of_add_related. setoid_rewrite elem_of_add_broader.
  tauto.
Qed.

(** C4 (as stated) fails: in [Sample.chain] the third subject is linked to
    the direct subject of the course by two broader steps, and it is not
    among the subjects serialized. *)
Lemma subject_closure_not_transitive :
  Sample.subject_a ∈ direct_subjects Sample.chain (Some Sample.entity)
  /\ rtc (linked Sample.chain) Sample.subject_a Sample.subject_c
  /\ Sample.subject_c ∉ subject_closure Sample.chain (Some Sample.entity).
Proof.
  split; [|split].
  - vm_compute. reflexivity.
  - apply (rtc_l _ _ Sample.subject_b).
    + right; left. vm_compute. apply list_elem_of_here.
    + apply rtc_once. right; left. vm_compute. apply list_elem_of_here.
  - apply (bool_decide_unpack _). vm_compute. reflexivity.
Qed.

(** Writing an element makes the stream longer. *)
Lemma startElement_stream_length (name : string) (attrib : attrs) (xg : xmlgen) :
  length (stream xg) < length (stream (startElement name attrib xg)).
Proof.
  unfold startElement, write.
  destruct (negb (depth xg =? 0)%Z && negb (chars xg)); simpl;
    rewrite ?length_app; simpl; lia.
Qed.

Lemma endElement_stream_length (name : string) (xg : xmlgen) :
  length (stream xg) < length (stream (endElement name xg)).
Proof.
  unfold endElement, characters, write. simpl.
  destruct (negb (chars xg)); simpl; rewrite ?length_app; simpl; lia.
Qed.

Lemma characters_stream_length (content : string) (xg : xmlgen) :
  length (stream (characters content xg)) = S (length (stream xg)).
Proof. unfold characters, write. simpl. rewrite length_app. simpl. lia. Qed.

Lemma textualElement_changes (name : string) (attrib : attrs) (content : string)
    (xg : xmlgen) :
  textualElement name attrib content xg <> xg.
Proof.
  intros H. apply (f_equal (fun x => length (stream x))) in H.
  unfold textualElement in H.
  pose proof (startElement_stream_length name attrib xg) as H1.
  pose proof (characters_stream_length content (startElement name attrib xg)) as Hc.
  pose proof (endElement_stream_length name
                (characters content (startElement name attrib xg))) as H2.
  lia.
Qed.

Lemma dict_set_not_nil (k v : string) (d : attrs) : dict_set k v d <> [].
Proof.
  destruct d as [|[k' v'] d]; simpl; [discriminate|].
  destruct (String.eqb k k'); discriminate.
Qed.

Lemma py_bool_of_option (o : option term) : py_bool (of_option o) = truthy o.
Proof. destruct o; reflexivity. Qed.

(** What [serialize_subjects] computes for a resource: the content is the
    label, and the attributes are empty exactly when there is no notation
    and the subject does not lie under the JACS prefix. *)
Lemma subject_attrib_content_resource (g : graph) (subject : term)
    (attrib : attrs) (content : pyobj) :
  is_Literal (Some subject) = false ->
  subject_attrib_content g subject = Ok (attrib, content) ->
  content = of_option (label_loop g (Some subject) labels None)
  /\ (attrib = []
      <-> truthy (graph_value g (Some subject) (NS.skos ++ "notation")) = false
          /\ Py.startswith (term_str subject) "http://jacs.dataincubator.org/" = false).
Proof.
  intros Hres H.
  assert (Hgen : forall (a0 : result attrs) (notation : option term) (jacs : bool)
                        (lab : pyobj),
            (do attrib0 <- a0 in
             let attrib1 :=
               match notation with
               | Some n => if term_bool n then dict_set "identifier" (term_str n) attrib0
                           else attrib0
               | None => attrib0
               end in
             let attrib2 :=
               if jacs then dict_set "xsi:type" "cdp:JACS3" attrib1 else attrib1 in
             Ok (attrib2, lab)) = Ok (attrib, content) ->
            (truthy notation = false -> a0 = Ok []) ->
            content = lab /\ (attrib = [] <-> truthy notation = false /\ jacs = false)).
  { intros [a0| |] notation jacs lab Heq Hno; cbn [bind] in Heq; try discriminate Heq.
    cbv zeta in Heq. injection Heq as Ha Hc. split; [symmetry; exact Hc|].
    subst attrib. destruct jacs.
    - split; [intros E; apply dict_set_not_nil in E; destruct E
             | intros [_ E]; discriminate E].
    - destruct notation as [n|]; cbn [truthy] in *.
      + destruct (term_bool n).
        * split; [intros E; apply dict_set_not_nil in E; destruct E
                 | intros [E _]; discriminate E].
        * specialize (Hno eq_refl). injection Hno as ->. split; auto.
      + specialize (Hno eq_refl). injection Hno as ->. split; auto. }
  destruct subject as [u|b|l]; [| |discriminate Hres].
  all: apply (Hgen _ _ _ _ H); intros Hf.
  all: destruct (graph_value g _ (NS.skos ++ "notation")) as [n|]; [|reflexivity].
  all: cbn [truthy] in Hf; rewrite Hf; reflexivity.
Qed.

(** C6 (as the code has it).  A subject that is a resource is left out
    exactly when it has no notation, does not lie under the JACS prefix and
    has no label: the test is on the attribute dictionary, and a notation
    puts its [identifier] there whether or not its datatype has a compact
    name. *)
Theorem subject_element_omitted_iff (g : graph) (subject : term) (xg : xmlgen) :
  is_Literal (Some subject) = false ->
  subject_element g subject xg = Ok xg
  <-> truthy (graph_value g (Some subject) (NS.skos ++ "notation")) = false
      /\ Py.startswith (term_str subject) "http://jacs.dataincubator.org/" = false
      /\ truthy (label_loop g (Some subject) labels None) = false.
Proof.
  intros Hres. unfold subject_element. split.
  - intros H.
    destruct (subject_attrib_content g subject) as [[attrib content]| |] eqn:Hac;
      cbn [bind] in H; try discriminate H.
    destruct (subject_attrib_content_resource g subject attrib content Hres Hac)
      as [Hc Ha].
    destruct (negb (bool_decide (attrib = [])) || py_bool content) eqn:Hcond.
    + injection H as H. apply textualElement_changes in H. destruct H.
    + apply orb_false_elim in Hcond as [Hnil Hpy].
      apply negb_false_iff, bool_decide_eq_true_1 in Hnil.
      apply Ha in Hnil as [Hn Hj]. split; [exact Hn|]. split; [exact Hj|].
      rewrite Hc, py_bool_of_option in Hpy. exact Hpy.
  - intros (Hn & Hj & Hl).
    assert (Hac : subject_attrib_content g subject
                  = Ok ([], of_option (label_loop g (Some subject) labels None))).
    { unfold subject_attrib_content.
      destruct subject as [u|b|l]; [| |discriminate Hres].
      all: cbn [term_str] in *; rewrite Hj.
      all: destruct (graph_value g _ (NS.skos ++ "notation")) as [n|];
        [cbn [truthy] in Hn; rewrite Hn|]; reflexivity. }
    rewrite Hac. cbn [bind]. rewrite py_bool_of_option, Hl.
    rewrite bool_decide_eq_true_2 by reflexivity. reflexivity.
Qed.

Lemma subject_element_omitted_iff_witness :
  subject_element Sample.chain Sample.subject_c new_xmlgen = Ok new_xmlgen.
Proof.
  apply (subject_element_omitted_iff Sample.chain Sample.subject_c new_xmlgen).
  - reflexivity.
  - split; [reflexivity|]. split; reflexivity.
Defined.

(** C6 (as stated) fails: the subject of [Sample.coded_subject] has a
    notation whose datatype has no compact name, is not a JACS subject and
    has no label, and a [dc:subject] element is written for it, with the
    [identifier] attribute alone and an empty text. *)
Lemma subject_with_identifier_only_emitted :
  xsi_type (Some Sample.numbered_scheme) = Ok []
  /\ label_loop Sample.coded_subject (Some Sample.subject_a) labels None = None
  /\ Py.startswith (term_str Sample.subject_a) "http://jacs.dataincubator.org/" = false
  /\ Sample.subject_a ∈ subject_closure Sample.coded_subject (Some Sample.entity)
  /\ serialize_subjects Sample.coded_subject (Some Sample.entity) new_xmlgen
     = Ok (mkXg [ StartElement "dc:subject" [("identifier", "X100")];
                  Characters "";
                  EndElement "dc:subject" ] 0 false).
Proof.
  split; [reflexivity|]. split; [reflexivity|]. split; [reflexivity|].
  split; [apply (bool_decide_unpack _); vm_compute; reflexivity|].
  vm_compute. reflexivity.
Qed.

(** ** Termination of the walk of [serialize_location] *)

Lemma within_iter_shift (g : graph) (n : nat) (w : option term) :
  within_iter g (S n) w
  = within_iter g n (graph_value g w (NS.spatialrelations ++ "within")).
Proof.
  induction n as [|n IH]; [reflexivity|].
  change (within_iter g (S (S n)) w)
    with (graph_value g (within_iter g (S n) w) (NS.spatialrelations ++ "within")).
  rewrite IH. reflexivity.
Qed.

(** [serialize_location] runs out of fuel only in its loop. *)
Lemma serialize_location_out_of_fuel (g : graph) (fuel : nat) (entity : option term)
    (xg : xmlgen) :
  serialize_location g fuel entity xg = OutOfFuel
  <-> location_walk g fuel entity entity = OutOfFuel.
Proof.
  unfold serialize_location.
  destruct (location_walk g fuel entity entity) as [[address|]| |]; cbn [bind].
  - destruct (existsb _ address_elements); split; discriminate.
  - split; discriminate.
  - split; discriminate.
  - split; reflexivity.
Qed.

(** A chain that ends after [n] steps is walked with [n + 1] tests of the
    loop condition at most. *)
Lemma location_walk_finite_chain (g : graph) (entity : option term) (n : nat) :
  forall (w : option term) (fuel : nat),
    within_iter g n w = None -> n < fuel ->
    location_walk g fuel entity w <> OutOfFuel.
Proof.
  induction n as [|n IH]; intros w fuel Hend Hfuel.
  - destruct fuel as [|fuel]; [lia|]. simpl in Hend. subst w. simpl. discriminate.
  - destruct fuel as [|fuel]; [lia|]. rewrite within_iter_shift in Hend.
    cbn [location_walk]. destruct (truthy w); [|discriminate].
    destruct (truthy (graph_value g entity (NS.v ++ "adr"))); [discriminate|].
    apply IH; [exact Hend | lia].
Qed.

(** Along a chain that comes back to an entity it has passed, every entity
    is reached from an entity among the first ones. *)
Lemma within_iter_periodic (g : graph) (entity : option term) (i k m : nat) :
  within_iter g (i + k) entity = within_iter g i entity ->
  within_iter g (i + k + m) entity = within_iter g (i + m) entity.
Proof.
  intros Hcycle. induction m as [|m IH].
  - rewrite !Nat.add_0_r. exact Hcycle.
  - rewrite !Nat.add_succ_r. cbn [within_iter]. rewrite IH. reflexivity.
Qed.

Lemma within_iter_cycle_truthy (g : graph) (entity : option term) (i k : nat) :
  0 < k ->
  within_iter g (i + k) entity = within_iter g i entity ->
  (forall n, n < i + k -> truthy (within_iter g n entity) = true) ->
  forall n, truthy (within_iter g n entity) = true.
Proof.
  intros Hk Hcycle Hfirst n.
  induction n as [n IH] using lt_wf_ind.
  destruct (Nat.lt_ge_cases n (i + k)) as [Hlt|Hge]; [apply Hfirst; exact Hlt|].
  replace n with (i + k + (n - (i + k))) by lia.
  rewrite (within_iter_periodic g entity i k _ Hcycle).
  apply IH. lia.
Qed.

Lemma location_walk_endless (g : graph) (entity : option term) :
  truthy (graph_value g entity (NS.v ++ "adr")) = false ->
  forall (fuel : nat) (w : option term),
    (forall n, truthy (within_iter g n w) = true) ->
    location_walk g fuel entity w = OutOfFuel.
Proof.
  intros Hadr fuel. induction fuel as [|fuel IH]; intros w Hall; [reflexivity|].
  cbn [location_walk]. pose proof (Hall 0) as H0. cbn [within_iter] in H0.
  rewrite H0, Hadr.
  apply IH. intros n. rewrite <- within_iter_shift. apply Hall.
Qed.

(** C10.  [serialize_location] comes to an end (some amount of fuel is
    enough, and more does not hurt) when the chain of
    [spatialrelations:within] links from the entity ends, or when the entity
    bears an address itself.  When the entity bears no address and the chain
    of entities met by the walk comes back to one it has passed, the loop
    does not end, whatever the fuel.  The loop condition is the truth value
    of the entity reached, so the entities on the way round are taken to
    count as true, as every non-empty identifier does. *)
Theorem serialize_location_termination (g : graph) (entity : option term) (xg : xmlgen) :
  ((exists n, within_iter g n entity = None)
   \/ truthy (graph_value g entity (NS.v ++ "adr")) = true ->
   exists fuel0, forall fuel, fuel0 <= fuel ->
     serialize_location g fuel entity xg <> OutOfFuel)
  /\ (truthy (graph_value g entity (NS.v ++ "adr")) = false ->
      (exists i k, 0 < k
                   /\ within_iter g (i + k) entity = within_iter g i entity
                   /\ forall n, n < i + k -> truthy (within_iter g n entity) = true) ->
      forall fuel, serialize_location g fuel entity xg = OutOfFuel).
Proof.
  split.
  - intros [[n Hend]|Hadr].
    + exists (S n). intros fuel Hfuel. rewrite serialize_location_out_of_fuel.
      apply (location_walk_finite_chain g entity n); [exact Hend | lia].
    + exists 1. intros fuel Hfuel. rewrite serialize_location_out_of_fuel.
      destruct fuel as [|fuel]; [lia|]. cbn [location_walk].
      rewrite Hadr. destruct (truthy entity); discriminate.
  - intros Hadr (i & k & Hk & Hcycle & Hfirst) fuel.
    apply serialize_location_out_of_fuel.
    apply location_walk_endless; [exact Hadr|].
    apply (within_iter_cycle_truthy g entity i k Hk Hcycle Hfirst).
Qed.

Lemma serialize_location_termination_witness :
  (exists fuel0, forall fuel, fuel0 <= fuel ->
     serialize_location Sample.located fuel (Some Sample.building) new_xmlgen <> OutOfFuel)
  /\ (forall fuel,
        serialize_location Sample.circular fuel (Some Sample.place_a) new_xmlgen
        = OutOfFuel).
Proof.
  split.
  - apply (proj1 (serialize_location_termination
                    Sample.located (Some Sample.building) new_xmlgen)).
    left. exists 2. reflexivity.
  - apply (proj2 (serialize_location_termination
                    Sample.circular (Some Sample.place_a) new_xmlgen)).
    + reflexivity.
    + exists 0, 2. split; [lia|]. split; [reflexivity|].
      intros n Hn. destruct n as [|[|n]]; [reflexivity | reflexivity | lia].
Defined.

(** ** The writer only appends *)

Section Frame.

Variable s : list sax.

Lemma write_shift (e : sax) (xg : xmlgen) : write e (shift s xg) = shift s (write e xg).
Proof. unfold write, shift. simpl. rewrite app_assoc. reflexivity. Qed.

Lemma startElement_shift (name : string) (attrib : attrs) (xg : xmlgen) :
  startElement name attrib (shift s xg) = shift s (startElement name attrib xg).
Proof.
  unfold startElement. cbn [depth chars shift].
  destruct (negb (depth xg =? 0)%Z && negb (chars xg)).
  - fold (shift s xg). rewrite !write_shift. reflexivity.
  - fold (shift s xg). rewrite !write_shift. reflexivity.
Qed.

Lemma characters_shift (content : string) (xg : xmlgen) :
  characters content (shift s xg) = shift s (characters content xg).
Proof. unfold characters. rewrite write_shift. reflexivity. Qed.

Lemma endElement_shift (name : string) (xg : xmlgen) :
  endElement name (shift s xg) = shift s (endElement name xg).
Proof.
  unfold endElement. cbn [depth chars stream shift].
  change (mkXg (s ++ stream xg) (depth xg - 1) (chars xg))
    with (shift s (mkXg (stream xg) (depth xg - 1) (chars xg))).
  destruct (negb (chars xg)).
  - rewrite characters_shift, write_shift. reflexivity.
  - rewrite write_shift. reflexivity.
Qed.

Lemma textualElement_shift (name : string) (attrib : attrs) (content : string)
    (xg : xmlgen) :
  textualElement name attrib content (shift s xg)
  = shift s (textualElement name attrib content xg).
Proof.
  unfold textualElement.
  rewrite startElement_shift, characters_shift, endElement_shift. reflexivity.
Qed.

End Frame.

Lemma framed_skip : framed skip.
Proof. intros s xg. reflexivity. Qed.

Lemma framed_raise (e : exn) : framed (fail_with (Raise e)).
Proof. intros s xg. reflexivity. Qed.

Lemma framed_out_of_fuel : framed (fail_with OutOfFuel).
Proof. intros s xg. reflexivity. Qed.

Lemma framed_pure (f : xmlgen -> xmlgen) :
  (forall s xg, f (shift s xg) = shift s (f xg)) ->
  framed (fun xg => Ok (f xg)).
Proof. intros H s xg. cbn [bind]. rewrite H. reflexivity. Qed.

Lemma framed_seq (a b : action) :
  framed a -> framed b -> framed (fun xg => do xg' <- a xg in b xg').
Proof.
  intros Ha Hb s xg. rewrite Ha. destruct (a xg) as [xg1| |]; cbn [bind]; [|reflexivity ..].
  apply Hb.
Qed.

(** A computation that does not involve the writer, followed by an
    action. *)
Lemma framed_let {A : Type} (r : result A) (k : A -> action) :
  (forall x, framed (k x)) -> framed (fun xg => do x <- r in k x xg).
Proof.
  intros Hk s xg. destruct r as [x| |]; cbn [bind]; [apply Hk | reflexivity ..].
Qed.

Lemma framed_for_each {A : Type} (l : list A) (body : A -> action) :
  (forall x, framed (body x)) -> framed (for_each l body).
Proof.
  intros Hb. induction l as [|x l IH]; intros s xg; cbn [for_each].
  - reflexivity.
  - rewrite Hb. destruct (body x xg) as [xg1| |]; cbn [bind]; [|reflexivity ..].
    apply IH.
Qed.

Lemma fold_left_shift {A : Type} (f : xmlgen -> A -> xmlgen) (l : list A) :
  (forall s xg x, f (shift s xg) x = shift s (f xg x)) ->
  forall s xg, fold_left f l (shift s xg) = shift s (fold_left f l xg).
Proof.
  intros Hf. induction l as [|x l IH]; intros s xg; simpl; [reflexivity|].
  rewrite Hf. apply IH.
Qed.

Lemma serialize_etree_framed (xml : etree) :
  forall previous_nsmap, framed (serialize_etree xml previous_nsmap).
Proof.
  revert xml. fix IH 1.
  intros [tag prefix nsmap attrib text children|] previous_nsmap s xg;
    [|reflexivity].
  cbn [serialize_etree].
  destruct (element_tag tag prefix) as [tagname| |]; cbn [bind]; [|reflexivity ..].
  rewrite startElement_shift.
  set (xg1 := startElement tagname _ xg).
  assert (Htext : forall (t : option string) x,
             match t with
             | Some t => if Py.str_bool t then characters t (shift s x) else shift s x
             | None => shift s x
             end
             = shift s match t with
                       | Some t => if Py.str_bool t then characters t x else x
                       | None => x
                       end).
  { intros [t|] x; [|reflexivity].
    destruct (Py.str_bool t); [apply characters_shift | reflexivity]. }
  rewrite Htext.
  set (xg2 := match text with Some _ => _ | None => _ end).
  clearbody xg2. clear xg1.
  match goal with
  | |- bind (?loop children _) _ = _ =>
      assert (Hloop : forall x, loop children (shift s x)
                               = do x' <- loop children x in Ok (shift s x'))
  end.
  { induction children as [|[child tail] rest IHc]; intros x.
    - reflexivity.
    - rewrite (IH child nsmap s x).
      destruct (serialize_etree child nsmap x) as [x'| |]; cbn [bind]; [|reflexivity ..].
      rewrite Htext. apply IHc. }
  rewrite Hloop.
  match goal with
  | |- bind (bind ?r _) _ = _ => destruct r as [x3| |]
  end; cbn [bind]; [|reflexivity ..].
  rewrite endElement_shift. reflexivity.
Qed.

Section RulesFramed.

Variable ext : externals.
Variable g : graph.

Lemma textual_framed (name : string) (attrib : attrs) (content : string) :
  framed (fun xg => Ok (textualElement name attrib content xg)).
Proof. apply framed_pure. intros s xg. apply textualElement_shift. Qed.

Lemma descriptive_text_element_framed (name : string) (obj : term) (attrib : attrs) :
  framed (descriptive_text_element ext name obj attrib).
Proof.
  assert (Hfragment : forall (parsed : result etree),
             framed (fun xg =>
                       do xml <- parsed in
                       do xg' <- serialize_etree xml xmlns_nsmap
                                   (startElement name attrib xg) in
                       Ok (endElement name xg'))).
  { intros parsed. apply (framed_let parsed). intros xml s xg.
    rewrite startElement_shift, serialize_etree_framed.
    destruct (serialize_etree xml xmlns_nsmap (startElement name attrib xg));
      cbn [bind]; [|reflexivity ..].
    rewrite endElement_shift. reflexivity. }
  assert (Hother : framed (fun xg =>
             do dt <- term_datatype obj in
             if bool_decide (dt = Some (NS.xtypes ++ "Fragment-XHTML")) then
               do xml <- etree_fromstring ext (term_str obj) in
               do xg' <- serialize_etree xml xmlns_nsmap (startElement name attrib xg) in
               Ok (endElement name xg')
             else if bool_decide (dt = Some (NS.xtypes ++ "Fragment-HTML")) then
               do xml <- etree_fromstring_html ext (term_str obj) in
               do xg' <- serialize_etree xml xmlns_nsmap (startElement name attrib xg) in
               Ok (endElement name xg')
             else Ok (textualElement name attrib (term_str obj) xg))).
  { apply (framed_let (term_datatype obj)). intros dt.
    destruct (bool_decide (dt = Some (NS.xtypes ++ "Fragment-XHTML")));
      [apply Hfragment|].
    destruct (bool_decide (dt = Some (NS.xtypes ++ "Fragment-HTML")));
      [apply Hfragment|].
    apply textual_framed. }
  destruct obj as [u|b|l]; [|exact Hother ..].
  apply framed_pure. intros s xg.
  rewrite startElement_shift, endElement_shift. reflexivity.
Qed.

Lemma _find_first_framed (name : string) (ps : list string) (rich : bool)
    (entity : option term) :
  framed (_find_first ext g name ps rich entity).
Proof.
  unfold _find_first. destruct (chain_objects g entity ps) as [|obj rest].
  - apply framed_skip.
  - destruct rich; [apply descriptive_text_element_framed | apply textual_framed].
Qed.

Lemma serialize_identifiers_framed (entity : option term) :
  framed (serialize_identifiers g entity).
Proof.
  unfold serialize_identifiers. apply framed_seq.
  - apply framed_for_each. intros obj.
    apply (framed_let (term_datatype obj)). intros dt.
    apply (framed_let (xsi_type dt)). intros attrib.
    destruct attrib; [apply framed_skip | apply textual_framed].
  - apply framed_for_each. intros identifier. apply textual_framed.
Qed.

Lemma serialize_common_framed (entity : option term) :
  framed (serialize_common ext g entity).
Proof.
  unfold serialize_common.
  apply framed_seq; [apply serialize_identifiers_framed|].
  apply framed_seq; [apply _find_first_framed|].
  apply framed_seq; [apply _find_first_framed|].
  apply _find_first_framed.
Qed.

Lemma serialize_common_descriptive_elements_framed (entity : option term) :
  framed (serialize_common_descriptive_elements ext g entity).
Proof.
  unfold serialize_common_descriptive_elements.
  apply framed_for_each. intros [prop name].
  apply framed_for_each. intros obj. apply descriptive_text_element_framed.
Qed.

Lemma serialize_typed_descriptive_elements_framed (entity : option term) :
  framed (serialize_typed_descriptive_elements ext g entity).
Proof.
  unfold serialize_typed_descriptive_elements.
  apply framed_for_each. intros [prop name].
  destruct (graph_value g entity prop) as [v|]; [|apply framed_skip].
  destruct (term_bool v); [apply descriptive_text_element_framed | apply framed_skip].
Qed.

Lemma serialize_location_framed (fuel : nat) (entity : option term) :
  framed (serialize_location g fuel entity).
Proof.
  unfold serialize_location.
  apply (framed_let (location_walk g fuel entity entity)). intros [address|];
    [|apply framed_skip].
  destruct (existsb _ address_elements); [|apply framed_skip].
  apply framed_pure. intros s xg.
  rewrite startElement_shift, fold_left_shift, endElement_shift; [reflexivity|].
  intros s' xg' [prop name].
  destruct (graph_value g (Some address) prop) as [o|]; [|reflexivity].
  destruct (term_bool o); [apply textualElement_shift | reflexivity].
Qed.

Lemma controlled_vocabulary_framed (presentation : option term)
    (cv : string * string * string) :
  framed (controlled_vocabulary g presentation cv).
Proof.
  destruct cv as [[prop name] scheme]. unfold controlled_vocabulary.
  destruct (negb (truthy (graph_value g presentation prop))); [apply framed_skip|].
  apply (framed_let (find_notation _ scheme)). intros notation.
  destruct (negb _); [apply framed_skip | apply textual_framed].
Qed.

Lemma serialize_controlled_vocabularies_framed (presentation : option term) :
  framed (serialize_controlled_vocabularies g presentation).
Proof.
  unfold serialize_controlled_vocabularies.
  apply framed_for_each. intros cv. apply controlled_vocabulary_framed.
Qed.

Lemma subject_element_framed (subject : term) : framed (subject_element g subject).
Proof.
  unfold subject_element.
  apply (framed_let (subject_attrib_content g subject)). intros [attrib content].
  destruct (negb _ || _); [apply textual_framed | apply framed_skip].
Qed.

Lemma serialize_subjects_framed (course : option term) :
  framed (serialize_subjects g course).
Proof.
  unfold serialize_subjects. apply framed_for_each. intros subject.
  apply subject_element_framed.
Qed.

Lemma serialize_date_framed (entity : option term) (prop name : string) :
  framed (serialize_date ext g entity prop name).
Proof.
  unfold serialize_date. destruct (date_parts g entity prop) as [dtf content].
  destruct (negb _); [apply framed_skip|].
  match goal with
  | |- framed (fun xg => do c <- ?r in _) => apply (framed_let r)
  end.
  intros content'. apply textual_framed.
Qed.

End RulesFramed.

(** ** The two drivers *)

(** Every turn uses up one of the turns the stack can take. *)
Lemma step_turns (gen : generator) (below : list generator) (xg : xmlgen)
    (st : list generator * xmlgen) :
  step (gen :: below) xg = Ok st -> S (stack_turns (fst st)) = stack_turns (gen :: below).
Proof.
  intros Hstep. destruct gen as [final|act item rest]; cbn [step] in Hstep.
  - destruct (final xg); cbn [bind] in Hstep; try discriminate Hstep.
    injection Hstep as <-. reflexivity.
  - destruct (act xg); cbn [bind] in Hstep; try discriminate Hstep.
    injection Hstep as <-. cbn [fst].
    destruct item as [nested|]; cbn [stack_turns fold_right turns]; lia.
Qed.

(** The loop of [serialize] ends within the turns of its stack. *)
Lemma serialize_loop_total (n : nat) :
  forall stack xg, stack_turns stack <= n -> is_Some (serialize_loop n stack xg).
Proof.
  induction n as [|n IH]; intros [|gen below] xg Hn; cbn [serialize_loop]; eauto.
  - destruct gen; cbn [stack_turns fold_right turns] in Hn; lia.
  - destruct (step (gen :: below) xg) as [st| |] eqn:Hstep; eauto.
    apply IH. apply step_turns in Hstep. lia.
Qed.

(** So does the loop of [generator]. *)
Lemma generator_loop_total (n : nat) :
  forall stack xg, stack_turns stack <= n -> is_Some (generator_loop n stack xg).
Proof.
  induction n as [|n IH]; intros [|gen below] xg Hn; cbn [generator_loop]; eauto.
  - destruct gen; cbn [stack_turns fold_right turns] in Hn; lia.
  - destruct (step (gen :: below) xg) as [st| |] eqn:Hstep; eauto.
    destruct (IH (fst st) (truncate (snd st))) as [r Hr].
    + apply step_turns in Hstep. lia.
    + rewrite Hr. eauto.
Qed.

Lemma shift_truncate (xg : xmlgen) : shift (stream xg) (truncate xg) = xg.
Proof. destruct xg. unfold shift, truncate. simpl. rewrite app_nil_r. reflexivity. Qed.

Lemma string_append_nil_r (a : string) : (a ++ "")%string = a.
Proof.
  induction a as [|c a IH]; [reflexivity|].
  change (String c (a ++ "")%string = String c a). rewrite IH. reflexivity.
Qed.

Lemma string_append_assoc (a b c : string) :
  ((a ++ b) ++ c)%string = (a ++ (b ++ c))%string.
Proof.
  induction a as [|x a IH]; [reflexivity|].
  change (String x ((a ++ b) ++ c)%string = String x (a ++ (b ++ c))%string).
  rewrite IH. reflexivity.
Qed.

(** The text of a stream is the text of its parts put together. *)
Lemma join_empty_app (l1 l2 : list string) :
  Py.join "" (l1 ++ l2) = (Py.join "" l1 ++ Py.join "" l2)%string.
Proof.
  unfold Py.join. induction l1 as [|x l1 IH]; [reflexivity|].
  destruct l1 as [|y l1].
  - simpl. destruct l2; simpl; [rewrite string_append_nil_r; reflexivity | reflexivity].
  - change (((x :: y :: l1) ++ l2)%list) with (x :: ((y :: l1) ++ l2))%list.
    change (String.concat "" (x :: ((y :: l1) ++ l2)%list))
      with (x ++ "" ++ String.concat "" ((y :: l1) ++ l2)%list)%string.
    rewrite IH. simpl. rewrite string_append_assoc. reflexivity.
Qed.

Lemma render_app (a b : list sax) : render (a ++ b) = (render a ++ render b)%string.
Proof. unfold render. rewrite map_app. apply join_empty_app. Qed.

Lemma render_concat (chunks : list (list sax)) :
  render (concat chunks) = Py.join "" (map render chunks).
Proof.
  induction chunks as [|c chunks IH]; [reflexivity|].
  cbn [concat map]. rewrite render_app, IH.
  change (c :: chunks) with ([c] ++ chunks)%list.
  change (render c :: map render chunks) with ([render c] ++ map render chunks)%list.
  rewrite join_empty_app. reflexivity.
Qed.

(** Both loops come to their end within the turns the drivers give them:
    [finished] never has to give up. *)
Lemma drivers_run_to_the_end (ext : externals) (g : graph) (fuel : nat) (simple : bool)
    (catalog : option term) (xg : xmlgen) :
  let gen := _serialize ext g fuel simple catalog in
  is_Some (serialize_loop (turns gen) [gen] xg)
  /\ is_Some (generator_loop (turns gen) [gen] xg).
Proof.
  intros gen. split.
  - apply serialize_loop_total. cbn [stack_turns fold_right]. lia.
  - apply generator_loop_total. cbn [stack_turns fold_right]. lia.
Qed.

(** A run of both entry points that ends well: the document for
    [Sample.small_catalogue] is written in 37 calls to the writer, and
    yielded in 25 chunks. *)
Example small_catalogue_run :
  exists out chunks,
    serialize Sample.ext Sample.small_catalogue 2 true (Some Sample.catalogue) [] = Ok out
    /\ generator_chunks Sample.ext Sample.small_catalogue 2 true (Some Sample.catalogue)
       = Ok chunks
    /\ length out = 37
    /\ length chunks = 25.
Proof.
  eexists. eexists. split; [vm_compute; reflexivity|].
  split; [vm_compute; reflexivity|]. split; vm_compute; reflexivity.
Qed.

(** ** Nesting of what the rules write *)

Lemma nesting_app (a b : list sax) :
  forall open,
    nesting open (a ++ b)
    = match nesting open a with Some o => nesting o b | None => None end.
Proof.
  induction a as [|e a IH]; intros open; [reflexivity|].
  destruct e as [| |name attrib|name|content]; cbn [app nesting]; try apply IH.
  destruct open as [|top below]; [reflexivity|].
  destruct (String.eqb name top); [apply IH | reflexivity].
Qed.

Lemma balanced_nil : balanced [].
Proof. intros open. reflexivity. Qed.

Lemma balanced_app (a b : list sax) : balanced a -> balanced b -> balanced (a ++ b).
Proof. intros Ha Hb open. rewrite nesting_app, Ha. apply Hb. Qed.

Lemma balanced_characters (content : string) : balanced [Characters content].
Proof. intros open. reflexivity. Qed.

Lemma balanced_indentation (d : Z) (c : bool) : balanced (indentation d c).
Proof.
  unfold indentation. destruct (negb (d =? 0)%Z && negb c);
    [apply balanced_characters | apply balanced_nil].
Qed.

Lemma balanced_element (name : string) (attrib : attrs) (inner : list sax) :
  balanced inner -> balanced (StartElement name attrib :: inner ++ [EndElement name]).
Proof.
  intros Hin open. cbn [nesting]. rewrite nesting_app, Hin. cbn [nesting].
  rewrite String.eqb_refl. reflexivity.
Qed.

(** What the three calls of the writer append. *)
Lemma startElement_eq (name : string) (attrib : attrs) (xg : xmlgen) :
  startElement name attrib xg
  = mkXg (stream xg ++ indentation (depth xg) (chars xg) ++ [StartElement name attrib])
         (depth xg + 1) false.
Proof.
  unfold startElement, indentation, write.
  destruct (negb (depth xg =? 0)%Z && negb (chars xg)); cbn [stream depth chars].
  - rewrite <- app_assoc. reflexivity.
  - reflexivity.
Qed.

Lemma endElement_eq (name : string) (xg : xmlgen) :
  endElement name xg
  = mkXg (stream xg
          ++ (if chars xg then [] else [Characters (indent (depth xg - 1))])
          ++ [EndElement name])
         (depth xg - 1) false.
Proof.
  unfold endElement, characters, write. cbn [stream depth chars].
  destruct (chars xg); cbn [negb stream depth chars].
  - reflexivity.
  - rewrite <- app_assoc. reflexivity.
Qed.

Lemma textualElement_eq (name : string) (attrib : attrs) (content : string) (xg : xmlgen) :
  textualElement name attrib content xg
  = mkXg (stream xg ++ indentation (depth xg) (chars xg)
          ++ [StartElement name attrib; Characters content; EndElement name])
         (depth xg) false.
Proof.
  unfold textualElement. rewrite endElement_eq. unfold characters, write.
  rewrite startElement_eq. cbn [stream depth chars].
  rewrite <- !app_assoc. cbn [app]. f_equal. lia.
Qed.

Lemma appends_refl (xg : xmlgen) : appends xg xg [].
Proof. split; [rewrite app_nil_r|]; reflexivity. Qed.

Lemma appends_trans (x1 x2 x3 : xmlgen) (a b : list sax) :
  appends x1 x2 a -> appends x2 x3 b -> appends x1 x3 (a ++ b).
Proof.
  intros [Hs1 Hd1] [Hs2 Hd2]. split.
  - rewrite Hs2, Hs1, app_assoc. reflexivity.
  - rewrite Hd2. exact Hd1.
Qed.

Lemma emits_refl (xg : xmlgen) : emits xg xg [].
Proof. split; [apply appends_refl | auto]. Qed.

Lemma emits_trans (x1 x2 x3 : xmlgen) (a b : list sax) :
  emits x1 x2 a -> emits x2 x3 b -> emits x1 x3 (a ++ b).
Proof.
  intros [Ha Hc1] [Hb Hc2]. split; [eapply appends_trans; eassumption | auto].
Qed.

Lemma tidy_skip : tidy skip.
Proof.
  intros xg xg' H. injection H as <-. exists []. split; [apply emits_refl | apply balanced_nil].
Qed.

Lemma tidy_seq (a b : action) :
  tidy a -> tidy b -> tidy (fun xg => do xg' <- a xg in b xg').
Proof.
  intros Ha Hb xg xg' H.
  destruct (a xg) as [x1| |] eqn:H1; cbn [bind] in H; try discriminate H.
  destruct (Ha _ _ H1) as (b1 & He1 & Hb1). destruct (Hb _ _ H) as (b2 & He2 & Hb2).
  exists (b1 ++ b2)%list. split; [eapply emits_trans; eassumption | apply balanced_app; assumption].
Qed.

Lemma tidy_let {A : Type} (r : result A) (k : A -> action) :
  (forall x, tidy (k x)) -> tidy (fun xg => do x <- r in k x xg).
Proof.
  intros Hk xg xg' H. destruct r as [x| |]; cbn [bind] in H; try discriminate H.
  exact (Hk x _ _ H).
Qed.

Lemma tidy_for_each {A : Type} (l : list A) (body : A -> action) :
  (forall x, tidy (body x)) -> tidy (for_each l body).
Proof.
  intros Hb. induction l as [|x l IH]; cbn [for_each].
  - apply tidy_skip.
  - apply (tidy_seq (body x) (for_each l body)); [apply Hb | exact IH].
Qed.

Lemma textualElement_emits (name : string) (attrib : attrs) (content : string)
    (xg : xmlgen) :
  emits xg (textualElement name attrib content xg)
        (indentation (depth xg) (chars xg)
         ++ [StartElement name attrib; Characters content; EndElement name]).
Proof. rewrite textualElement_eq. split; [split; reflexivity | reflexivity]. Qed.

Lemma textual_balanced (name : string) (attrib : attrs) (content : string) (d : Z)
    (c : bool) :
  balanced (indentation d c
            ++ [StartElement name attrib; Characters content; EndElement name]).
Proof.
  apply balanced_app; [apply balanced_indentation|].
  apply (balanced_element name attrib [Characters content]), balanced_characters.
Qed.

Lemma textual_tidy (name : string) (attrib : attrs) (content : string) :
  tidy (fun xg => Ok (textualElement name attrib content xg)).
Proof.
  intros xg xg' H. injection H as <-. eexists.
  split; [apply textualElement_emits | apply textual_balanced].
Qed.

(** A re-emitted fragment is one element: it closes what it opens, and ends
    with a closing tag. *)
Lemma serialize_etree_tidy (xml : etree) :
  forall previous_nsmap xg xg',
    serialize_etree xml previous_nsmap xg = Ok xg' ->
    exists body, appends xg xg' body /\ chars xg' = false /\ balanced body.
Proof.
  revert xml. fix IH 1.
  intros [tag prefix nsmap attrib text children|] previous_nsmap xg xg' H;
    [|discriminate H].
  cbn [serialize_etree] in H.
  destruct (element_tag tag prefix) as [tagname| |]; cbn [bind] in H; try discriminate H.
  assert (Htext : forall (t : option string) x,
             exists b, appends x match t with
                                 | Some t => if Py.str_bool t then characters t x else x
                                 | None => x
                                 end b /\ balanced b).
  { intros [t|] x; [destruct (Py.str_bool t)|].
    - exists [Characters t]. split; [split; reflexivity | apply balanced_characters].
    - exists []. split; [apply appends_refl | apply balanced_nil].
    - exists []. split; [apply appends_refl | apply balanced_nil]. }
  set (xg1 := startElement tagname _ xg) in H.
  destruct (Htext text xg1) as (b2 & Ha2 & Hb2).
  set (xg2 := match text with Some _ => _ | None => _ end) in *.
  clearbody xg2.
  match type of H with
  | bind (?loop children _) _ = _ =>
      assert (Hloop : forall x x', loop children x = Ok x' ->
                                   exists b, appends x x' b /\ balanced b)
  end.
  { clear H. induction children as [|[child tail] rest IHc]; intros x x' Hl.
    - injection Hl as <-. exists []. split; [apply appends_refl | apply balanced_nil].
    - destruct (serialize_etree child nsmap x) as [x1| |] eqn:Hchild;
        cbn [bind] in Hl; try discriminate Hl.
      destruct (IH child nsmap x x1 Hchild) as (b1 & Ha1 & _ & Hb1).
      destruct (Htext tail x1) as (bt & Hat & Hbt).
      destruct (IHc _ _ Hl) as (br & Har & Hbr).
      exists (b1 ++ bt ++ br)%list. split.
      + eapply appends_trans; [exact Ha1|]. eapply appends_trans; eassumption.
      + repeat apply balanced_app; assumption. }
  match type of H with
  | bind ?r _ = _ => destruct r as [xg3| |] eqn:Hrun
  end; cbn [bind] in H; try discriminate H.
  destruct (Hloop _ _ Hrun) as (b3 & Ha3 & Hb3).
  injection H as <-. rewrite endElement_eq.
  destruct Ha2 as [Hs2 Hd2]. destruct Ha3 as [Hs3 Hd3].
  subst xg1. rewrite startElement_eq in Hs2, Hd2. cbn [stream depth] in Hs2, Hd2.
  exists (indentation (depth xg) (chars xg)
          ++ StartElement tagname (ns_declarations nsmap previous_nsmap attrib)
             :: (b2 ++ b3 ++ (if chars xg3 then [] else [Characters (indent (depth xg3 - 1))]))
             ++ [EndElement tagname])%list.
  split; [split|split].
  - cbn [stream]. rewrite Hs3, Hs2. rewrite <- ?app_assoc. cbn [app].
    rewrite <- ?app_assoc. reflexivity.
  - cbn [depth]. rewrite Hd3, Hd2. lia.
  - reflexivity.
  - apply balanced_app; [apply balanced_indentation|].
    apply balanced_element. repeat apply balanced_app; try assumption.
    destruct (chars xg3); [apply balanced_nil | apply balanced_characters].
Qed.

(** An element around what a tidy action writes is tidy. *)
Lemma element_tidy (name : string) (attrib : attrs) (a : action) :
  tidy a ->
  tidy (fun xg => do xg' <- a (startElement name attrib xg) in Ok (endElement name xg')).
Proof.
  intros Ha xg xg' H.
  destruct (a (startElement name attrib xg)) as [x2| |] eqn:Hrun; cbn [bind] in H;
    try discriminate H.
  injection H as <-.
  destruct (Ha _ _ Hrun) as (b & [[Hs Hd] Hc] & Hb).
  rewrite startElement_eq in Hs, Hd, Hc. cbn [stream depth chars] in Hs, Hd, Hc.
  rewrite endElement_eq, (Hc eq_refl).
  exists (indentation (depth xg) (chars xg)
          ++ StartElement name attrib
             :: (b ++ [Characters (indent (depth x2 - 1))]) ++ [EndElement name])%list.
  split; [split; [split|]|].
  - cbn [stream]. rewrite Hs. rewrite <- ?app_assoc. cbn [app].
    rewrite <- ?app_assoc. reflexivity.
  - cbn [depth]. rewrite Hd. lia.
  - reflexivity.
  - apply balanced_app; [apply balanced_indentation|].
    apply balanced_element, balanced_app; [exact Hb | apply balanced_characters].
Qed.

Lemma serialize_etree_is_tidy (xml : etree) (previous_nsmap : list (option string * string)) :
  tidy (serialize_etree xml previous_nsmap).
Proof.
  intros xg xg' H. destruct (serialize_etree_tidy _ _ _ _ H) as (b & Ha & Hc & Hb).
  exists b. split; [split; [exact Ha | intros _; exact Hc] | exact Hb].
Qed.

Lemma fold_left_tidy {A : Type} (f : xmlgen -> A -> xmlgen) (l : list A) :
  (forall x, tidy (fun xg => Ok (f xg x))) ->
  tidy (fun xg => Ok (fold_left f l xg)).
Proof.
  intros Hf. induction l as [|x l IH]; cbn [fold_left].
  - apply tidy_skip.
  - apply (tidy_seq (fun xg => Ok (f xg x)) (fun xg => Ok (fold_left f l xg)));
      [apply Hf | exact IH].
Qed.

Section RulesTidy.

Variable ext : externals.
Variable g : graph.

Lemma descriptive_text_element_tidy (name : string) (obj : term) (attrib : attrs) :
  tidy (descriptive_text_element ext name obj attrib).
Proof.
  assert (Hfragment : forall (parsed : result etree),
             tidy (fun xg =>
                     do xml <- parsed in
                     do xg' <- serialize_etree xml xmlns_nsmap
                                 (startElement name attrib xg) in
                     Ok (endElement name xg'))).
  { intros parsed. apply (tidy_let parsed). intros xml.
    apply (element_tidy name attrib (serialize_etree xml xmlns_nsmap)).
    apply serialize_etree_is_tidy. }
  assert (Hother : tidy (fun xg =>
             do dt <- term_datatype obj in
             if bool_decide (dt = Some (NS.xtypes ++ "Fragment-XHTML")) then
               do xml <- etree_fromstring ext (term_str obj) in
               do xg' <- serialize_etree xml xmlns_nsmap (startElement name attrib xg) in
               Ok (endElement name xg')
             else if bool_decide (dt = Some (NS.xtypes ++ "Fragment-HTML")) then
               do xml <- etree_fromstring_html ext (term_str obj) in
               do xg' <- serialize_etree xml xmlns_nsmap (startElement name attrib xg) in
               Ok (endElement name xg')
             else Ok (textualElement name attrib (term_str obj) xg))).
  { apply (tidy_let (term_datatype obj)). intros dt.
    destruct (bool_decide (dt = Some (NS.xtypes ++ "Fragment-XHTML")));
      [apply Hfragment|].
    destruct (bool_decide (dt = Some (NS.xtypes ++ "Fragment-HTML")));
      [apply Hfragment|].
    apply textual_tidy. }
  destruct obj as [u|b|l]; [|exact Hother ..].
  apply (element_tidy name [("href", u)] skip), tidy_skip.
Qed.

Lemma _find_first_tidy (name : string) (ps : list string) (rich : bool)
    (entity : option term) :
  tidy (_find_first ext g name ps rich entity).
Proof.
  unfold _find_first. destruct (chain_objects g entity ps) as [|obj rest].
  - apply tidy_skip.
  - destruct rich; [apply descriptive_text_element_tidy | apply textual_tidy].
Qed.

Lemma serialize_identifiers_tidy (entity : option term) :
  tidy (serialize_identifiers g entity).
Proof.
  unfold serialize_identifiers. apply tidy_seq.
  - apply tidy_for_each. intros obj.
    apply (tidy_let (term_datatype obj)). intros dt.
    apply (tidy_let (xsi_type dt)). intros attrib.
    destruct attrib; [apply tidy_skip | apply textual_tidy].
  - apply tidy_for_each. intros identifier. apply textual_tidy.
Qed.

Lemma serialize_common_tidy (entity : option term) :
  tidy (serialize_common ext g entity).
Proof.
  unfold serialize_common.
  apply tidy_seq; [apply serialize_identifiers_tidy|].
  apply tidy_seq; [apply _find_first_tidy|].
  apply tidy_seq; [apply _find_first_tidy|].
  apply _find_first_tidy.
Qed.

Lemma serialize_location_tidy (fuel : nat) (entity : option term) :
  tidy (serialize_location g fuel entity).
Proof.
  unfold serialize_location.
  apply (tidy_let (location_walk g fuel entity entity)). intros [address|];
    [|apply tidy_skip].
  destruct (existsb _ address_elements); [|apply tidy_skip].
  match goal with
  | |- tidy (fun xg => Ok (endElement ?n (fold_left ?f ?l (startElement ?n ?a xg)))) =>
      apply (element_tidy n a (fun x => Ok (fold_left f l x)))
  end.
  apply fold_left_tidy. intros [prop name].
  destruct (graph_value g (Some address) prop) as [o|]; [|apply tidy_skip].
  destruct (term_bool o); [apply textual_tidy | apply tidy_skip].
Qed.

End RulesTidy.

(** ** Venues *)

(** C9.  What [venue_element] writes, when run to its end, is one
    [xcri:venue] element whose only child element is an [xcri:provider]
    element; what [serialize_common] and [serialize_location] write for the
    venue (identifiers, title, url, description, location) lies between the
    opening and the closing tag of that provider, and closes every element
    it opens. *)
Theorem venue_element_nests_provider
    (ext : externals) (g : graph) (fuel : nat) (venue : term) (xg xg' : xmlgen) :
  finished (serialize_loop (turns (venue_element ext g fuel venue))
                           [venue_element ext g fuel venue] xg) = Ok xg' ->
  exists (x1 x2 : xmlgen) (common location : list sax),
    serialize_common ext g (Some venue)
      (startElement "xcri:provider" [] (startElement "xcri:venue" [] xg)) = Ok x1
    /\ appends (startElement "xcri:provider" [] (startElement "xcri:venue" [] xg)) x1 common
    /\ serialize_location g fuel (Some venue) x1 = Ok x2
    /\ appends x1 x2 location
    /\ balanced common
    /\ balanced location
    /\ stream xg'
       = (stream xg ++ venue_events (depth xg) (chars xg) (common ++ location))%list.
Proof.
  cbn [venue_element turns Nat.add serialize_loop step finished].
  set (xg0 := startElement "xcri:provider" [] (startElement "xcri:venue" [] xg)).
  intros H.
  destruct (serialize_common ext g (Some venue) xg0) as [x1| |] eqn:Hcommon;
    cbn [bind fst snd serialize_loop step finished] in H; try discriminate H.
  destruct (serialize_location g fuel (Some venue) x1) as [x2| |] eqn:Hlocation;
    cbn [bind fst snd serialize_loop step finished] in H; try discriminate H.
  injection H as <-.
  destruct (serialize_common_tidy ext g _ _ _ Hcommon) as (common & [Hac Hcc] & Hbc).
  destruct (serialize_location_tidy g _ _ _ _ Hlocation) as (location & [Hal Hcl] & Hbl).
  exists x1, x2, common, location.
  split; [reflexivity|]. repeat (split; [assumption|]).
  assert (Hc0 : chars xg0 = false) by (subst xg0; rewrite startElement_eq; reflexivity).
  assert (Hd0 : depth xg0 = (depth xg + 1 + 1)%Z)
    by (subst xg0; rewrite !startElement_eq; reflexivity).
  assert (Hs0 : stream xg0
                = (stream xg ++ indentation (depth xg) (chars xg)
                   ++ [StartElement "xcri:venue" []]
                   ++ indentation (depth xg + 1) false
                   ++ [StartElement "xcri:provider" []])%list).
  { subst xg0. rewrite !startElement_eq. cbn [stream depth chars].
    rewrite <- ?app_assoc. reflexivity. }
  destruct Hac as [Hs1 Hd1]. destruct Hal as [Hs2 Hd2].
  rewrite !endElement_eq. cbn [stream depth chars].
  rewrite (Hcl (Hcc Hc0)), Hs2, Hs1, Hs0, Hd2, Hd1, Hd0.
  unfold venue_events. rewrite <- ?app_assoc. cbn [app].
  replace (depth xg + 1 + 1 - 1)%Z with (depth xg + 1)%Z by lia.
  replace (depth xg + 1 - 1)%Z with (depth xg) by lia.
  reflexivity.
Qed.

Lemma venue_element_nests_provider_witness :
  exists xg',
    finished (serialize_loop (turns (venue_element Sample.ext Sample.located 1 Sample.campus))
                [venue_element Sample.ext Sample.located 1 Sample.campus] new_xmlgen)
    = Ok xg'
    /\ exists (x1 x2 : xmlgen) (common location : list sax),
         serialize_common Sample.ext Sample.located (Some Sample.campus)
           (startElement "xcri:provider" [] (startElement "xcri:venue" [] new_xmlgen))
         = Ok x1
         /\ appends (startElement "xcri:provider" []
                       (startElement "xcri:venue" [] new_xmlgen)) x1 common
         /\ serialize_location Sample.located 1 (Some Sample.campus) x1 = Ok x2
         /\ appends x1 x2 location
         /\ balanced common
         /\ balanced location
         /\ stream xg' = ([] ++ venue_events 0 false (common ++ location))%list.
Proof.
  eexists. split.
  - vm_compute. reflexivity.
  - apply (venue_element_nests_provider Sample.ext Sample.located 1 Sample.campus
             new_xmlgen).
    vm_compute. reflexivity.
Defined.

(** ** The blocking and the incremental entry point *)

(** *** The traced rules only append *)

Lemma traced_framed_skip : Traced.framed Traced.skip.
Proof. intros s xg. reflexivity. Qed.

Lemma traced_framed_wrote (f : xmlgen -> xmlgen) :
  (forall s xg, f (shift s xg) = shift s (f xg)) -> Traced.framed (Traced.wrote f).
Proof. intros H s xg. unfold Traced.wrote. rewrite H. reflexivity. Qed.

Lemma traced_framed_andthen (a b : Traced.action) :
  Traced.framed a -> Traced.framed b -> Traced.framed (Traced.andthen a b).
Proof.
  intros Ha Hb s xg. unfold Traced.andthen. rewrite Ha.
  destruct (a xg) as [x1 [|e|]]; cbn [fst snd]; [apply Hb | reflexivity ..].
Qed.

Lemma traced_framed_given {A : Type} (r : result A) (k : A -> Traced.action) :
  (forall x, Traced.framed (k x)) -> Traced.framed (Traced.given r k).
Proof.
  intros Hk s xg. unfold Traced.given. destruct r as [x| |]; [apply Hk | reflexivity ..].
Qed.

Lemma traced_framed_all_or_nothing (rule : action) :
  framed rule -> Traced.framed (Traced.all_or_nothing rule).
Proof.
  intros H s xg. unfold Traced.all_or_nothing. rewrite H.
  destruct (rule xg) as [x| |]; reflexivity.
Qed.

Lemma traced_framed_for_each {A : Type} (l : list A) (body : A -> Traced.action) :
  (forall x, Traced.framed (body x)) -> Traced.framed (Traced.for_each l body).
Proof.
  intros Hb. induction l as [|x l IH]; cbn [Traced.for_each].
  - apply traced_framed_skip.
  - apply traced_framed_andthen; [apply Hb | exact IH].
Qed.

Lemma characters_if_shift (t : option string) (s : list sax) (xg : xmlgen) :
  Traced.characters_if t (shift s xg) = shift s (Traced.characters_if t xg).
Proof.
  destruct t as [t|]; [|reflexivity]. cbn [Traced.characters_if].
  destruct (Py.str_bool t); [apply characters_shift | reflexivity].
Qed.

Lemma traced_serialize_etree_framed (xml : etree) :
  forall previous_nsmap, Traced.framed (Traced.serialize_etree xml previous_nsmap).
Proof.
  revert xml. fix IH 1.
  intros [tag prefix nsmap attrib text children|] previous_nsmap s xg;
    [|reflexivity].
  cbn [Traced.serialize_etree].
  destruct (element_tag tag prefix) as [tagname| |]; [|reflexivity ..].
  cbv zeta. rewrite startElement_shift, characters_if_shift.
  set (xg2 := Traced.characters_if text _). clearbody xg2.
  match goal with
  | |- match ?loop children _ with _ => _ end = _ =>
      assert (Hloop : forall x, loop children (shift s x)
                               = (shift s (fst (loop children x)), snd (loop children x)))
  end.
  { induction children as [|[child tail] rest IHc]; intros x.
    - reflexivity.
    - rewrite (IH child nsmap s x).
      destruct (Traced.serialize_etree child nsmap x) as [x' [|e|]]; cbn [fst snd];
        [|reflexivity ..].
      rewrite characters_if_shift. apply IHc. }
  rewrite Hloop.
  match goal with
  | |- context [fst ?r] => destruct r as [x3 [|e|]]
  end; cbn [fst snd]; [|reflexivity ..].
  rewrite endElement_shift. reflexivity.
Qed.

Section TracedRulesFramed.

Variable ext : externals.
Variable g : graph.

Lemma traced_textual_framed (name : string) (attrib : attrs) (content : string) :
  Traced.framed (Traced.wrote (textualElement name attrib content)).
Proof. apply traced_framed_wrote. intros s xg. apply textualElement_shift. Qed.

Lemma traced_descriptive_text_element_framed (name : string) (obj : term) (attrib : attrs) :
  Traced.framed (Traced.descriptive_text_element ext name obj attrib).
Proof.
  assert (Hfragment : forall (parsed : result etree),
             Traced.framed
               (Traced.given parsed (fun xml =>
                  Traced.andthen (Traced.wrote (startElement name attrib))
                    (Traced.andthen (Traced.serialize_etree xml xmlns_nsmap)
                       (Traced.wrote (endElement name)))))).
  { intros parsed. apply traced_framed_given. intros xml.
    apply traced_framed_andthen;
      [apply traced_framed_wrote; intros; apply startElement_shift|].
    apply traced_framed_andthen; [apply traced_serialize_etree_framed|].
    apply traced_framed_wrote; intros; apply endElement_shift. }
  assert (Hother : Traced.framed
             (Traced.given (term_datatype obj) (fun dt =>
                if bool_decide (dt = Some (NS.xtypes ++ "Fragment-XHTML")) then
                  Traced.given (etree_fromstring ext (term_str obj)) (fun xml =>
                    Traced.andthen (Traced.wrote (startElement name attrib))
                      (Traced.andthen (Traced.serialize_etree xml xmlns_nsmap)
                         (Traced.wrote (endElement name))))
                else if bool_decide (dt = Some (NS.xtypes ++ "Fragment-HTML")) then
                  Traced.given (etree_fromstring_html ext (term_str obj)) (fun xml =>
                    Traced.andthen (Traced.wrote (startElement name attrib))
                      (Traced.andthen (Traced.serialize_etree xml xmlns_nsmap)
                         (Traced.wrote (endElement name))))
                else Traced.wrote (textualElement name attrib (term_str obj))))).
  { apply traced_framed_given. intros dt.
    destruct (bool_decide (dt = Some (NS.xtypes ++ "Fragment-XHTML")));
      [apply Hfragment|].
    destruct (bool_decide (dt = Some (NS.xtypes ++ "Fragment-HTML")));
      [apply Hfragment|].
    apply traced_textual_framed. }
  destruct obj as [u|b|l]; [|exact Hother ..].
  apply traced_framed_wrote. intros s xg.
  rewrite startElement_shift, endElement_shift. reflexivity.
Qed.

Lemma traced_find_first_framed (name : string) (ps : list string) (rich : bool)
    (entity : option term) :
  Traced.framed (Traced._find_first ext g name ps rich entity).
Proof.
  unfold Traced._find_first. destruct (chain_objects g entity ps) as [|obj rest].
  - apply traced_framed_skip.
  - destruct rich;
      [apply traced_descriptive_text_element_framed | apply traced_textual_framed].
Qed.

Lemma traced_serialize_identifiers_framed (entity : option term) :
  Traced.framed (Traced.serialize_identifiers g entity).
Proof.
  unfold Traced.serialize_identifiers. apply traced_framed_andthen.
  - apply traced_framed_for_each. intros obj.
    apply traced_framed_given. intros dt. apply traced_framed_given. intros attrib.
    destruct attrib; [apply traced_framed_skip | apply traced_textual_framed].
  - apply traced_framed_for_each. intros identifier. apply traced_textual_framed.
Qed.

Lemma traced_serialize_common_framed (entity : option term) :
  Traced.framed (Traced.serialize_common ext g entity).
Proof.
  unfold Traced.serialize_common.
  apply traced_framed_andthen; [apply traced_serialize_identifiers_framed|].
  apply traced_framed_andthen; [apply traced_find_first_framed|].
  apply traced_framed_andthen; apply traced_find_first_framed.
Qed.

Lemma traced_serialize_common_descriptive_elements_framed (entity : option term) :
  Traced.framed (Traced.serialize_common_descriptive_elements ext g entity).
Proof.
  unfold Traced.serialize_common_descriptive_elements.
  apply traced_framed_for_each. intros [prop name].
  apply traced_framed_for_each. intros obj. apply traced_descriptive_text_element_framed.
Qed.

Lemma traced_serialize_typed_descriptive_elements_framed (entity : option term) :
  Traced.framed (Traced.serialize_typed_descriptive_elements ext g entity).
Proof.
  unfold Traced.serialize_typed_descriptive_elements.
  apply traced_framed_for_each. intros [prop name].
  destruct (graph_value g entity prop) as [v|]; [|apply traced_framed_skip].
  destruct (term_bool v);
    [apply traced_descriptive_text_element_framed | apply traced_framed_skip].
Qed.

Lemma traced_serialize_location_framed (fuel : nat) (entity : option term) :
  Traced.framed (Traced.serialize_location g fuel entity).
Proof. apply traced_framed_all_or_nothing, serialize_location_framed. Qed.

Lemma traced_serialize_controlled_vocabularies_framed (presentation : option term) :
  Traced.framed (Traced.serialize_controlled_vocabularies g presentation).
Proof.
  unfold Traced.serialize_controlled_vocabularies.
  apply traced_framed_for_each. intros cv.
  apply traced_framed_all_or_nothing, controlled_vocabulary_framed.
Qed.

Lemma traced_serialize_subjects_framed (course : option term) :
  Traced.framed (Traced.serialize_subjects g course).
Proof.
  unfold Traced.serialize_subjects. apply traced_framed_for_each. intros subject.
  apply traced_framed_all_or_nothing, subject_element_framed.
Qed.

Lemma traced_serialize_date_framed (entity : option term) (prop name : string) :
  Traced.framed (Traced.serialize_date ext g entity prop name).
Proof. apply traced_framed_all_or_nothing, serialize_date_framed. Qed.

End TracedRulesFramed.

(** *** The generators are made of such actions *)

Lemma traced_prepend_framed (a : Traced.action) (gen : Traced.generator) :
  Traced.framed a -> Traced.gen_framed gen -> Traced.gen_framed (Traced.prepend a gen).
Proof.
  intros Ha Hg.
  destruct gen as [final|act item rest]; cbn [Traced.prepend Traced.gen_framed] in *.
  - apply traced_framed_andthen; assumption.
  - destruct Hg as (Hact & Hitem & Hrest). split; [|split; assumption].
    apply traced_framed_andthen; assumption.
Qed.

Lemma traced_yield_each_framed {A : Type} (l : list A) (f : A -> Traced.generator)
    (rest : Traced.generator) :
  (forall x, Traced.gen_framed (f x)) -> Traced.gen_framed rest ->
  Traced.gen_framed (Traced.yield_each l f rest).
Proof.
  intros Hf Hrest.
  induction l as [|x l IH]; cbn [Traced.yield_each fold_right Traced.gen_framed].
  - exact Hrest.
  - split; [apply traced_framed_skip|]. split; [apply Hf | exact IH].
Qed.

Section TracedProducersFramed.

Variable ext : externals.
Variable g : graph.
Variable fuel : nat.

Lemma traced_start_framed (name : string) (attrib : attrs) :
  Traced.framed (Traced.wrote (startElement name attrib)).
Proof. apply traced_framed_wrote. intros. apply startElement_shift. Qed.

Lemma traced_end_framed (name : string) :
  Traced.framed (Traced.wrote (endElement name)).
Proof. apply traced_framed_wrote. intros. apply endElement_shift. Qed.

Lemma traced_venue_element_framed (venue : term) :
  Traced.gen_framed (Traced.venue_element ext g fuel venue).
Proof.
  cbn [Traced.venue_element Traced.gen_framed]. split; [|split; [exact I|]].
  - apply traced_framed_andthen; [apply traced_start_framed|].
    apply traced_framed_andthen; [apply traced_start_framed|].
    apply traced_serialize_common_framed.
  - split; [apply traced_serialize_location_framed|]. split; [exact I|].
    apply traced_framed_andthen; apply traced_end_framed.
Qed.

Lemma traced_presentation_content_framed (presentation : term) :
  Traced.gen_framed (Traced.presentation_content ext g fuel presentation).
Proof.
  unfold Traced.presentation_content. apply traced_prepend_framed.
  - do 8 (apply traced_framed_andthen;
            [first [ apply traced_serialize_common_framed
                   | apply traced_serialize_common_descriptive_elements_framed
                   | apply traced_serialize_date_framed
                   | apply traced_find_first_framed ] |]).
    apply traced_serialize_controlled_vocabularies_framed.
  - apply traced_yield_each_framed;
      [apply traced_venue_element_framed | apply traced_framed_skip].
Qed.

Lemma traced_presentation_element_framed (presentation : term) :
  Traced.gen_framed (Traced.presentation_element ext g fuel presentation).
Proof.
  cbn [Traced.presentation_element Traced.gen_framed].
  split; [apply traced_start_framed|].
  split; [apply traced_presentation_content_framed | apply traced_end_framed].
Qed.

Lemma traced_course_content_framed (course : term) :
  Traced.gen_framed (Traced.course_content ext g fuel course).
Proof.
  cbn [Traced.course_content Traced.gen_framed].
  split; [apply traced_serialize_common_framed|]. split; [exact I|].
  split; [apply traced_serialize_common_descriptive_elements_framed|]. split; [exact I|].
  split; [apply traced_serialize_typed_descriptive_elements_framed|]. split; [exact I|].
  split; [apply traced_serialize_subjects_framed|]. split; [exact I|].
  apply traced_yield_each_framed;
    [apply traced_presentation_element_framed | apply traced_framed_skip].
Qed.

Lemma traced_course_element_framed (course : term) :
  Traced.gen_framed (Traced.course_element ext g fuel course).
Proof.
  cbn [Traced.course_element Traced.gen_framed].
  split; [apply traced_start_framed|].
  split; [apply traced_course_content_framed | apply traced_end_framed].
Qed.

Lemma traced_provider_content_framed (provider : option term) (courses : list term) :
  Traced.gen_framed (Traced.provider_content ext g fuel provider courses).
Proof.
  unfold Traced.provider_content.
  assert (Htail : Traced.gen_framed
                    (Traced.yield_each courses (Traced.course_element ext g fuel)
                       (Traced.Stop Traced.skip)))
    by (apply traced_yield_each_framed;
        [apply traced_course_element_framed | apply traced_framed_skip]).
  destruct (truthy provider); [|exact Htail].
  cbn [Traced.gen_framed].
  split; [apply traced_serialize_common_framed|]. split; [exact I|].
  split; [apply traced_serialize_location_framed|]. split; [exact I | exact Htail].
Qed.

Lemma traced_provider_element_framed (provider : option term) (courses : list term) :
  Traced.gen_framed (Traced.provider_element ext g fuel provider courses).
Proof.
  cbn [Traced.provider_element Traced.gen_framed].
  split; [apply traced_start_framed|].
  split; [apply traced_provider_content_framed | apply traced_end_framed].
Qed.

Lemma traced_catalog_content_framed (simple : bool) (catalog : option term) :
  Traced.gen_framed (Traced.catalog_content ext g fuel simple catalog).
Proof.
  unfold Traced.catalog_content. cbn [Traced.gen_framed].
  split; [apply traced_serialize_common_framed|]. split; [exact I|].
  destruct (collect_courses g fuel {[catalog]} []) as [provider_courses|e|].
  - destruct simple.
    + cbn [Traced.gen_framed]. split; [apply traced_framed_skip|].
      split; [apply traced_provider_element_framed | apply traced_framed_skip].
    + apply traced_yield_each_framed; [intros pc; apply traced_provider_element_framed|].
      apply traced_framed_skip.
  - intros s xg. reflexivity.
  - intros s xg. reflexivity.
Qed.

Lemma traced_serialize_framed (simple : bool) (catalog : option term) :
  Traced.gen_framed (Traced._serialize ext g fuel simple catalog).
Proof.
  cbn [Traced._serialize Traced.catalog_element Traced.gen_framed].
  split; [apply traced_framed_wrote; intros; apply write_shift|].
  split; [|apply traced_framed_wrote; intros; apply write_shift].
  split; [apply traced_start_framed|].
  split; [apply traced_catalog_content_framed | apply traced_end_framed].
Qed.

End TracedProducersFramed.

(** *** The two loops *)

(** Which generators are on the stack after a turn does not depend on the
    writer. *)
Lemma traced_step_frame (stack : list Traced.generator) (s : list sax) (xg : xmlgen) :
  Forall Traced.gen_framed stack ->
  Traced.step stack (shift s xg)
  = (fst (Traced.step stack xg),
     (shift s (fst (snd (Traced.step stack xg))), snd (snd (Traced.step stack xg)))).
Proof.
  intros Hstack. destruct stack as [|[final|act item rest] below]; cbn [Traced.step fst snd].
  - reflexivity.
  - apply Forall_cons_1 in Hstack as [Hf _]. cbn [Traced.gen_framed] in Hf.
    rewrite Hf. reflexivity.
  - apply Forall_cons_1 in Hstack as [(Hact & _) _]. rewrite Hact. reflexivity.
Qed.

Lemma traced_step_keeps_framed (stack : list Traced.generator) (xg : xmlgen) :
  Forall Traced.gen_framed stack -> Forall Traced.gen_framed (fst (Traced.step stack xg)).
Proof.
  intros Hstack. destruct stack as [|[final|act item rest] below]; cbn [Traced.step fst].
  - exact Hstack.
  - apply Forall_cons_1 in Hstack as [_ Hbelow]. exact Hbelow.
  - apply Forall_cons_1 in Hstack as [(_ & Hitem & Hrest) Hbelow].
    destruct item as [nested|]; repeat apply Forall_cons_2; assumption.
Qed.

(** Every turn uses up one of the turns the stack can take. *)
Lemma traced_step_turns (gen : Traced.generator) (below : list Traced.generator)
    (xg : xmlgen) :
  S (Traced.stack_turns (fst (Traced.step (gen :: below) xg)))
  = Traced.stack_turns (gen :: below).
Proof.
  destruct gen as [final|act item rest]; cbn [Traced.step fst].
  - reflexivity.
  - destruct item as [nested|]; cbn [Traced.stack_turns fold_right Traced.turns]; lia.
Qed.

(** Both loops are left within the turns of their stack. *)
Lemma traced_serialize_loop_total (n : nat) :
  forall stack xg,
    Traced.stack_turns stack <= n -> is_Some (Traced.serialize_loop n stack xg).
Proof.
  induction n as [|n IH]; intros [|gen below] xg Hn; cbn [Traced.serialize_loop]; eauto.
  - destruct gen; cbn [Traced.stack_turns fold_right Traced.turns] in Hn; lia.
  - pose proof (traced_step_turns gen below xg) as Hturns.
    destruct (Traced.step (gen :: below) xg) as [stack' [xg' [|e|]]]; eauto.
    apply IH. cbn [fst] in Hturns. lia.
Qed.

Lemma traced_generator_loop_total (n : nat) :
  forall stack xg,
    Traced.stack_turns stack <= n -> is_Some (Traced.generator_loop n stack xg).
Proof.
  induction n as [|n IH]; intros [|gen below] xg Hn; cbn [Traced.generator_loop]; eauto.
  - destruct gen; cbn [Traced.stack_turns fold_right Traced.turns] in Hn; lia.
  - pose proof (traced_step_turns gen below xg) as Hturns.
    destruct (Traced.step (gen :: below) xg) as [stack' [xg' [|e|]]]; eauto.
    destruct (IH stack' (truncate xg')) as [y Hy]; [cbn [fst] in Hturns; lia|].
    rewrite Hy. eauto.
Qed.

Lemma traced_serialize_loop_frame (n : nat) :
  forall stack s xg,
    Forall Traced.gen_framed stack ->
    Traced.serialize_loop n stack (shift s xg)
    = match Traced.serialize_loop n stack xg with
      | Some (xg', e) => Some (shift s xg', e)
      | None => None
      end.
Proof.
  induction n as [|n IH]; intros [|gen below] s xg Hstack; cbn [Traced.serialize_loop];
    try reflexivity.
  rewrite (traced_step_frame _ _ _ Hstack).
  pose proof (traced_step_keeps_framed _ xg Hstack) as Hkeeps.
  destruct (Traced.step (gen :: below) xg) as [stack' [xg' [|e|]]]; cbn [fst snd] in *;
    try reflexivity.
  apply IH. exact Hkeeps.
Qed.

(** The two loops end the same way; what the blocking loop has added to the
    stream is the chunks yielded, followed by what the failing turn had
    written. *)
Lemma traced_loops_agree (n : nat) :
  forall stack xg,
    Forall Traced.gen_framed stack ->
    loops_agree (Traced.serialize_loop n stack xg) (Traced.generator_loop n stack xg).
Proof.
  unfold loops_agree.
  induction n as [|n IH]; intros [|gen below] xg Hstack;
    cbn [Traced.serialize_loop Traced.generator_loop Traced.chunks Traced.unyielded
         Traced.ended concat].
  - rewrite !app_nil_r. auto.
  - exact I.
  - rewrite !app_nil_r. auto.
  - pose proof (traced_step_keeps_framed _ xg Hstack) as Hkeeps.
    destruct (Traced.step (gen :: below) xg) as [stack' [xg' [|e|]]]; cbn [fst snd] in *.
    + pose proof (traced_serialize_loop_frame n stack' (stream xg') (truncate xg') Hkeeps)
        as Hframe.
      rewrite shift_truncate in Hframe. rewrite Hframe. clear Hframe.
      specialize (IH stack' (truncate xg') Hkeeps).
      destruct (Traced.serialize_loop n stack' (truncate xg')) as [[x e]|];
        destruct (Traced.generator_loop n stack' (truncate xg')) as [y|];
        try exact IH; try contradiction.
      destruct IH as (He & Hs & Hr).
      cbn [Traced.chunks Traced.unyielded Traced.ended shift stream concat].
      split; [exact He|]. split; [|exact Hr].
      rewrite Hs, <- app_assoc. reflexivity.
    + cbn [Traced.chunks Traced.unyielded Traced.ended concat app].
      split; [reflexivity|]. split; [reflexivity | discriminate].
    + cbn [Traced.chunks Traced.unyielded Traced.ended concat app].
      split; [reflexivity|]. split; [reflexivity | discriminate].
Qed.

(** C5 (as the code has it).  For the same graph, catalogue root, mode and
    clock, the blocking and the incremental entry point end the same way,
    and what [serialize] has added to the sink is the chunks [generator]
    has yielded, followed by what the step that raised had written before
    the exception: that part is in the buffer of [generator] when the
    exception leaves it and is never yielded.  When the run ends well there
    is no such part: the chunks put together are what [serialize] has
    written, call for call and character for character. *)
Theorem generator_chunks_agree_until_a_step_fails
    (ext : externals) (g : graph) (fuel : nat) (simple : bool) (catalog : option term)
    (sink : list sax) :
  same_output sink (Traced.serialize ext g fuel simple catalog sink)
              (Traced.generator_chunks ext g fuel simple catalog).
Proof.
  unfold Traced.serialize, Traced.generator_chunks.
  set (gen := Traced._serialize ext g fuel simple catalog).
  assert (Hstack : Forall Traced.gen_framed [gen])
    by (apply Forall_cons_2; [apply traced_serialize_framed | apply Forall_nil_2]).
  assert (Hsink : mkXg sink 0 false = shift sink new_xmlgen)
    by (unfold shift, new_xmlgen; simpl; rewrite app_nil_r; reflexivity).
  rewrite Hsink, (traced_serialize_loop_frame _ _ _ _ Hstack).
  pose proof (traced_loops_agree (Traced.turns gen) [gen] new_xmlgen Hstack) as Hagree.
  destruct (traced_serialize_loop_total (Traced.turns gen) [gen] new_xmlgen) as [[x e] Hx];
    [cbn [Traced.stack_turns fold_right]; lia|].
  rewrite Hx in *. unfold loops_agree in Hagree.
  destruct (Traced.generator_loop (Traced.turns gen) [gen] new_xmlgen) as [y|];
    [|contradiction].
  destruct Hagree as (He & Hs & Hr).
  unfold same_output. cbn [shift stream].
  split; [exact He|]. split; [rewrite Hs; reflexivity|].
  intros Hreturns. specialize (Hr Hreturns). rewrite Hr, app_nil_r in Hs.
  split; [exact Hr|]. split; [rewrite Hs; reflexivity|].
  rewrite Hs, render_app, render_concat. reflexivity.
Qed.

(** C5 (as stated) fails on a run that a step interrupts: the chunks are
    not what [serialize] writes.  The start of the presentation is a typed
    date, on which [serialize_date] raises [TypeError].  The step that raises is the first one of
    [presentation_content], which has called [serialize_common] before: the
    [dc:identifier] of the presentation is in the sink of [serialize], and
    in no chunk of [generator]. *)
Lemma generator_never_yields_failing_step :
  exists out incremental,
    Traced.serialize Sample.ext Sample2.dated_catalogue 2 true (Some Sample.catalogue) []
    = (out, Traced.Raises TypeError)
    /\ Traced.generator_chunks Sample.ext Sample2.dated_catalogue 2 true
         (Some Sample.catalogue)
       = incremental
    /\ Traced.ended incremental = Traced.Raises TypeError
    /\ length (Traced.chunks incremental) = 15
    /\ Traced.unyielded incremental
       = [ Characters (indent 4); StartElement "dc:identifier" [];
           Characters "http://example.org/presentation"; EndElement "dc:identifier" ]
    /\ out = (concat (Traced.chunks incremental) ++ Traced.unyielded incremental)%list
    /\ render out
       = (Py.join "" (map render (Traced.chunks incremental))
          ++ indent 4
          ++ "<dc:identifier>http://example.org/presentation</dc:identifier>")%string
    /\ out <> concat (Traced.chunks incremental)
    /\ render out <> Py.join "" (map render (Traced.chunks incremental)).
Proof.
  eexists. eexists. split; [vm_compute; reflexivity|].
  split; [reflexivity|]. split; [vm_compute; reflexivity|].
  split; [vm_compute; reflexivity|]. split; [vm_compute; reflexivity|].
  split; [vm_compute; reflexivity|]. split; [vm_compute; reflexivity|].
  split.
  - intros H. apply (f_equal (@length sax)) in H. vm_compute in H. discriminate H.
  - intros H. apply (f_equal String.length) in H. vm_compute in H. discriminate H.
Qed.

(** The root element carries the time of the call: two runs agree only
    when the clock reads the same in both. *)
Example generated_is_the_time_of_the_call :
  exists out out',
    Traced.serialize Sample.ext Sample.small_catalogue 2 true (Some Sample.catalogue) []
    = (out, Traced.Returns)
    /\ Traced.serialize
         (mkExternals (etree_fromstring Sample.ext) (etree_fromstring_html Sample.ext)
                      (dateutil_parse_str Sample.ext) "2024-01-01T00:00:01")
         Sample.small_catalogue 2 true (Some Sample.catalogue) []
       = (out', Traced.Returns)
    /\ out <> out'.
Proof.
  eexists. eexists. split; [vm_compute; reflexivity|].
  split; [vm_compute; reflexivity|].
  intros H. apply (f_equal (fun l => nth_error l 1)) in H. vm_compute in H.
  discriminate H.
Qed.

(** *** The traced code and the code above

    The traced rules end as the rules above do, and return the same
    writer: what [Traced] adds is the writer of a call that does not
    return. *)

Lemma refines_skip : refines Traced.skip skip.
Proof. intros xg. reflexivity. Qed.

Lemma refines_wrote (f : xmlgen -> xmlgen) :
  refines (Traced.wrote f) (fun xg => Ok (f xg)).
Proof. intros xg. reflexivity. Qed.

Lemma refines_andthen (a b : Traced.action) (a' b' : action) :
  refines a a' -> refines b b' ->
  refines (Traced.andthen a b) (fun xg => do x <- a' xg in b' x).
Proof.
  intros Ha Hb xg. unfold Traced.andthen. rewrite <- Ha.
  destruct (a xg) as [x1 [|e|]]; cbn [Traced.outcome bind]; [apply Hb | reflexivity ..].
Qed.

Lemma refines_given {A : Type} (r : result A) (k : A -> Traced.action) (k' : A -> action) :
  (forall x, refines (k x) (k' x)) ->
  refines (Traced.given r k) (fun xg => do x <- r in k' x xg).
Proof.
  intros Hk xg. unfold Traced.given. destruct r as [x| |]; cbn [bind];
    [apply Hk | reflexivity ..].
Qed.

Lemma refines_all_or_nothing (rule : action) : refines (Traced.all_or_nothing rule) rule.
Proof. intros xg. unfold Traced.all_or_nothing. destruct (rule xg); reflexivity. Qed.

Lemma refines_for_each {A : Type} (l : list A) (body : A -> Traced.action)
    (body' : A -> action) :
  (forall x, refines (body x) (body' x)) ->
  refines (Traced.for_each l body) (for_each l body').
Proof.
  intros Hb. induction l as [|x l IH]; cbn [Traced.for_each for_each].
  - apply refines_skip.
  - apply (refines_andthen _ _ (body' x) (for_each l body')); [apply Hb | exact IH].
Qed.

Lemma refines_serialize_etree (xml : etree) :
  forall previous_nsmap,
    refines (Traced.serialize_etree xml previous_nsmap) (serialize_etree xml previous_nsmap).
Proof.
  revert xml. fix IH 1.
  intros [tag prefix nsmap attrib text children|] previous_nsmap xg; [|reflexivity].
  cbn [Traced.serialize_etree serialize_etree].
  destruct (element_tag tag prefix) as [tagname| |]; cbn [bind]; [|reflexivity ..].
  cbv zeta. unfold Traced.characters_if.
  set (xg2 := match text with Some _ => _ | None => _ end). clearbody xg2.
  match goal with
  | |- Traced.outcome match ?tloop children _ with _ => _ end = bind (?loop children _) _ =>
      assert (Hloop : forall x, Traced.outcome (tloop children x) = loop children x)
  end.
  { induction children as [|[child tail] rest IHc]; intros x.
    - reflexivity.
    - rewrite <- (IH child nsmap x).
      destruct (Traced.serialize_etree child nsmap x) as [x' [|e|]];
        cbn [Traced.outcome bind]; [|reflexivity ..].
      apply IHc. }
  rewrite <- Hloop.
  match goal with
  | |- _ = bind (Traced.outcome ?r) _ => destruct r as [x3 [|e|]]
  end; reflexivity.
Qed.

Section RulesRefined.

Variable ext : externals.
Variable g : graph.

Lemma refines_descriptive_text_element (name : string) (obj : term) (attrib : attrs) :
  refines (Traced.descriptive_text_element ext name obj attrib)
          (descriptive_text_element ext name obj attrib).
Proof.
  assert (Hfragment : forall (parsed : result etree),
             refines
               (Traced.given parsed (fun xml =>
                  Traced.andthen (Traced.wrote (startElement name attrib))
                    (Traced.andthen (Traced.serialize_etree xml xmlns_nsmap)
                       (Traced.wrote (endElement name)))))
               (fun xg =>
                  do xml <- parsed in
                  do xg' <- serialize_etree xml xmlns_nsmap (startElement name attrib xg) in
                  Ok (endElement name xg'))).
  { intros parsed. apply refines_given. intros xml xg.
    unfold Traced.andthen, Traced.wrote.
    rewrite <- (refines_serialize_etree xml xmlns_nsmap (startElement name attrib xg)).
    destruct (Traced.serialize_etree xml xmlns_nsmap (startElement name attrib xg))
      as [x [|e|]]; reflexivity. }
  intros xg. destruct obj as [u|b|l]; [reflexivity|reflexivity|].
  cbn [Traced.descriptive_text_element descriptive_text_element Traced.given
       term_datatype bind].
  destruct (bool_decide (datatype l = Some (NS.xtypes ++ "Fragment-XHTML")));
    [apply Hfragment|].
  destruct (bool_decide (datatype l = Some (NS.xtypes ++ "Fragment-HTML")));
    [apply Hfragment|].
  reflexivity.
Qed.

Lemma refines_find_first (name : string) (ps : list string) (rich : bool)
    (entity : option term) :
  refines (Traced._find_first ext g name ps rich entity)
          (_find_first ext g name ps rich entity).
Proof.
  intros xg. unfold Traced._find_first, _find_first.
  destruct (chain_objects g entity ps) as [|obj rest]; [reflexivity|].
  destruct rich; [apply refines_descriptive_text_element | reflexivity].
Qed.

Lemma refines_serialize_identifiers (entity : option term) :
  refines (Traced.serialize_identifiers g entity) (serialize_identifiers g entity).
Proof.
  unfold Traced.serialize_identifiers, serialize_identifiers.
  apply refines_andthen.
  - apply refines_for_each. intros obj.
    apply refines_given. intros dt. apply refines_given. intros attrib.
    destruct attrib; [apply refines_skip | apply refines_wrote].
  - apply refines_for_each. intros identifier. apply refines_wrote.
Qed.

Lemma refines_serialize_common (entity : option term) :
  refines (Traced.serialize_common ext g entity) (serialize_common ext g entity).
Proof.
  unfold Traced.serialize_common, serialize_common.
  apply refines_andthen; [apply refines_serialize_identifiers|].
  apply refines_andthen; [apply refines_find_first|].
  apply refines_andthen; apply refines_find_first.
Qed.

Lemma refines_serialize_common_descriptive_elements (entity : option term) :
  refines (Traced.serialize_common_descriptive_elements ext g entity)
          (serialize_common_descriptive_elements ext g entity).
Proof.
  unfold Traced.serialize_common_descriptive_elements,
    serialize_common_descriptive_elements.
  apply refines_for_each. intros [prop name].
  apply refines_for_each. intros obj. apply refines_descriptive_text_element.
Qed.

Lemma refines_serialize_typed_descriptive_elements (entity : option term) :
  refines (Traced.serialize_typed_descriptive_elements ext g entity)
          (serialize_typed_descriptive_elements ext g entity).
Proof.
  unfold Traced.serialize_typed_descriptive_elements,
    serialize_typed_descriptive_elements.
  apply refines_for_each. intros [prop name].
  destruct (graph_value g entity prop) as [v|]; [|apply refines_skip].
  destruct (term_bool v); [apply refines_descriptive_text_element | apply refines_skip].
Qed.

Lemma refines_serialize_controlled_vocabularies (presentation : option term) :
  refines (Traced.serialize_controlled_vocabularies g presentation)
          (serialize_controlled_vocabularies g presentation).
Proof.
  unfold Traced.serialize_controlled_vocabularies, serialize_controlled_vocabularies.
  apply refines_for_each. intros cv. apply refines_all_or_nothing.
Qed.

Lemma refines_serialize_subjects (course : option term) :
  refines (Traced.serialize_subjects g course) (serialize_subjects g course).
Proof.
  unfold Traced.serialize_subjects, serialize_subjects.
  apply refines_for_each. intros subject. apply refines_all_or_nothing.
Qed.

End RulesRefined.

Lemma gen_refines_prepend (a : Traced.action) (a' : action) (t : Traced.generator)
    (gen : generator) :
  refines a a' -> gen_refines t gen -> gen_refines (Traced.prepend a t) (prepend a' gen).
Proof.
  intros Ha Hg.
  destruct t as [final|act item rest]; destruct gen as [final'|act' item' rest'];
    cbn [gen_refines Traced.prepend prepend] in *; try contradiction.
  - apply refines_andthen; assumption.
  - destruct Hg as (Hact & Hitem & Hrest). split; [|split; assumption].
    apply refines_andthen; assumption.
Qed.

Lemma gen_refines_yield_each {A : Type} (l : list A) (f : A -> Traced.generator)
    (f' : A -> generator) (rest : Traced.generator) (rest' : generator) :
  (forall x, gen_refines (f x) (f' x)) -> gen_refines rest rest' ->
  gen_refines (Traced.yield_each l f rest) (yield_each l f' rest').
Proof.
  intros Hf Hrest.
  induction l as [|x l IH];
    cbn [Traced.yield_each yield_each fold_right gen_refines].
  - exact Hrest.
  - split; [apply refines_skip|]. split; [apply Hf | exact IH].
Qed.

Section ProducersRefined.

Variable ext : externals.
Variable g : graph.
Variable fuel : nat.

Lemma gen_refines_venue_element (venue : term) :
  gen_refines (Traced.venue_element ext g fuel venue) (venue_element ext g fuel venue).
Proof.
  cbn [Traced.venue_element venue_element gen_refines].
  split; [|split; [exact I|]].
  - intros xg. apply refines_serialize_common.
  - split; [apply refines_all_or_nothing|]. split; [exact I|].
    intros xg. reflexivity.
Qed.

Lemma gen_refines_presentation_content (presentation : term) :
  gen_refines (Traced.presentation_content ext g fuel presentation)
              (presentation_content ext g fuel presentation).
Proof.
  unfold Traced.presentation_content, presentation_content.
  apply gen_refines_prepend.
  - do 8 (apply refines_andthen;
            [first [ apply refines_serialize_common
                   | apply refines_serialize_common_descriptive_elements
                   | apply refines_all_or_nothing
                   | apply refines_find_first ] |]).
    apply refines_serialize_controlled_vocabularies.
  - apply gen_refines_yield_each; [apply gen_refines_venue_element | apply refines_skip].
Qed.

Lemma gen_refines_presentation_element (presentation : term) :
  gen_refines (Traced.presentation_element ext g fuel presentation)
              (presentation_element ext g fuel presentation).
Proof.
  cbn [Traced.presentation_element presentation_element gen_refines].
  split; [apply refines_wrote|].
  split; [apply gen_refines_presentation_content | apply refines_wrote].
Qed.

Lemma gen_refines_course_content (course : term) :
  gen_refines (Traced.course_content ext g fuel course) (course_content ext g fuel course).
Proof.
  cbn [Traced.course_content course_content gen_refines].
  split; [apply refines_serialize_common|]. split; [exact I|].
  split; [apply refines_serialize_common_descriptive_elements|]. split; [exact I|].
  split; [apply refines_serialize_typed_descriptive_elements|]. split; [exact I|].
  split; [apply refines_serialize_subjects|]. split; [exact I|].
  apply gen_refines_yield_each;
    [apply gen_refines_presentation_element | apply refines_skip].
Qed.

Lemma gen_refines_course_element (course : term) :
  gen_refines (Traced.course_element ext g fuel course) (course_element ext g fuel course).
Proof.
  cbn [Traced.course_element course_element gen_refines].
  split; [apply refines_wrote|].
  split; [apply gen_refines_course_content | apply refines_wrote].
Qed.

Lemma gen_refines_provider_content (provider : option term) (courses : list term) :
  gen_refines (Traced.provider_content ext g fuel provider courses)
              (provider_content ext g fuel provider courses).
Proof.
  unfold Traced.provider_content, provider_content.
  assert (Htail : gen_refines
                    (Traced.yield_each courses (Traced.course_element ext g fuel)
                       (Traced.Stop Traced.skip))
                    (yield_each courses (course_element ext g fuel) (Stop skip)))
    by (apply gen_refines_yield_each; [apply gen_refines_course_element | apply refines_skip]).
  destruct (truthy provider); [|exact Htail].
  cbn [gen_refines].
  split; [apply refines_serialize_common|]. split; [exact I|].
  split; [apply refines_all_or_nothing|]. split; [exact I | exact Htail].
Qed.

Lemma gen_refines_provider_element (provider : option term) (courses : list term) :
  gen_refines (Traced.provider_element ext g fuel provider courses)
              (provider_element ext g fuel provider courses).
Proof.
  cbn [Traced.provider_element provider_element gen_refines].
  split; [apply refines_wrote|].
  split; [apply gen_refines_provider_content | apply refines_wrote].
Qed.

Lemma gen_refines_catalog_content (simple : bool) (catalog : option term) :
  gen_refines (Traced.catalog_content ext g fuel simple catalog)
              (catalog_content ext g fuel simple catalog).
Proof.
  unfold Traced.catalog_content, catalog_content. cbn [gen_refines].
  split; [apply refines_serialize_common|]. split; [exact I|].
  destruct (collect_courses g fuel {[catalog]} []) as [provider_courses|e|].
  - destruct simple.
    + cbn [gen_refines]. split; [apply refines_skip|].
      split; [apply gen_refines_provider_element | apply refines_skip].
    + apply gen_refines_yield_each; [intros pc; apply gen_refines_provider_element|].
      apply refines_skip.
  - intros xg. reflexivity.
  - intros xg. reflexivity.
Qed.

Lemma gen_refines_serialize (simple : bool) (catalog : option term) :
  gen_refines (Traced._serialize ext g fuel simple catalog)
              (_serialize ext g fuel simple catalog).
Proof.
  cbn [Traced._serialize _serialize Traced.catalog_element catalog_element gen_refines].
  split; [apply refines_wrote|]. split; [|apply refines_wrote].
  split; [apply refines_wrote|].
  split; [apply gen_refines_catalog_content | apply refines_wrote].
Qed.

End ProducersRefined.

Lemma gen_refines_turns (t : Traced.generator) :
  forall gen, gen_refines t gen -> Traced.turns t = turns gen.
Proof.
  revert t. fix IH 1.
  intros [final|act item rest] [final'|act' item' rest'] H; cbn [gen_refines] in H;
    try contradiction; [reflexivity|].
  destruct H as (_ & Hitem & Hrest). cbn [Traced.turns turns].
  rewrite (IH rest rest' Hrest).
  destruct item as [nested|], item' as [nested'|]; try contradiction;
    [rewrite (IH nested nested' Hitem)|]; reflexivity.
Qed.

(** One turn of the traced loop is one turn of the loop above. *)
Lemma refines_step (ts : list Traced.generator) (stack : list generator) (xg : xmlgen) :
  Forall2 gen_refines ts stack ->
  Forall2 gen_refines (fst (Traced.step ts xg))
          (match step stack xg with Ok st => fst st | _ => [] end)
    \/ (forall st, step stack xg <> Ok st).
Proof.
  intros H. destruct H as [|t gen ts' stack' Hhead Htail].
  - left. cbn. constructor.
  - destruct t as [final|act item rest]; destruct gen as [final'|act' item' rest'];
      cbn [gen_refines] in Hhead; try contradiction; cbn [Traced.step step fst].
    + destruct (final' xg) as [x| |]; cbn [bind fst]; [left; exact Htail | right ..];
        intros st; discriminate.
    + destruct Hhead as (_ & Hitem & Hrest).
      destruct (act' xg) as [x| |]; cbn [bind fst]; [left | right ..];
        try (intros st; discriminate).
      destruct item as [nested|], item' as [nested'|]; try contradiction;
        repeat (constructor; try assumption).
Qed.

Lemma refines_step_outcome (ts : list Traced.generator) (stack : list generator)
    (xg : xmlgen) :
  Forall2 gen_refines ts stack ->
  Traced.outcome (snd (Traced.step ts xg)) = do st <- step stack xg in Ok (snd st).
Proof.
  intros H. destruct H as [|t gen ts' stack' Hhead Htail]; [reflexivity|].
  destruct t as [final|act item rest]; destruct gen as [final'|act' item' rest'];
    cbn [gen_refines] in Hhead; try contradiction; cbn [Traced.step step snd].
  - rewrite Hhead. destruct (final' xg); reflexivity.
  - destruct Hhead as (Hact & _). rewrite Hact. destruct (act' xg); reflexivity.
Qed.

Lemma refines_serialize_loop (n : nat) :
  forall ts stack xg,
    Forall2 gen_refines ts stack ->
    serialize_loop n stack xg
    = match Traced.serialize_loop n ts xg with
      | Some t => Some (Traced.outcome t)
      | None => None
      end.
Proof.
  induction n as [|n IH]; intros ts stack xg H.
  - destruct H; reflexivity.
  - destruct H as [|t gen ts' stack' Hhead Htail]; [reflexivity|].
    assert (Hall : Forall2 gen_refines (t :: ts') (gen :: stack'))
      by (constructor; assumption).
    cbn [serialize_loop Traced.serialize_loop].
    pose proof (refines_step_outcome _ _ xg Hall) as Hout.
    pose proof (refines_step _ _ xg Hall) as Hstep.
    destruct (Traced.step (t :: ts') xg) as [ts1 [x1 [|e|]]];
      cbn [Traced.outcome fst snd] in *;
      destruct (step (gen :: stack') xg) as [st| |]; cbn [bind] in Hout;
      try discriminate Hout; try reflexivity.
    + injection Hout as Hx. subst x1.
      destruct Hstep as [Hstep|Hstep]; [|destruct (Hstep st eq_refl)].
      apply IH. exact Hstep.
    + injection Hout as ->. reflexivity.
Qed.

Lemma refines_generator_loop (n : nat) :
  forall ts stack xg,
    Forall2 gen_refines ts stack ->
    generator_loop n stack xg
    = match Traced.generator_loop n ts xg with
      | Some y =>
          Some match Traced.ended y with
               | Traced.Returns => Ok (Traced.chunks y)
               | Traced.Raises e => Raise e
               | Traced.Hangs => OutOfFuel
               end
      | None => None
      end.
Proof.
  induction n as [|n IH]; intros ts stack xg H.
  - destruct H; reflexivity.
  - destruct H as [|t gen ts' stack' Hhead Htail]; [reflexivity|].
    assert (Hall : Forall2 gen_refines (t :: ts') (gen :: stack'))
      by (constructor; assumption).
    cbn [generator_loop Traced.generator_loop].
    pose proof (refines_step_outcome _ _ xg Hall) as Hout.
    pose proof (refines_step _ _ xg Hall) as Hstep.
    destruct (Traced.step (t :: ts') xg) as [ts1 [x1 [|e|]]];
      cbn [Traced.outcome fst snd] in *;
      destruct (step (gen :: stack') xg) as [st| |]; cbn [bind] in Hout;
      try discriminate Hout; try reflexivity.
    + injection Hout as Hx. subst x1.
      destruct Hstep as [Hstep|Hstep]; [|destruct (Hstep st eq_refl)].
      rewrite (IH ts1 (fst st) (truncate (snd st)) Hstep).
      destruct (Traced.generator_loop n ts1 (truncate (snd st))) as [y|]; [|reflexivity].
      cbn [Traced.ended Traced.chunks].
      destruct (Traced.ended y); reflexivity.
    + injection Hout as ->. reflexivity.
Qed.

(** [serialize] and [generator] as given above are the traced ones with the
    writer of a run that does not end well left out. *)
Lemma serialize_ends_as_traced
    (ext : externals) (g : graph) (fuel : nat) (simple : bool) (catalog : option term)
    (sink : list sax) :
  serialize ext g fuel simple catalog sink
  = match Traced.serialize ext g fuel simple catalog sink with
    | (out, Traced.Returns) => Ok out
    | (_, Traced.Raises e) => Raise e
    | (_, Traced.Hangs) => OutOfFuel
    end.
Proof.
  unfold serialize, Traced.serialize.
  pose proof (gen_refines_serialize ext g fuel simple catalog) as Hgen.
  rewrite (gen_refines_turns _ _ Hgen).
  rewrite (refines_serialize_loop _ [Traced._serialize ext g fuel simple catalog]);
    [|constructor; [exact Hgen | constructor]].
  destruct (Traced.serialize_loop _ _ _) as [[x [|e|]]|]; reflexivity.
Qed.

Lemma generator_chunks_ends_as_traced
    (ext : externals) (g : graph) (fuel : nat) (simple : bool) (catalog : option term) :
  generator_chunks ext g fuel simple catalog
  = let y := Traced.generator_chunks ext g fuel simple catalog in
    match Traced.ended y with
    | Traced.Returns => Ok (Traced.chunks y)
    | Traced.Raises e => Raise e
    | Traced.Hangs => OutOfFuel
    end.
Proof.
  unfold generator_chunks, Traced.generator_chunks.
  pose proof (gen_refines_serialize ext g fuel simple catalog) as Hgen.
  rewrite (gen_refines_turns _ _ Hgen).
  rewrite (refines_generator_loop _ [Traced._serialize ext g fuel simple catalog]);
    [|constructor; [exact Hgen | constructor]].
  destruct (Traced.generator_loop _ _ _) as [y|]; reflexivity.
Qed.

(** * Further properties of the code *)

(** ** Slices *)

Lemma substring_all (s : string) : String.substring 0 (String.length s) s = s.
Proof. induction s as [|c s IH]; [reflexivity|]. simpl. rewrite IH. reflexivity. Qed.

Lemma slice_split (s : string) :
  forall i, i <= String.length s -> (Py.slice_to i s ++ Py.slice_from i s)%string = s.
Proof.
  unfold Py.slice_to, Py.slice_from.
  induction s as [|c s IH]; intros i Hi.
  - simpl in Hi. replace i with 0 by lia. reflexivity.
  - destruct i as [|i].
    + cbn [String.length Nat.sub]. cbn [String.substring].
      rewrite substring_all. reflexivity.
    + cbn [String.length Nat.sub String.substring].
      change (String c (String.substring 0 i s
                        ++ String.substring i (String.length s - i) s)%string
              = String c s).
      rewrite IH by (simpl in Hi; lia). reflexivity.
Qed.

Lemma slice_to_length (s : string) :
  forall i, i <= String.length s -> String.length (Py.slice_to i s) = i.
Proof.
  unfold Py.slice_to. induction s as [|c s IH]; intros i Hi.
  - simpl in Hi. replace i with 0 by lia. reflexivity.
  - destruct i as [|i]; [reflexivity|]. cbn [String.substring String.length].
    rewrite IH by (simpl in Hi; lia). reflexivity.
Qed.

(** ** Compact names *)

(** What the second loop of [xsi_type] returns, tried from index [i] on:
    nothing when no suffix from there on is a local part, and otherwise the
    split at the first index whose suffix is one. *)
Lemma xsi_type_scan_spec (u : string) :
  forall todo i,
    i + todo = String.length u ->
    (xsi_type_scan todo i u = []
     /\ forall j, i <= j < String.length u -> is_localpart (Py.slice_from j u) = false)
    \/ (exists k,
          i <= k < String.length u
          /\ xsi_type_scan todo i u
             = [ ("xsi:type", "ns:" ++ Py.slice_from k u); ("xmlns:ns", Py.slice_to k u) ]
          /\ is_localpart (Py.slice_from k u) = true
          /\ forall j, i <= j < k -> is_localpart (Py.slice_from j u) = false).
Proof.
  induction todo as [|todo IH]; intros i Hlen.
  - left. split; [reflexivity|]. intros j Hj. lia.
  - cbn [xsi_type_scan]. destruct (is_localpart (Py.slice_from i u)) eqn:Hi.
    + right. exists i. split; [lia|]. split; [reflexivity|]. split; [exact Hi|].
      intros j Hj. lia.
    + destruct (IH (S i)) as [[Hnil Hall]|(k & Hk & Hres & Hlocal & Hbefore)]; [lia| |].
      * left. split; [exact Hnil|]. intros j Hj.
        destruct (Nat.eq_dec j i) as [->|Hne]; [exact Hi | apply Hall; lia].
      * right. exists k. split; [lia|]. split; [exact Hres|]. split; [exact Hlocal|].
        intros j Hj. destruct (Nat.eq_dec j i) as [->|Hne]; [exact Hi | apply Hbefore; lia].
Qed.

(** The first loop of [xsi_type] returns one attribute, if any. *)
Lemma xsi_type_known_single (table : list (string * string)) (u : string) (a : attrs) :
  xsi_type_known table u = Some a -> exists t, a = [("xsi:type", t)].
Proof.
  induction table as [|[ns prefix] rest IH]; [discriminate|].
  cbn [xsi_type_known].
  destruct (Py.startswith u ns); [|exact IH].
  destruct (is_localpart _); [|exact IH].
  intros H. injection H as <-. eauto.
Qed.

(** X1.  When [xsi_type] makes up a namespace for a URI, the namespace and
    the local part put together are the URI again, the local part is a
    valid one, and it is the longest suffix of the URI that is. *)
Theorem xsi_type_synthesized_round_trip (u t ns : string) :
  xsi_type (Some u) = Ok [("xsi:type", t); ("xmlns:ns", ns)] ->
  exists local,
    t = ("ns:" ++ local)%string
    /\ (ns ++ local)%string = u
    /\ is_localpart local = true
    /\ forall j, j < String.length ns -> is_localpart (Py.slice_from j u) = false.
Proof.
  unfold xsi_type. intros H.
  destruct (xsi_type_known INVERSE_XMLNS u) as [a|] eqn:Hknown.
  - destruct (xsi_type_known_single _ _ _ Hknown) as [t' ->]. discriminate H.
  - injection H as H.
    destruct (xsi_type_scan_spec u (String.length u) 0 eq_refl)
      as [[Hnil _]|(k & Hk & Hres & Hlocal & Hbefore)]; [congruence|].
    rewrite Hres in H. injection H as <- <-.
    exists (Py.slice_from k u). split; [reflexivity|].
    split; [apply slice_split; lia|]. split; [exact Hlocal|].
    intros j Hj. rewrite slice_to_length in Hj by lia. apply Hbefore. lia.
Qed.

Lemma xsi_type_synthesized_round_trip_witness :
  exists local,
    "ns:Credit" = ("ns:" ++ local)%string
    /\ ("http://example.org/terms/" ++ local)%string = "http://example.org/terms/Credit"
    /\ is_localpart local = true
    /\ forall j, j < String.length "http://example.org/terms/" ->
                 is_localpart (Py.slice_from j "http://example.org/terms/Credit") = false.
Proof.
  apply (xsi_type_synthesized_round_trip
           "http://example.org/terms/Credit" "ns:Credit" "http://example.org/terms/").
  reflexivity.
Defined.

(** A URI that starts with [http] starts with none of the prefixes the
    first loop of [xsi_type] compares it with. *)
Lemma xsi_type_known_http (u : string) :
  Py.startswith u "http" = true -> xsi_type_known INVERSE_XMLNS u = None.
Proof.
  unfold Py.startswith. intros H. apply prefix_correct in H.
  destruct u as [|c1 [|c2 [|c3 [|c4 rest]]]]; try discriminate H.
  cbn in H. injection H as -> -> -> ->. reflexivity.
Qed.

(** X2.  For a URI that starts with [http], [xsi_type] never answers with
    the prefix of one of the known namespaces: the answer is that of the
    scan for the longest suffix that is a local part, and so either empty or
    a made-up namespace [ns]. *)
Theorem xsi_type_http_never_known (u : string) :
  Py.startswith u "http" = true ->
  xsi_type (Some u) = Ok []
  \/ exists local ns,
       xsi_type (Some u) = Ok [("xsi:type", ("ns:" ++ local)%string); ("xmlns:ns", ns)]
       /\ (ns ++ local)%string = u.
Proof.
  intros H. unfold xsi_type. rewrite (xsi_type_known_http u H).
  destruct (xsi_type_scan_spec u (String.length u) 0 eq_refl)
    as [[Hnil _]|(k & Hk & Hres & _ & _)].
  - left. rewrite Hnil. reflexivity.
  - right. exists (Py.slice_from k u), (Py.slice_to k u). rewrite Hres.
    split; [reflexivity | apply slice_split; lia].
Qed.

Lemma xsi_type_http_never_known_witness :
  xsi_type (Some "http://purl.org/dc/elements/1.1/title") = Ok []
  \/ exists local ns,
       xsi_type (Some "http://purl.org/dc/elements/1.1/title")
       = Ok [("xsi:type", ("ns:" ++ local)%string); ("xmlns:ns", ns)]
       /\ (ns ++ local)%string = "http://purl.org/dc/elements/1.1/title".
Proof.
  apply (xsi_type_http_never_known "http://purl.org/dc/elements/1.1/title").
  reflexivity.
Defined.

(** X3.  For a URI that starts with [http], [xsi_type] returns no
    attributes exactly when no suffix of the URI is a valid local part. *)
Theorem xsi_type_http_empty_iff (u : string) :
  Py.startswith u "http" = true ->
  xsi_type (Some u) = Ok []
  <-> forall j, j < String.length u -> is_localpart (Py.slice_from j u) = false.
Proof.
  intros H. unfold xsi_type. rewrite (xsi_type_known_http u H).
  destruct (xsi_type_scan_spec u (String.length u) 0 eq_refl)
    as [[Hnil Hall]|(k & Hk & Hres & Hlocal & _)].
  - rewrite Hnil. split; [intros _ j Hj; apply Hall; lia | reflexivity].
  - rewrite Hres. split; [discriminate|].
    intros Hall. rewrite (Hall k) in Hlocal by lia. discriminate Hlocal.
Qed.

Lemma xsi_type_http_empty_iff_witness :
  xsi_type (Some "http://example.org/2024") = Ok []
  <-> forall j, j < String.length "http://example.org/2024" ->
                is_localpart (Py.slice_from j "http://example.org/2024") = false.
Proof.
  apply (xsi_type_http_empty_iff "http://example.org/2024"). reflexivity.
Defined.

(** The characters of a local part. *)
Lemma localpart_rest_chars (s : string) (c : ascii) :
  localpart_rest s = true -> contains_char c s = true ->
  localpart_char c = true \/ c = newline.
Proof.
  induction s as [|c' s IH]; [discriminate 2|].
  cbn [localpart_rest contains_char]. intros Hrest Hin.
  apply orb_true_iff in Hin as [Heq|Hin].
  - apply Ascii.eqb_eq in Heq. subst c'.
    apply orb_true_iff in Hrest as [Hc|Hn].
    + apply andb_true_iff in Hc as [Hc _]. left; exact Hc.
    + apply andb_true_iff in Hn as [Hn _]. right. apply Ascii.eqb_eq; exact Hn.
  - apply orb_true_iff in Hrest as [Hc|Hn].
    + apply andb_true_iff in Hc as [_ Hc]. exact (IH Hc Hin).
    + apply andb_true_iff in Hn as [_ Hn]. destruct s; [discriminate Hin | discriminate Hn].
Qed.

(** X4.  A string that [is_localpart] accepts holds none of the characters
    that separate the parts of a URI: no slash, no hash, no colon. *)
Theorem is_localpart_no_separator (s : string) :
  is_localpart s = true ->
  contains_char "/" s = false /\ contains_char "#" s = false /\ contains_char ":" s = false.
Proof.
  intros H.
  assert (Hchar : forall c, contains_char c s = true ->
                            localpart_char c = true \/ c = newline).
  { intros c Hin. destruct s as [|c' s]; [discriminate H|].
    cbn [is_localpart] in H. apply andb_true_iff in H as [Hstart Hrest].
    cbn [contains_char] in Hin. apply orb_true_iff in Hin as [Heq|Hin].
    - apply Ascii.eqb_eq in Heq. subst c'. left. unfold localpart_char.
      rewrite Hstart. reflexivity.
    - exact (localpart_rest_chars s c Hrest Hin). }
  repeat split.
  all: match goal with
       | |- contains_char ?c ?s0 = false =>
           destruct (contains_char c s0) eqn:Hin; [|reflexivity];
           destruct (Hchar c Hin) as [Hc|Hc]; [vm_compute in Hc|]; discriminate Hc
       end.
Qed.

Lemma is_localpart_no_separator_witness :
  contains_char "/" "learning-outcome.1" = false
  /\ contains_char "#" "learning-outcome.1" = false
  /\ contains_char ":" "learning-outcome.1" = false.
Proof. apply (is_localpart_no_separator "learning-outcome.1"). reflexivity. Defined.

(** ** The indenting writer *)

(** X5.  The writer never puts white space next to text: after text, the
    next opening tag and the closing tag follow it directly, and a textual
    element is its opening tag, its text and its closing tag with nothing in
    between, at the depth the writer had before. *)
Theorem writer_never_indents_around_text
    (name : string) (attrib : attrs) (content : string) (xg : xmlgen) :
  stream (startElement name attrib (characters content xg))
  = (stream xg ++ [Characters content; StartElement name attrib])%list
  /\ stream (endElement name (characters content xg))
     = (stream xg ++ [Characters content; EndElement name])%list
  /\ textualElement name attrib content xg
     = mkXg (stream xg ++ indentation (depth xg) (chars xg)
             ++ [StartElement name attrib; Characters content; EndElement name])
            (depth xg) false.
Proof.
  split; [|split].
  - rewrite startElement_eq. unfold characters, write, indentation.
    cbn [stream depth chars]. rewrite andb_false_r, <- app_assoc. reflexivity.
  - rewrite endElement_eq. unfold characters, write.
    cbn [stream depth chars]. rewrite <- app_assoc. reflexivity.
  - apply textualElement_eq.
Qed.

(** ** Re-emitted fragments *)

(** The number of opening tags adds up. *)
Lemma count_starts_app (a b : list sax) :
  count_starts (a ++ b) = count_starts a + count_starts b.
Proof.
  induction a as [|e a IH]; [reflexivity|].
  destruct e; cbn [app count_starts]; rewrite IH; reflexivity.
Qed.

Lemma count_starts_indentation (d : Z) (c : bool) : count_starts (indentation d c) = 0.
Proof. unfold indentation. destruct (negb (d =? 0)%Z && negb c); reflexivity. Qed.

(** A fragment made of elements only, with tags as lxml has them, is
    re-emitted without an error, as one well-nested element. *)
Lemma serialize_etree_elements (xml : etree) :
  forall previous_nsmap xg,
    etree_tags_ok xml = true ->
    exists xg' body,
      serialize_etree xml previous_nsmap xg = Ok xg'
      /\ appends xg xg' body
      /\ chars xg' = false
      /\ balanced body
      /\ count_starts body = etree_size xml.
Proof.
  revert xml. fix IH 1.
  intros [tag prefix nsmap attrib text children|] previous_nsmap xg Hok;
    [|discriminate Hok].
  cbn [etree_tags_ok] in Hok. apply andb_true_iff in Hok as [Htag Hchildren].
  cbn [serialize_etree etree_size].
  destruct (element_tag tag prefix) as [tagname| |]; try discriminate Htag.
  cbn [bind].
  assert (Htext : forall (t : option string) x,
             exists b, appends x match t with
                                 | Some t => if Py.str_bool t then characters t x else x
                                 | None => x
                                 end b /\ balanced b /\ count_starts b = 0).
  { intros [t|] x; [destruct (Py.str_bool t)|].
    - exists [Characters t]. split; [split; reflexivity|].
      split; [apply balanced_characters | reflexivity].
    - exists []. split; [apply appends_refl|]. split; [apply balanced_nil | reflexivity].
    - exists []. split; [apply appends_refl|]. split; [apply balanced_nil | reflexivity]. }
  set (xg1 := startElement tagname _ xg).
  destruct (Htext text xg1) as (b2 & Ha2 & Hb2 & Hn2).
  set (xg2 := match text with Some _ => _ | None => _ end) in *.
  clearbody xg2.
  match goal with
  | |- exists _ _, bind (?loop children _) _ = _ /\ _ =>
      assert (Hloop : forall x, exists x' b,
                 loop children x = Ok x' /\ appends x x' b /\ balanced b
                 /\ count_starts b
                    = (fix sum (cs : list (etree * option string)) : nat :=
                         match cs with
                         | [] => 0
                         | (child, _) :: rest => etree_size child + sum rest
                         end) children)
  end.
  { clear Ha2 xg2. induction children as [|[child tail] rest IHc]; intros x.
    - exists x, []. split; [reflexivity|]. split; [apply appends_refl|].
      split; [apply balanced_nil | reflexivity].
    - apply andb_true_iff in Hchildren as [Hchild Hrest].
      destruct (IH child nsmap x Hchild) as (x1 & b1 & Hrun1 & Ha1 & _ & Hb1 & Hn1).
      destruct (Htext tail x1) as (bt & Hat & Hbt & Hnt).
      destruct (IHc Hrest
                  match tail with
                  | Some t => if Py.str_bool t then characters t x1 else x1
                  | None => x1
                  end) as (x' & br & Hrunr & Har & Hbr & Hnr).
      exists x', (b1 ++ bt ++ br)%list. rewrite Hrun1. cbn [bind].
      split; [exact Hrunr|]. split.
      + eapply appends_trans; [exact Ha1|]. eapply appends_trans; eassumption.
      + split; [repeat apply balanced_app; assumption|].
        rewrite !count_starts_app, Hn1, Hnt, Hnr. lia. }
  destruct (Hloop xg2) as (xg3 & b3 & Hrun & Ha3 & Hb3 & Hn3).
  rewrite Hrun. cbn [bind]. rewrite endElement_eq.
  destruct Ha2 as [Hs2 Hd2]. destruct Ha3 as [Hs3 Hd3].
  subst xg1. rewrite startElement_eq in Hs2, Hd2. cbn [stream depth] in Hs2, Hd2.
  eexists. exists (indentation (depth xg) (chars xg)
          ++ StartElement tagname (ns_declarations nsmap previous_nsmap attrib)
             :: (b2 ++ b3 ++ (if chars xg3 then [] else [Characters (indent (depth xg3 - 1))]))
             ++ [EndElement tagname])%list.
  split; [reflexivity|]. split; [split|split; [|split]].
  - cbn [stream]. rewrite Hs3, Hs2. rewrite <- ?app_assoc. cbn [app].
    rewrite <- ?app_assoc. reflexivity.
  - cbn [depth]. rewrite Hd3, Hd2. lia.
  - reflexivity.
  - apply balanced_app; [apply balanced_indentation|].
    apply balanced_element. repeat apply balanced_app; try assumption.
    destruct (chars xg3); [apply balanced_nil | apply balanced_characters].
  - rewrite count_starts_app, count_starts_indentation.
    change (StartElement tagname (ns_declarations nsmap previous_nsmap attrib)
              :: (b2 ++ b3 ++ (if chars xg3 then []
                               else [Characters (indent (depth xg3 - 1))]))
              ++ [EndElement tagname])%list
      with ([StartElement tagname (ns_declarations nsmap previous_nsmap attrib)]
              ++ (b2 ++ b3 ++ (if chars xg3 then []
                               else [Characters (indent (depth xg3 - 1))]))
              ++ [EndElement tagname])%list.
    rewrite !count_starts_app, Hn2, Hn3.
    destruct (chars xg3); cbn; lia.
Qed.

(** The tag of an element is missing only for want of a brace. *)
Lemma element_tag_raises (tag : string) (prefix : option string) :
  (exists tagname, element_tag tag prefix = Ok tagname)
  \/ element_tag tag prefix = Raise IndexError.
Proof.
  unfold element_tag. destruct prefix as [p|]; [|eauto].
  destruct (after_brace tag); eauto.
Qed.

(** A fragment with a comment or a processing instruction in it, or with a
    prefixed element whose tag has no brace, makes the call raise. *)
Lemma serialize_etree_other (xml : etree) :
  forall previous_nsmap xg,
    etree_tags_ok xml = false ->
    serialize_etree xml previous_nsmap xg = Raise AttributeError
    \/ serialize_etree xml previous_nsmap xg = Raise IndexError.
Proof.
  revert xml. fix IH 1.
  intros [tag prefix nsmap attrib text children|] previous_nsmap xg Hok;
    [|left; reflexivity].
  cbn [etree_tags_ok] in Hok. cbn [serialize_etree].
  destruct (element_tag_raises tag prefix) as [[tagname Htag]|Htag]; rewrite Htag in *;
    cbn [bind]; [|right; reflexivity].
  cbn [andb] in Hok.
  set (xg2 := match text with Some _ => _ | None => _ end). clearbody xg2.
  match goal with
  | |- bind (?loop children _) _ = _ \/ _ =>
      assert (Hloop : forall x, loop children x = Raise AttributeError
                                \/ loop children x = Raise IndexError)
  end.
  { induction children as [|[child tail] rest IHc]; intros x; [discriminate Hok|].
    destruct (etree_tags_ok child) eqn:Hchild.
    - destruct (serialize_etree_elements child nsmap x Hchild) as (x1 & b1 & Hrun1 & _).
      rewrite Hrun1. cbn [bind]. apply IHc. exact Hok.
    - destruct (IH child nsmap x Hchild) as [H|H]; rewrite H; [left | right]; reflexivity. }
  destruct (Hloop xg2) as [H|H]; rewrite H; [left | right]; reflexivity.
Qed.

(** X6.  [serialize_etree] re-emits a fragment without an error exactly
    when every node of it is an element and every element with a prefix has
    a tag in Clark notation.  What is written then closes every element it
    opens, in order, has one opening tag per element of the fragment, and
    leaves the writer at the depth it had, with a closing tag as the last
    thing written.  A fragment with a comment or a processing instruction
    anywhere in it, or with a prefixed element whose tag has no brace,
    makes the call raise [AttributeError] or [IndexError]. *)
Theorem serialize_etree_well_nested
    (xml : etree) (previous_nsmap : list (option string * string)) (xg : xmlgen) :
  (etree_tags_ok xml = true ->
   exists xg' body,
     serialize_etree xml previous_nsmap xg = Ok xg'
     /\ appends xg xg' body
     /\ chars xg' = false
     /\ balanced body
     /\ count_starts body = etree_size xml)
  /\ (etree_tags_ok xml = false ->
      serialize_etree xml previous_nsmap xg = Raise AttributeError
      \/ serialize_etree xml previous_nsmap xg = Raise IndexError).
Proof.
  split; [apply serialize_etree_elements | apply serialize_etree_other].
Qed.

Lemma serialize_etree_well_nested_witness :
  (exists xg' body,
     serialize_etree Fragment.hello xmlns_nsmap new_xmlgen = Ok xg'
     /\ appends new_xmlgen xg' body
     /\ chars xg' = false
     /\ balanced body
     /\ count_starts body = etree_size Fragment.hello)
  /\ serialize_etree Fragment.commented xmlns_nsmap new_xmlgen = Raise AttributeError.
Proof.
  split.
  - apply (serialize_etree_well_nested Fragment.hello xmlns_nsmap new_xmlgen).
    reflexivity.
  - destruct (serialize_etree_well_nested Fragment.commented xmlns_nsmap new_xmlgen)
      as [_ H].
    destruct (H eq_refl) as [Hr|Hr]; [exact Hr|].
    vm_compute in Hr. discriminate Hr.
Defined.

Lemma attrs_get_dict_set (k v k' : string) (d : attrs) :
  attrs_get (dict_set k v d) k' = if String.eqb k' k then Some v else attrs_get d k'.
Proof.
  induction d as [|[k0 v0] d IH]; cbn [dict_set attrs_get].
  - reflexivity.
  - destruct (String.eqb k k0) eqn:Hk.
    + apply String.eqb_eq in Hk. subst k0. cbn [attrs_get].
      destruct (String.eqb k' k); reflexivity.
    + cbn [attrs_get]. rewrite IH.
      destruct (String.eqb k' k0) eqn:Hk0; [|reflexivity].
      apply String.eqb_eq in Hk0. subst k0.
      destruct (String.eqb k' k) eqn:Hk'; [|reflexivity].
      apply String.eqb_eq in Hk'. subst k'. rewrite String.eqb_refl in Hk.
      discriminate Hk.
Qed.

Lemma string_app_inj_l (p a b : string) : (p ++ a)%string = (p ++ b)%string -> a = b.
Proof.
  induction p as [|c p IH]; [auto|].
  change (String c (p ++ a)%string = String c (p ++ b)%string -> a = b).
  intros H. injection H as H. exact (IH H).
Qed.

Lemma ns_key_inj (a b : option string) : ns_key a = ns_key b -> a = b.
Proof.
  destruct a as [a|], b as [b|]; cbn [ns_key]; intros H.
  - apply string_app_inj_l in H. congruence.
  - discriminate H.
  - discriminate H.
  - reflexivity.
Qed.

(** The declarations of other prefixes leave an attribute as it is. *)
Lemma ns_declarations_other (own previous : list (option string * string)) (k : string) :
  (forall ns uri, (ns, uri) ∈ own -> ns_key ns <> k) ->
  forall attrib, attrs_get (ns_declarations own previous attrib) k = attrs_get attrib k.
Proof.
  induction own as [|[ns uri] rest IH]; intros Hother attrib; [reflexivity|].
  assert (Hrest : forall ns' uri', (ns', uri') ∈ rest -> ns_key ns' <> k)
    by (intros ns' uri' Hin; apply (Hother ns' uri'); apply list_elem_of_further; exact Hin).
  assert (Hhead : ns_key ns <> k) by (apply (Hother ns uri); apply list_elem_of_here).
  cbn [ns_declarations].
  destruct (bool_decide (Some uri = nsmap_get previous ns)); [apply IH; exact Hrest|].
  assert (Hset : attrs_get (dict_set (ns_key ns) uri attrib) k = attrs_get attrib k).
  { rewrite attrs_get_dict_set.
    destruct (String.eqb k (ns_key ns)) eqn:Hk; [|reflexivity].
    apply String.eqb_eq in Hk. congruence. }
  destruct ns as [n|]; rewrite (IH Hrest); exact Hset.
Qed.

(** X7.  When every namespace declaration in scope on an element is in
    the ambient namespace map with the same URI, the element is re-emitted
    with its own attributes and no namespace declaration. *)
Theorem ns_declarations_ambient_not_repeated
    (own previous : list (option string * string)) (attrib : attrs) :
  (forall ns uri, (ns, uri) ∈ own -> nsmap_get previous ns = Some uri) ->
  ns_declarations own previous attrib = attrib.
Proof.
  induction own as [|[ns uri] rest IH]; intros Hsame; [reflexivity|].
  cbn [ns_declarations].
  rewrite bool_decide_eq_true_2
    by (symmetry; apply Hsame; apply list_elem_of_here).
  apply IH. intros ns' uri' Hin. apply Hsame. apply list_elem_of_further. exact Hin.
Qed.

Lemma ns_declarations_ambient_not_repeated_witness :
  ns_declarations [(Some "html", "http://www.w3.org/1999/xhtml")] xmlns_nsmap
                  [("class", "intro")]
  = [("class", "intro")].
Proof.
  apply (ns_declarations_ambient_not_repeated
           [(Some "html", "http://www.w3.org/1999/xhtml")] xmlns_nsmap
           [("class", "intro")]).
  intros ns uri Hin. apply list_elem_of_singleton in Hin. injection Hin as -> ->.
  reflexivity.
Defined.

(** X8.  A namespace declaration in scope on an element that the ambient
    namespace map does not have with the same URI (another URI for the
    prefix, or no entry) is written on the element, with the element's
    URI. *)
Theorem ns_declarations_differing_declared
    (own previous : list (option string * string)) (attrib : attrs)
    (ns : option string) (uri : string) :
  NoDup (map fst own) ->
  (ns, uri) ∈ own ->
  nsmap_get previous ns <> Some uri ->
  attrs_get (ns_declarations own previous attrib) (ns_key ns) = Some uri.
Proof.
  revert attrib. induction own as [|[ns0 uri0] rest IH]; intros attrib Hnodup Hin Hdiff.
  - inversion Hin.
  - cbn [map fst] in Hnodup. apply NoDup_cons in Hnodup as [Hfresh Hnodup].
    apply elem_of_cons in Hin as [Heq|Hin].
    + injection Heq as <- <-. cbn [ns_declarations].
      rewrite bool_decide_eq_false_2 by congruence.
      assert (Hrest : forall ns' uri', (ns', uri') ∈ rest -> ns_key ns' <> ns_key ns).
      { intros ns' uri' Hin' Hkey. apply ns_key_inj in Hkey. subst ns'.
        apply Hfresh. apply list_elem_of_fmap. exists (ns, uri'). split; [reflexivity|exact Hin']. }
      destruct ns as [n|]; rewrite (ns_declarations_other _ _ _ Hrest);
        rewrite attrs_get_dict_set, String.eqb_refl; reflexivity.
    + cbn [ns_declarations].
      destruct (bool_decide (Some uri0 = nsmap_get previous ns0)); [apply IH; assumption|].
      destruct ns0 as [n|]; apply IH; assumption.
Qed.

Lemma ns_declarations_differing_declared_witness :
  attrs_get (ns_declarations [(Some "html", "http://www.w3.org/TR/REC-html40")]
                             xmlns_nsmap [])
            (ns_key (Some "html"))
  = Some "http://www.w3.org/TR/REC-html40".
Proof.
  apply (ns_declarations_differing_declared
           [(Some "html", "http://www.w3.org/TR/REC-html40")] xmlns_nsmap []
           (Some "html") "http://www.w3.org/TR/REC-html40").
  - apply NoDup_cons. split; [intros H; inversion H | apply NoDup_nil_2].
  - apply list_elem_of_here.
  - vm_compute. discriminate.
Defined.

(** ** First-match rules *)

Lemma chain_objects_app (g : graph) (entity : option term) (ps qs : list string) :
  chain_objects g entity (ps ++ qs)
  = (chain_objects g entity ps ++ chain_objects g entity qs)%list.
Proof. unfold chain_objects. rewrite map_app, concat_app. reflexivity. Qed.

Lemma chain_objects_none (g : graph) (entity : option term) (ps : list string) :
  (forall q, q ∈ ps -> objects g entity q = []) -> chain_objects g entity ps = [].
Proof.
  unfold chain_objects. induction ps as [|p ps IH]; intros H; [reflexivity|].
  cbn [map concat]. rewrite (H p) by apply list_elem_of_here.
  apply IH. intros q Hq. apply H. apply list_elem_of_further. exact Hq.
Qed.

(** X9.  A first-match rule writes one element, for the first object of
    the first predicate of its priority list that has an object; predicates
    later in the list, and further objects, are not looked at. *)
Theorem find_first_takes_first_match
    (ext : externals) (g : graph) (name : string) (before after : list string)
    (p : string) (rich : bool) (entity : option term) (o : term) (rest : list term)
    (xg : xmlgen) :
  (forall q, q ∈ before -> objects g entity q = []) ->
  objects g entity p = o :: rest ->
  _find_first ext g name (before ++ p :: after) rich entity xg
  = if rich then descriptive_text_element ext name o [] xg
    else Ok (textualElement name [] (term_str o) xg).
Proof.
  intros Hbefore Hp. unfold _find_first.
  rewrite chain_objects_app, (chain_objects_none _ _ _ Hbefore).
  unfold chain_objects. cbn [map concat app]. rewrite Hp. reflexivity.
Qed.

Lemma find_first_takes_first_match_witness :
  serialize_title Sample.ext Sample2.titled (Some Sample2.college) new_xmlgen
  = Ok (textualElement "dc:title" [] "College (rdfs)" new_xmlgen).
Proof.
  apply (find_first_takes_first_match Sample.ext Sample2.titled "dc:title"
           [NS.skos ++ "prefLabel"] [NS.dcterms ++ "title"; NS.dc ++ "title"]
           (NS.rdfs ++ "label") false (Some Sample2.college)
           (plain_literal "College (rdfs)") [] new_xmlgen).
  - intros q Hq. apply list_elem_of_singleton in Hq. subst q. reflexivity.
  - reflexivity.
Defined.

(** ** Identifiers and the common elements *)

Lemma for_each_pure {A : Type} (l : list A) (f : xmlgen -> A -> xmlgen) (xg : xmlgen) :
  for_each l (fun x xg => Ok (f xg x)) xg = Ok (fold_left f l xg).
Proof.
  revert xg. induction l as [|x l IH]; intros xg; [reflexivity|].
  cbn [for_each bind fold_left]. apply IH.
Qed.

(** X10.  For an entity about which the graph says nothing,
    [serialize_common] raises nothing and writes no title, URL or
    description; it writes one identifier, the entity's own URI, when the
    entity is named by a URI, and nothing at all for a blank node. *)
Theorem serialize_common_entity_without_facts
    (ext : externals) (g : graph) (entity : term) (xg : xmlgen) :
  (forall p, objects g (Some entity) p = []) ->
  serialize_common ext g (Some entity) xg
  = Ok match entity with
       | URIRef u => textualElement "dc:identifier" [] u xg
       | _ => xg
       end.
Proof.
  intros Hnone.
  assert (Hchain : forall ps, chain_objects g (Some entity) ps = [])
    by (intros ps; apply chain_objects_none; intros q _; apply Hnone).
  assert (Hfirst : forall name ps rich x,
             _find_first ext g name ps rich (Some entity) x = Ok x)
    by (intros name ps rich x; unfold _find_first; rewrite Hchain; reflexivity).
  unfold serialize_common, serialize_identifiers, plain_identifiers,
    serialize_title, serialize_url, serialize_description.
  rewrite Hnone, Hchain. cbn [for_each bind omap].
  change (list_to_set (list_omap _ _ _ [])) with (∅ : gset string).
  rewrite (right_id_L ∅ (∪)).
  destruct entity as [u|b|l]; rewrite ?elements_singleton, ?elements_empty;
    cbn [for_each bind]; repeat (rewrite Hfirst; cbn [bind]); reflexivity.
Qed.

Lemma serialize_common_entity_without_facts_witness :
  serialize_common Sample.ext Sample.located (Some (URIRef "http://example.org/nowhere"))
                   new_xmlgen
  = Ok (textualElement "dc:identifier" [] "http://example.org/nowhere" new_xmlgen).
Proof.
  apply (serialize_common_entity_without_facts Sample.ext Sample.located
           (URIRef "http://example.org/nowhere") new_xmlgen).
  intros p. vm_compute. reflexivity.
Defined.

(** X11.  For an entity without notations, [serialize_identifiers] writes
    one plain [dc:identifier] element per distinct value among the entity's
    own URI and the literals under [dc:identifier] and
    [dcterms:identifier]: a value found several times is written once, and
    identifiers that are not literals are left out. *)
Theorem serialize_identifiers_plain_once (g : graph) (entity : option term) (xg : xmlgen) :
  objects g entity (NS.skos ++ "notation") = [] ->
  exists ids,
    serialize_identifiers g entity xg
    = Ok (fold_left (fun x id => textualElement "dc:identifier" [] id x) ids xg)
    /\ NoDup ids
    /\ forall id,
         id ∈ ids
         <-> entity = Some (URIRef id)
             \/ exists p l, p ∈ identifiers /\ Literal l ∈ objects g entity p
                            /\ lexical l = id.
Proof.
  intros Hnotation. exists (elements (plain_identifiers g entity)).
  split; [|split].
  - unfold serialize_identifiers. rewrite Hnotation. cbn [for_each bind].
    apply (for_each_pure _ (fun x id => textualElement "dc:identifier" [] id x)).
  - apply NoDup_elements.
  - intros id. rewrite elem_of_elements. unfold plain_identifiers.
    rewrite elem_of_union, elem_of_list_to_set, list_elem_of_omap.
    assert (Hown : id ∈ match entity with
                        | Some (URIRef u) => ({[ u ]} : gset string)
                        | _ => ∅
                        end
                   <-> entity = Some (URIRef id)).
    { destruct entity as [[u|b|l]|]; rewrite ?elem_of_singleton;
        split; intros H; try congruence; try (exfalso; set_solver). }
    rewrite Hown. clear Hown.
    unfold chain_objects, identifiers. cbn [map concat]. rewrite app_nil_r.
    split.
    + intros [H|(obj & Hin & Hobj)]; [left; exact H | right].
      destruct obj as [u|b|l]; try discriminate Hobj. injection Hobj as <-.
      apply elem_of_app in Hin as [Hin|Hin].
      * exists (NS.dc ++ "identifier")%string, l.
        split; [apply list_elem_of_here | split; [exact Hin | reflexivity]].
      * exists (NS.dcterms ++ "identifier")%string, l.
        split; [apply list_elem_of_further, list_elem_of_here
               | split; [exact Hin | reflexivity]].
    + intros [H|(p & l & Hp & Hin & Hl)]; [left; exact H | right].
      exists (Literal l). split; [|cbn; congruence].
      apply elem_of_app.
      apply elem_of_cons in Hp as [->|Hp]; [left; exact Hin|].
      apply list_elem_of_singleton in Hp. subst p. right; exact Hin.
Qed.

Lemma serialize_identifiers_plain_once_witness :
  exists ids,
    serialize_identifiers Sample2.titled (Some Sample2.college) new_xmlgen
    = Ok (fold_left (fun x id => textualElement "dc:identifier" [] id x) ids new_xmlgen)
    /\ NoDup ids
    /\ forall id,
         id ∈ ids
         <-> Some Sample2.college = Some (URIRef id)
             \/ exists p l, p ∈ identifiers
                            /\ Literal l ∈ objects Sample2.titled (Some Sample2.college) p
                            /\ lexical l = id.
Proof.
  apply (serialize_identifiers_plain_once Sample2.titled (Some Sample2.college) new_xmlgen).
  reflexivity.
Defined.

(** ** Dates *)

Lemma label_loop_None (g : graph) (ps : list string) : label_loop g None ps None = None.
Proof. induction ps as [|p ps IH]; [reflexivity|]. cbn [label_loop graph_value truthy]. exact IH. Qed.

(** X12.  What [serialize_date] does with a predicate that is absent or
    has a literal value: nothing for an absent predicate; [TypeError] for a
    literal that rdflib converted to a date or a date-time; the text as it
    stands, without a [dtf] attribute, for a literal that converts to
    nothing or to a string and is not empty; and nothing for a literal that
    converts to any other value. *)
Theorem serialize_date_literal_cases
    (ext : externals) (g : graph) (entity : option term) (prop name : string)
    (xg : xmlgen) :
  (graph_value g entity prop = None ->
   serialize_date ext g entity prop name xg = Ok xg)
  /\ (forall l,
        graph_value g entity prop = Some (Literal l) ->
        serialize_date ext g entity prop name xg
        = if is_date (toPython l) then Raise TypeError
          else if is_str (toPython l) && py_bool (toPython l)
               then Ok (textualElement name [] (py_text (toPython l)) xg)
               else Ok xg).
Proof.
  split.
  - intros Hv. unfold serialize_date, date_parts. rewrite Hv.
    cbn [graph_value of_option py_or py_bool]. rewrite label_loop_None. reflexivity.
  - intros l Hv. unfold serialize_date, date_parts. rewrite Hv.
    unfold toPython.
    destruct (value l) as [[s|y m d|y m d hh mm ss|b]|] eqn:Hval; cbn; rewrite ?Hval.
    + destruct (Py.str_bool s) eqn:Hs; cbn; unfold or_empty; cbn; rewrite ?Hs;
        reflexivity.
    + reflexivity.
    + reflexivity.
    + reflexivity.
    + destruct (Py.str_bool (lexical l)) eqn:Hs; cbn; unfold or_empty; cbn;
        rewrite ?Hval, ?Hs; reflexivity.
Qed.

Lemma serialize_date_literal_cases_witness :
  serialize_date Sample.ext (Sample.dated (NS.xcri ++ "end") (mkLiteral "TBC" None None None))
                 (Some Sample.presentation) (NS.xcri ++ "end") "xcri:end" new_xmlgen
  = Ok (textualElement "xcri:end" [] "TBC" new_xmlgen).
Proof.
  apply (proj2 (serialize_date_literal_cases Sample.ext
                  (Sample.dated (NS.xcri ++ "end") (mkLiteral "TBC" None None None))
                  (Some Sample.presentation) (NS.xcri ++ "end") "xcri:end" new_xmlgen)
               (mkLiteral "TBC" None None None)).
  reflexivity.
Defined.

(** X13.  When the value of a date predicate is a resource with a label,
    the label is the text of the element, and the machine-readable value of
    the resource ([time:inXSDDateTime], or else [rdf:value]) is its [dtf]
    attribute if there is one; the date parser is not called. *)
Theorem serialize_date_resource_with_label
    (ext : externals) (g : graph) (entity : option term) (prop name : string)
    (dt label : term) (xg : xmlgen) :
  graph_value g entity prop = Some dt ->
  is_Literal (Some dt) = false ->
  label_loop g (Some dt) labels None = Some label ->
  term_bool label = true ->
  serialize_date ext g entity prop name xg
  = Ok (textualElement name
          (let machine :=
             py_or (of_option (graph_value g (Some dt) (NS.time ++ "inXSDDateTime")))
                   (of_option (graph_value g (Some dt) (NS.rdf ++ "value"))) in
           if py_bool machine then [("dtf", py_text machine)] else [])
          (term_str label) xg).
Proof.
  intros Hv Hres Hlabel Htrue. unfold serialize_date, date_parts. rewrite Hv.
  assert (Hbranch : forall (A : Type) (a : literal -> A) (b : A),
             match dt with Literal l => a l | _ => b end = b)
    by (intros A a b; destruct dt; [reflexivity | reflexivity | discriminate Hres]).
  rewrite Hbranch. rewrite Hlabel. cbv zeta.
  set (machine := py_or _ _).
  cbn [of_option py_bool]. rewrite Htrue, orb_true_r. cbn [negb bind].
  unfold or_empty. cbn [py_bool py_text]. rewrite Htrue. reflexivity.
Qed.

Lemma serialize_date_resource_with_label_witness :
  serialize_date Sample2.ext Sample2.timed_labelled (Some Sample.presentation)
                 (NS.mlo ++ "start") "mlo:start" new_xmlgen
  = Ok (textualElement "mlo:start" [("dtf", "2024-03-15")] "Spring term" new_xmlgen).
Proof.
  apply (serialize_date_resource_with_label Sample2.ext Sample2.timed_labelled
           (Some Sample.presentation) (NS.mlo ++ "start") "mlo:start"
           Sample2.instant (plain_literal "Spring term") new_xmlgen);
    reflexivity.
Defined.

(** X14.  When the value of a date predicate is a resource without a
    label whose [time:inXSDDateTime] value is a literal, the literal is the
    [dtf] attribute and its text goes to the date parser: a date that
    parses is written in the long format of its datatype ([xsd:date]:
    weekday and date; [xsd:dateTime]: time, weekday and date), and when the
    parser raises [ValueError] the text is written as it is. *)
Theorem serialize_date_resource_formatted
    (ext : externals) (g : graph) (entity : option term) (prop name : string)
    (dt : term) (ld : literal) (xg : xmlgen) :
  graph_value g entity prop = Some dt ->
  is_Literal (Some dt) = false ->
  truthy (label_loop g (Some dt) labels None) = false ->
  graph_value g (Some dt) (NS.time ++ "inXSDDateTime") = Some (Literal ld) ->
  term_bool (Literal ld) = true ->
  (forall parsed,
      dateutil_parse_str ext (lexical ld) = Ok parsed ->
      datatype ld = Some (NS.xsd ++ "date") ->
      serialize_date ext g entity prop name xg
      = Ok (textualElement name [("dtf", lexical ld)] (strftime_date parsed) xg))
  /\ (forall parsed,
        dateutil_parse_str ext (lexical ld) = Ok parsed ->
        datatype ld = Some (NS.xsd ++ "dateTime") ->
        serialize_date ext g entity prop name xg
        = Ok (textualElement name [("dtf", lexical ld)] (strftime_datetime parsed) xg))
  /\ (dateutil_parse_str ext (lexical ld) = Raise ValueError ->
      serialize_date ext g entity prop name xg
      = Ok (textualElement name [("dtf", lexical ld)] (lexical ld) xg)).
Proof.
  intros Hv Hres Hlabel Hmachine Htrue.
  assert (Hbranch : forall (A : Type) (a : literal -> A) (b : A),
             match dt with Literal l => a l | _ => b end = b)
    by (intros A a b; destruct dt; [reflexivity | reflexivity | discriminate Hres]).
  assert (Hrun : serialize_date ext g entity prop name xg
                 = do content' <-
                     match dateutil_parse_str ext (lexical ld) with
                     | Raise ValueError => Ok (PTerm (Literal ld))
                     | Raise e => Raise e
                     | OutOfFuel => OutOfFuel
                     | Ok parsed =>
                         if bool_decide (datatype ld = Some (NS.xsd ++ "date"))
                         then Ok (PNative (PyStr (strftime_date parsed)))
                         else if bool_decide (datatype ld = Some (NS.xsd ++ "dateTime"))
                         then Ok (PNative (PyStr (strftime_datetime parsed)))
                         else Ok (of_option (label_loop g (Some dt) labels None))
                     end in
                   Ok (textualElement name [("dtf", lexical ld)] (or_empty content') xg)).
  { assert (Hm : forall other, py_or (PTerm (Literal ld)) other = PTerm (Literal ld))
      by (intros other; unfold py_or; cbn [py_bool]; rewrite Htrue; reflexivity).
    unfold serialize_date, date_parts. rewrite Hv, Hbranch, Hmachine.
    cbn [of_option]. rewrite Hm.
    rewrite py_bool_of_option, Hlabel. cbn [orb negb py_bool py_text term_str].
    rewrite Htrue. cbn [orb negb dateutil_parse term_str py_datatype term_datatype bind].
    destruct (dateutil_parse_str ext (lexical ld)) as [parsed|[]|]; reflexivity. }
  assert (Htext : forall s, or_empty (PNative (PyStr s)) = s).
  { intros s. unfold or_empty. cbn [py_bool pyvalue_bool py_text].
    destruct s; reflexivity. }
  rewrite Hrun. split; [|split].
  - intros parsed Hparse Hdate. rewrite Hparse, Hdate.
    rewrite bool_decide_eq_true_2 by reflexivity. cbn [bind]. rewrite Htext. reflexivity.
  - intros parsed Hparse Hdate. rewrite Hparse, Hdate.
    rewrite bool_decide_eq_false_2 by discriminate.
    rewrite bool_decide_eq_true_2 by reflexivity. cbn [bind]. rewrite Htext. reflexivity.
  - intros Hparse. rewrite Hparse. cbn [bind]. unfold or_empty.
    cbn [py_bool py_text term_str]. rewrite Htrue. reflexivity.
Qed.

Lemma serialize_date_resource_formatted_witness :
  serialize_date Sample2.ext Sample2.timed (Some Sample.presentation)
                 (NS.mlo ++ "start") "mlo:start" new_xmlgen
  = Ok (textualElement "mlo:start" [("dtf", "2024-03-15")] "Friday, 15 March 2024"
          new_xmlgen).
Proof.
  apply (proj1 (serialize_date_resource_formatted Sample2.ext Sample2.timed
                  (Some Sample.presentation) (NS.mlo ++ "start") "mlo:start"
                  Sample2.instant Sample.date_literal new_xmlgen
                  eq_refl eq_refl eq_refl eq_refl eq_refl)
               (mkDatetime 2024 3 15 0 0 0));
    reflexivity.
Defined.

(** ** The stack driver and plain recursion *)

Lemma bind_assoc {A B C : Type} (r : result A) (f : A -> result B) (k : B -> result C) :
  (do y <- (do x <- r in f x) in k y) = (do x <- r in do y <- f x in k y).
Proof. destruct r; reflexivity. Qed.

(** The loop of [serialize], given the turns its stack can take, computes
    what running the generators of the stack one after the other does. *)
Lemma serialize_loop_run (n : nat) :
  forall stack xg,
    stack_turns stack <= n ->
    serialize_loop n stack xg = Some (run_stack stack xg).
Proof.
  induction n as [|n IH]; intros [|gen below] xg Hn; cbn [serialize_loop run_stack];
    try reflexivity.
  - destruct gen; cbn [stack_turns fold_right turns] in Hn; lia.
  - destruct (step (gen :: below) xg) as [st| |] eqn:Hstep.
    + rewrite IH by (apply step_turns in Hstep; lia). f_equal.
      destruct gen as [final|act item rest]; cbn [step run] in *.
      * destruct (final xg); cbn [bind] in *; try discriminate Hstep.
        injection Hstep as <-. reflexivity.
      * destruct (act xg) as [x1| |]; cbn [bind] in *; try discriminate Hstep.
        injection Hstep as <-. cbn [fst snd].
        destruct item as [nested|]; cbn [run_stack bind]; rewrite ?bind_assoc;
          reflexivity.
    + destruct gen as [final|act item rest]; cbn [step run] in *.
      * destruct (final xg); cbn [bind] in *; try discriminate Hstep.
        injection Hstep as <-. reflexivity.
      * destruct (act xg) as [x1| |]; cbn [bind] in *; try discriminate Hstep.
        injection Hstep as <-. reflexivity.
    + destruct gen as [final|act item rest]; cbn [step run] in *.
      * destruct (final xg); cbn [bind] in *; try discriminate Hstep. reflexivity.
      * destruct (act xg) as [x1| |]; cbn [bind] in *; try discriminate Hstep.
        reflexivity.
Qed.

(** X15.  The explicit stack of [serialize] gives what a depth-first
    recursion over the generators gives: each generator yielded is run to
    its end before the generator that yielded it goes on, so the writes
    happen in document order, and an exception or an unfinished loop in one
    generator ends the whole run in the same way. *)
Theorem serialize_stack_is_depth_first
    (ext : externals) (g : graph) (fuel : nat) (simple : bool) (catalog : option term)
    (sink : list sax) :
  serialize ext g fuel simple catalog sink
  = do xg <- run (_serialize ext g fuel simple catalog) (mkXg sink 0 false) in
    Ok (stream xg).
Proof.
  unfold serialize. rewrite serialize_loop_run by (cbn [stack_turns fold_right]; lia).
  cbn [finished run_stack]. rewrite bind_assoc.
  destruct (run (_serialize ext g fuel simple catalog) (mkXg sink 0 false)); reflexivity.
Qed.

(** ** The document is well nested *)

Lemma tidy_ext (a b : action) : (forall xg, a xg = b xg) -> tidy a -> tidy b.
Proof. intros Heq Ha xg xg' H. rewrite <- Heq in H. exact (Ha _ _ H). Qed.

Lemma run_prepend (a : action) (gen : generator) (xg : xmlgen) :
  run (prepend a gen) xg = do xg' <- a xg in run gen xg'.
Proof.
  destruct gen as [final|act item rest]; cbn [prepend run]; [reflexivity|].
  rewrite bind_assoc. reflexivity.
Qed.

Lemma run_yield_each_tidy {A : Type} (l : list A) (f : A -> generator) (rest : generator) :
  (forall x, tidy (run (f x))) -> tidy (run rest) -> tidy (run (yield_each l f rest)).
Proof.
  intros Hf Hrest. induction l as [|x l IH]; cbn [yield_each fold_right]; [exact Hrest|].
  apply (tidy_ext (fun xg => do xg' <- run (f x) xg in
                             run (fold_right (fun x r => Yield skip (Some (f x)) r) rest l)
                                 xg')).
  - intros xg. reflexivity.
  - apply (tidy_seq (run (f x))); [apply Hf | exact IH].
Qed.

(** An element generator: the opening tag, the content generator, the
    closing tag. *)
Lemma run_element_tidy (name : string) (attrib : attrs) (content : generator) :
  tidy (run content) ->
  tidy (run (Yield (fun xg => Ok (startElement name attrib xg)) (Some content)
               (Stop (fun xg => Ok (endElement name xg))))).
Proof.
  intros Hc.
  apply (tidy_ext (fun xg => do xg' <- run content (startElement name attrib xg) in
                             Ok (endElement name xg'))).
  - intros xg. reflexivity.
  - apply (element_tidy name attrib (run content)). exact Hc.
Qed.

Section ProducersTidy.

Variable ext : externals.
Variable g : graph.
Variable fuel : nat.

Lemma serialize_common_descriptive_elements_tidy (entity : option term) :
  tidy (serialize_common_descriptive_elements ext g entity).
Proof.
  unfold serialize_common_descriptive_elements.
  apply tidy_for_each. intros [prop name].
  apply tidy_for_each. intros obj. apply descriptive_text_element_tidy.
Qed.

Lemma serialize_typed_descriptive_elements_tidy (entity : option term) :
  tidy (serialize_typed_descriptive_elements ext g entity).
Proof.
  unfold serialize_typed_descriptive_elements.
  apply tidy_for_each. intros [prop name].
  destruct (graph_value g entity prop) as [v|]; [|apply tidy_skip].
  destruct (term_bool v); [apply descriptive_text_element_tidy | apply tidy_skip].
Qed.

Lemma serialize_controlled_vocabularies_tidy (presentation : option term) :
  tidy (serialize_controlled_vocabularies g presentation).
Proof.
  unfold serialize_controlled_vocabularies.
  apply tidy_for_each. intros [[prop name] scheme]. unfold controlled_vocabulary.
  destruct (negb (truthy (graph_value g presentation prop))); [apply tidy_skip|].
  apply (tidy_let (find_notation _ scheme)). intros notation.
  destruct (negb _); [apply tidy_skip | apply textual_tidy].
Qed.

Lemma serialize_subjects_tidy (course : option term) :
  tidy (serialize_subjects g course).
Proof.
  unfold serialize_subjects. apply tidy_for_each. intros subject.
  unfold subject_element.
  apply (tidy_let (subject_attrib_content g subject)). intros [attrib content].
  destruct (negb _ || _); [apply textual_tidy | apply tidy_skip].
Qed.

Lemma serialize_date_tidy (entity : option term) (prop name : string) :
  tidy (serialize_date ext g entity prop name).
Proof.
  unfold serialize_date. destruct (date_parts g entity prop) as [dtf content].
  destruct (negb _); [apply tidy_skip|].
  match goal with
  | |- tidy (fun xg => do c <- ?r in _) => apply (tidy_let r)
  end.
  intros content'. apply textual_tidy.
Qed.

Lemma venue_element_run_tidy (venue : term) : tidy (run (venue_element ext g fuel venue)).
Proof.
  apply (tidy_ext
           (fun xg =>
              do x <- (fun y =>
                         do y' <- (fun z => do z' <- serialize_common ext g (Some venue) z in
                                            serialize_location g fuel (Some venue) z')
                                    (startElement "xcri:provider" [] y) in
                         Ok (endElement "xcri:provider" y'))
                        (startElement "xcri:venue" [] xg) in
              Ok (endElement "xcri:venue" x))).
  - intros xg. cbn [venue_element run bind].
    destruct (serialize_common ext g (Some venue) _) as [x1| |]; cbn [bind];
      [|reflexivity ..].
    destruct (serialize_location g fuel (Some venue) x1); reflexivity.
  - apply (element_tidy "xcri:venue" []
             (fun y => do y' <- (fun z => do z' <- serialize_common ext g (Some venue) z in
                                          serialize_location g fuel (Some venue) z')
                                  (startElement "xcri:provider" [] y) in
                       Ok (endElement "xcri:provider" y'))).
    apply (element_tidy "xcri:provider" []
             (fun z => do z' <- serialize_common ext g (Some venue) z in
                       serialize_location g fuel (Some venue) z')).
    apply tidy_seq; [apply serialize_common_tidy | apply serialize_location_tidy].
Qed.

Lemma presentation_element_run_tidy (presentation : term) :
  tidy (run (presentation_element ext g fuel presentation)).
Proof.
  apply run_element_tidy. unfold presentation_content.
  match goal with
  | |- tidy (run (prepend ?a ?gen)) =>
      apply (tidy_ext (fun xg => do xg' <- a xg in run gen xg'));
      [intros xg; symmetry; apply run_prepend | apply (tidy_seq a (run gen))]
  end.
  - repeat (apply tidy_seq;
            [first [ apply serialize_common_tidy
                   | apply serialize_common_descriptive_elements_tidy
                   | apply serialize_date_tidy
                   | apply _find_first_tidy ] |]).
    apply serialize_controlled_vocabularies_tidy.
  - apply run_yield_each_tidy; [apply venue_element_run_tidy | apply tidy_skip].
Qed.

Lemma course_element_run_tidy (course : term) :
  tidy (run (course_element ext g fuel course)).
Proof.
  apply run_element_tidy. unfold course_content.
  set (tail := yield_each _ _ _).
  assert (Htail : tidy (run tail))
    by (apply run_yield_each_tidy; [apply presentation_element_run_tidy | apply tidy_skip]).
  apply (tidy_ext
           (fun xg =>
              do x1 <- serialize_common ext g (Some course) xg in
              do x2 <- serialize_common_descriptive_elements ext g (Some course) x1 in
              do x3 <- serialize_typed_descriptive_elements ext g (Some course) x2 in
              do x4 <- serialize_subjects g (Some course) x3 in
              run tail x4)).
  - intros xg. cbn [run bind].
    destruct (serialize_common ext g (Some course) xg) as [x1| |]; cbn [bind];
      [|reflexivity ..].
    destruct (serialize_common_descriptive_elements ext g (Some course) x1) as [x2| |];
      cbn [bind]; [|reflexivity ..].
    destruct (serialize_typed_descriptive_elements ext g (Some course) x2) as [x3| |];
      cbn [bind]; [|reflexivity ..].
    destruct (serialize_subjects g (Some course) x3) as [x4| |]; reflexivity.
  - apply tidy_seq; [apply serialize_common_tidy|].
    apply tidy_seq; [apply serialize_common_descriptive_elements_tidy|].
    apply tidy_seq; [apply serialize_typed_descriptive_elements_tidy|].
    apply tidy_seq; [apply serialize_subjects_tidy | exact Htail].
Qed.

Lemma provider_content_run_tidy (provider : option term) (courses : list term) :
  tidy (run (provider_content ext g fuel provider courses)).
Proof.
  unfold provider_content.
  set (tail := yield_each _ _ _).
  assert (Htail : tidy (run tail))
    by (apply run_yield_each_tidy; [apply course_element_run_tidy | apply tidy_skip]).
  destruct (truthy provider); [|exact Htail].
  apply (tidy_ext
           (fun xg =>
              do x1 <- serialize_common ext g provider xg in
              do x2 <- serialize_location g fuel provider x1 in
              run tail x2)).
  - intros xg. cbn [run bind].
    destruct (serialize_common ext g provider xg) as [x1| |]; cbn [bind];
      [|reflexivity ..].
    destruct (serialize_location g fuel provider x1); reflexivity.
  - apply tidy_seq; [apply serialize_common_tidy|].
    apply tidy_seq; [apply serialize_location_tidy | exact Htail].
Qed.

Lemma provider_element_run_tidy (provider : option term) (courses : list term) :
  tidy (run (provider_element ext g fuel provider courses)).
Proof. apply run_element_tidy, provider_content_run_tidy. Qed.

Lemma catalog_content_run_tidy (simple : bool) (catalog : option term) :
  tidy (run (catalog_content ext g fuel simple catalog)).
Proof.
  unfold catalog_content.
  set (tail := match collect_courses g fuel {[catalog]} [] with
               | Ok _ => _ | Raise _ => _ | OutOfFuel => _ end).
  assert (Htail : tidy (run tail)).
  { subst tail. destruct (collect_courses g fuel {[catalog]} []) as [pcs|e|].
    - destruct simple.
      + apply (tidy_ext (run (provider_element ext g fuel
                                (graph_value g catalog (NS.dcterms ++ "publisher"))
                                (concat (map (fun pc => elements (snd pc)) pcs))))).
        * intros xg. cbn [run skip bind].
          destruct (run (provider_element ext g fuel _ _) xg); reflexivity.
        * apply provider_element_run_tidy.
      + apply run_yield_each_tidy; [intros pc; apply provider_element_run_tidy|].
        apply tidy_skip.
    - intros xg xg' H. discriminate H.
    - intros xg xg' H. discriminate H. }
  apply (tidy_ext (fun xg => do x1 <- serialize_common ext g catalog xg in run tail x1)).
  - intros xg. cbn [run bind].
    destruct (serialize_common ext g catalog xg); reflexivity.
  - apply tidy_seq; [apply serialize_common_tidy | exact Htail].
Qed.

End ProducersTidy.

(** X16.  Whenever [serialize] ends well, what it has added to the sink is
    one document: the XML declaration, the root element [xcri:catalog] with
    the namespace declarations, and inside it a sequence of events that
    closes every element it opens, in order, and nothing after the root
    element but the end of the document. *)
Theorem serialize_writes_one_well_nested_document
    (ext : externals) (g : graph) (fuel : nat) (simple : bool) (catalog : option term)
    (sink out : list sax) :
  serialize ext g fuel simple catalog sink = Ok out ->
  exists inner,
    out = (sink ++ [StartDocument; StartElement "xcri:catalog" (catalog_attrib ext)]
           ++ inner
           ++ [Characters (indent 0); EndElement "xcri:catalog"; EndDocument])%list
    /\ balanced inner.
Proof.
  unfold serialize. rewrite serialize_loop_run by (cbn [stack_turns fold_right]; lia).
  cbn [finished run_stack _serialize catalog_element run bind].
  set (x0 := startElement "xcri:catalog" (catalog_attrib ext)
               (startDocument (mkXg sink 0 false))).
  intros H.
  destruct (run (catalog_content ext g fuel simple catalog) x0) as [x1| |] eqn:Hrun;
    cbn [bind] in H; try discriminate H.
  assert (Hout : out = stream (endDocument (endElement "xcri:catalog" x1)))
    by congruence.
  clear H. rewrite Hout. clear Hout.
  destruct (catalog_content_run_tidy ext g fuel simple catalog _ _ Hrun)
    as (inner & [[Hs Hd] Hc] & Hb).
  exists inner. split; [|exact Hb].
  unfold endDocument, write. cbn [stream]. rewrite endElement_eq. cbn [stream].
  rewrite (Hc eq_refl), Hs, Hd. subst x0. rewrite startElement_eq.
  unfold startDocument, write, indentation. cbn [stream depth chars Z.eqb negb andb].
  rewrite <- ?app_assoc. reflexivity.
Qed.

Lemma serialize_writes_one_well_nested_document_witness :
  exists out inner,
    serialize Sample.ext Sample.small_catalogue 2 true (Some Sample.catalogue) [] = Ok out
    /\ out = ([] ++ [StartDocument; StartElement "xcri:catalog" (catalog_attrib Sample.ext)]
              ++ inner
              ++ [Characters (indent 0); EndElement "xcri:catalog"; EndDocument])%list
    /\ balanced inner.
Proof.
  eexists.
  assert (H : serialize Sample.ext Sample.small_catalogue 2 true (Some Sample.catalogue) []
              = Ok _) by (vm_compute; reflexivity).
  destruct (serialize_writes_one_well_nested_document _ _ _ _ _ _ _ H)
    as (inner & Hout & Hb).
  exists inner. split; [exact H|]. split; [exact Hout | exact Hb].
Defined.

(** ** The walk over nested catalogues *)

Lemma visit_member_keeps (g : graph) (st : gset (option term) * list (option term * gset term))
    (member : term) (c : option term) :
  c ∈ fst st -> c ∈ fst (visit_member g st member).
Proof.
  destruct st as [catalogs pcs]. unfold visit_member.
  destruct (contains g member _ (URIRef (NS.xcri ++ "course"))); [auto|].
  destruct (contains g member _ (URIRef (NS.xcri ++ "catalog"))); [|auto].
  cbn [fst]. intros H. apply elem_of_union. left; exact H.
Qed.

Lemma fold_visit_keeps (g : graph) (members : list term) :
  forall st c, c ∈ fst st -> c ∈ fst (fold_left (visit_member g) members st).
Proof.
  induction members as [|m members IH]; intros st c H; [exact H|].
  cbn [fold_left]. apply IH, visit_member_keeps, H.
Qed.

Lemma fold_visit_adds (g : graph) (members : list term) (m : term) :
  m ∈ members -> nested_catalog g m = true ->
  forall st, Some m ∈ fst (fold_left (visit_member g) members st).
Proof.
  intros Hin Hnested. apply andb_true_iff in Hnested as [Hcourse Hcatalog].
  apply negb_true_iff in Hcourse.
  induction members as [|m' members IH]; intros st; [inversion Hin|].
  cbn [fold_left]. apply elem_of_cons in Hin as [<-|Hin]; [|apply IH; exact Hin].
  apply fold_visit_keeps. destruct st as [catalogs pcs]. unfold visit_member.
  rewrite Hcourse, Hcatalog. cbn [fst]. apply elem_of_union. right.
  apply elem_of_singleton. reflexivity.
Qed.

(** With a catalogue of a circle of nested catalogues on its work list,
    the collecting loop never has an empty work list. *)
Lemma collect_courses_circle
    (g : graph) (circle : gset (option term)) :
  (forall c, c ∈ circle ->
             exists m, m ∈ objects g c (NS.skos ++ "member")
                       /\ nested_catalog g m = true /\ Some m ∈ circle) ->
  forall n catalogs provider_courses,
    (exists c, c ∈ catalogs /\ c ∈ circle) ->
    collect_courses g n catalogs provider_courses = OutOfFuel.
Proof.
  intros Hcircle n. induction n as [|n IH]; intros catalogs pcs (c & Hc & Hin);
    [reflexivity|].
  cbn [collect_courses].
  destruct (elements catalogs) as [|c0 rest] eqn:Helems.
  - apply elem_of_elements in Hc. rewrite Helems in Hc. inversion Hc.
  - destruct (fold_left (visit_member g) (objects g c0 (NS.skos ++ "member"))
                        (catalogs ∖ {[c0]}, pcs)) as [catalogs' pcs'] eqn:Hfold.
    apply IH.
    destruct (decide (c0 ∈ circle)) as [Hc0|Hc0].
    + destruct (Hcircle c0 Hc0) as (m & Hm & Hnested & Hmc).
      exists (Some m). split; [|exact Hmc].
      pose proof (fold_visit_adds g _ m Hm Hnested (catalogs ∖ {[c0]}, pcs)) as H.
      rewrite Hfold in H. exact H.
    + exists c. split; [|exact Hin].
      pose proof (fold_visit_keeps g (objects g c0 (NS.skos ++ "member"))
                    (catalogs ∖ {[c0]}, pcs) c) as H.
      rewrite Hfold in H. apply H. cbn [fst].
      apply elem_of_difference. split; [exact Hc|].
      intros Heq. apply elem_of_singleton in Heq. subst c0. contradiction.
Qed.

(** X17.  The loop of [catalog_content] that collects the courses of
    nested catalogues keeps no record of the catalogues it has visited: when
    its work list holds a catalogue from a set of catalogues each of which
    has a nested catalogue of the set among its members (catalogues nested
    in a circle), the work list never becomes empty and the loop does not
    end, whatever the fuel. *)
Theorem collect_courses_circle_never_ends
    (g : graph) (circle : gset (option term)) :
  (forall c, c ∈ circle ->
             exists m, m ∈ objects g c (NS.skos ++ "member")
                       /\ nested_catalog g m = true /\ Some m ∈ circle) ->
  forall n catalogs provider_courses,
    (exists c, c ∈ catalogs /\ c ∈ circle) ->
    collect_courses g n catalogs provider_courses = OutOfFuel.
Proof. exact (collect_courses_circle g circle). Qed.

Lemma collect_courses_circle_never_ends_witness :
  Some Sample2.catalogue_a
    ∈ ({[ Some Sample2.catalogue_a; Some Sample2.catalogue_b ]} : gset (option term))
  /\ forall n,
       collect_courses Sample2.nested_in_a_circle n {[ Some Sample2.catalogue_a ]} []
       = OutOfFuel.
Proof.
  split; [set_solver|]. intros n.
  apply (collect_courses_circle_never_ends Sample2.nested_in_a_circle
           {[ Some Sample2.catalogue_a; Some Sample2.catalogue_b ]}).
  - intros c Hc. apply elem_of_union in Hc as [Hc|Hc]; apply elem_of_singleton in Hc;
      subst c.
    + exists Sample2.catalogue_b. split; [vm_compute; apply list_elem_of_here|].
      split; [vm_compute; reflexivity|]. set_solver.
    + exists Sample2.catalogue_a. split; [vm_compute; apply list_elem_of_here|].
      split; [vm_compute; reflexivity|]. set_solver.
  - exists (Some Sample2.catalogue_a). split; set_solver.
Defined.

(** X18.  For a catalogue root that lies on such a circle of nested
    catalogues, [serialize] never ends well, whatever the fuel: it does not
    get past the collection of the courses. *)
Theorem serialize_circle_never_ends_well
    (ext : externals) (g : graph) (circle : gset (option term)) (simple : bool)
    (catalog : option term) (sink : list sax) :
  (forall c, c ∈ circle ->
             exists m, m ∈ objects g c (NS.skos ++ "member")
                       /\ nested_catalog g m = true /\ Some m ∈ circle) ->
  catalog ∈ circle ->
  forall fuel out, serialize ext g fuel simple catalog sink <> Ok out.
Proof.
  intros Hcircle Hin fuel out.
  unfold serialize. rewrite serialize_loop_run by (cbn [stack_turns fold_right]; lia).
  cbn [finished run_stack _serialize catalog_element run bind]. unfold catalog_content.
  rewrite (collect_courses_circle g circle Hcircle)
    by (exists catalog; split; [apply elem_of_singleton; reflexivity | exact Hin]).
  cbn [run bind fail_with].
  destruct (serialize_common ext g catalog _); discriminate.
Qed.

Lemma serialize_circle_never_ends_well_witness :
  Some Sample2.catalogue_a
    ∈ ({[ Some Sample2.catalogue_a; Some Sample2.catalogue_b ]} : gset (option term))
  /\ forall fuel out,
       serialize Sample.ext Sample2.nested_in_a_circle fuel true
                 (Some Sample2.catalogue_a) []
       <> Ok out.
Proof.
  split; [set_solver|].
  apply (serialize_circle_never_ends_well Sample.ext Sample2.nested_in_a_circle
           {[ Some Sample2.catalogue_a; Some Sample2.catalogue_b ]}).
  - intros c Hc. apply elem_of_union in Hc as [Hc|Hc]; apply elem_of_singleton in Hc;
      subst c.
    + exists Sample2.catalogue_b. split; [vm_compute; apply list_elem_of_here|].
      split; [vm_compute; reflexivity|]. set_solver.
    + exists Sample2.catalogue_a. split; [vm_compute; apply list_elem_of_here|].
      split; [vm_compute; reflexivity|]. set_solver.
  - set_solver.
Defined.

Lemma courses_of_add_course (provider : option term) (course : term)
    (d : list (option term * gset term)) :
  courses_of (add_course provider course d) = courses_of d ∪ {[ course ]}.
Proof.
  unfold courses_of. induction d as [|[p cs] d IH]; cbn [add_course].
  - cbn [map snd]. rewrite !union_list_cons, union_list_nil. cbn [snd].
    rewrite (right_id_L ∅ (∪)), (left_id_L ∅ (∪)). reflexivity.
  - destruct (bool_decide (p = provider)); cbn [map snd]; rewrite !union_list_cons.
    + rewrite <- (assoc_L (∪)), (comm_L (∪) {[course]}), (assoc_L (∪)). reflexivity.
    + rewrite IH, (assoc_L (∪)). reflexivity.
Qed.

Lemma add_course_provider (provider : option term) (course : term)
    (d : list (option term * gset term)) (p : option term) (cs : gset term) (m : term) :
  (p, cs) ∈ add_course provider course d -> m ∈ cs ->
  (m = course /\ p = provider) \/ exists cs', (p, cs') ∈ d /\ m ∈ cs'.
Proof.
  induction d as [|[p0 cs0] d IH]; cbn [add_course]; intros Hin Hm.
  - apply list_elem_of_singleton in Hin. injection Hin as -> ->.
    apply elem_of_singleton in Hm. left; auto.
  - destruct (bool_decide (p0 = provider)) eqn:Hp.
    + apply bool_decide_eq_true_1 in Hp. subst p0.
      apply elem_of_cons in Hin as [Heq|Hin].
      * injection Heq as -> ->. apply elem_of_union in Hm as [Hm|Hm].
        -- right. exists cs0. split; [apply list_elem_of_here | exact Hm].
        -- apply elem_of_singleton in Hm. left; auto.
      * right. exists cs. split; [apply list_elem_of_further; exact Hin | exact Hm].
    + apply elem_of_cons in Hin as [Heq|Hin].
      * injection Heq as -> ->. right. exists cs0.
        split; [apply list_elem_of_here | exact Hm].
      * destruct (IH Hin Hm) as [H|(cs' & Hin' & Hm')]; [left; exact H|].
        right. exists cs'. split; [apply list_elem_of_further; exact Hin' | exact Hm'].
Qed.

(** What the pass over the members of a catalogue without nested
    catalogues does: the work list stays as it is, the members of type
    course are filed, each under the first provider that offers it. *)
Lemma fold_visit_flat (g : graph) (members : list term) :
  (forall m, m ∈ members -> nested_catalog g m = false) ->
  forall catalogs pcs,
    (forall p cs m, (p, cs) ∈ pcs -> m ∈ cs ->
                    p = graph_value_subject g (NS.mlo ++ "offers") (Some m)) ->
    exists pcs',
      fold_left (visit_member g) members (catalogs, pcs) = (catalogs, pcs')
      /\ (forall m, m ∈ courses_of pcs'
                    <-> m ∈ courses_of pcs
                        \/ (m ∈ members
                            /\ contains g m (NS.rdf ++ "type") (URIRef (NS.xcri ++ "course"))
                               = true))
      /\ (forall p cs m, (p, cs) ∈ pcs' -> m ∈ cs ->
                         p = graph_value_subject g (NS.mlo ++ "offers") (Some m)).
Proof.
  induction members as [|m0 members IH]; intros Hflat catalogs pcs Hfiled.
  - exists pcs. split; [reflexivity|]. split; [|exact Hfiled].
    intros m. split; [auto|]. intros [H|[H _]]; [exact H | inversion H].
  - assert (Hrest : forall m, m ∈ members -> nested_catalog g m = false)
      by (intros m Hm; apply Hflat, list_elem_of_further, Hm).
    pose proof (Hflat m0 (list_elem_of_here _ _)) as H0. unfold nested_catalog in H0.
    cbn [fold_left]. unfold visit_member at 2.
    destruct (contains g m0 (NS.rdf ++ "type") (URIRef (NS.xcri ++ "course"))) eqn:Hcourse.
    + destruct (IH Hrest catalogs
                  (add_course (graph_value_subject g (NS.mlo ++ "offers") (Some m0)) m0 pcs))
        as (pcs' & Hfold & Hcourses & Hfiled').
      { intros p cs m Hin Hm.
        destruct (add_course_provider _ _ _ _ _ _ Hin Hm) as [[-> ->]|(cs' & Hin' & Hm')];
          [reflexivity | exact (Hfiled p cs' m Hin' Hm')]. }
      exists pcs'. split; [exact Hfold|]. split; [|exact Hfiled'].
      intros m. rewrite Hcourses, courses_of_add_course, elem_of_union, elem_of_singleton.
      split.
      * intros [[H| ->]|[H Hc]].
        -- left; exact H.
        -- right. split; [apply list_elem_of_here | exact Hcourse].
        -- right. split; [apply list_elem_of_further; exact H | exact Hc].
      * intros [H|[H Hc]]; [left; left; exact H|].
        apply elem_of_cons in H as [->|H]; [left; right; reflexivity | right; auto].
    + cbn [negb andb] in H0. rewrite H0.
      destruct (IH Hrest catalogs pcs Hfiled) as (pcs' & Hfold & Hcourses & Hfiled').
      exists pcs'. split; [exact Hfold|]. split; [|exact Hfiled'].
      intros m. rewrite Hcourses. split.
      * intros [H|[H Hc]]; [left; exact H|].
        right. split; [apply list_elem_of_further; exact H | exact Hc].
      * intros [H|[H Hc]]; [left; exact H|].
        apply elem_of_cons in H as [->|H]; [congruence | right; auto].
Qed.

(** X19.  For a catalogue none of whose members is a nested catalogue, the
    collection of the courses ends at the second test of its loop; the
    courses collected are the members of type course, no other member, and
    each is filed under the first provider that offers it. *)
Theorem collect_courses_flat (g : graph) (catalog : option term) :
  (forall m, m ∈ objects g catalog (NS.skos ++ "member") -> nested_catalog g m = false) ->
  exists provider_courses,
    (forall n, collect_courses g (2 + n) {[ catalog ]} [] = Ok provider_courses)
    /\ (forall m, m ∈ courses_of provider_courses
                  <-> m ∈ objects g catalog (NS.skos ++ "member")
                      /\ contains g m (NS.rdf ++ "type") (URIRef (NS.xcri ++ "course"))
                         = true)
    /\ (forall p cs m, (p, cs) ∈ provider_courses -> m ∈ cs ->
                       p = graph_value_subject g (NS.mlo ++ "offers") (Some m)).
Proof.
  intros Hflat.
  destruct (fold_visit_flat g _ Hflat ({[catalog]} ∖ {[catalog]}) [])
    as (pcs & Hfold & Hcourses & Hfiled).
  { intros p cs m Hin. inversion Hin. }
  exists pcs. split; [|split; [|exact Hfiled]].
  - intros n. cbn [Nat.add collect_courses]. rewrite elements_singleton, Hfold.
    rewrite difference_diag_L, elements_empty. reflexivity.
  - intros m. rewrite Hcourses. unfold courses_of at 1. cbn [map union_list].
    split; [intros [H|H]; [set_solver | exact H] | auto].
Qed.

Lemma collect_courses_flat_witness :
  exists provider_courses,
    (forall n, collect_courses Sample.small_catalogue (2 + n) {[ Some Sample.catalogue ]} []
               = Ok provider_courses)
    /\ (forall m, m ∈ courses_of provider_courses
                  <-> m ∈ objects Sample.small_catalogue (Some Sample.catalogue)
                            (NS.skos ++ "member")
                      /\ contains Sample.small_catalogue m (NS.rdf ++ "type")
                                  (URIRef (NS.xcri ++ "course")) = true)
    /\ (forall p cs m, (p, cs) ∈ provider_courses -> m ∈ cs ->
                       p = graph_value_subject Sample.small_catalogue (NS.mlo ++ "offers")
                                               (Some m)).
Proof.
  apply (collect_courses_flat Sample.small_catalogue (Some Sample.catalogue)).
  intros m Hm. vm_compute in Hm. apply list_elem_of_singleton in Hm. subst m.
  vm_compute. reflexivity.
Defined.

(** ** Subjects of the JACS classification *)

(** X20.  For a subject that is a resource under the JACS prefix, the body
    of the emission loop of [serialize_subjects] never leaves the subject
    out.  Without a (truthy) notation it writes [dc:subject] with
    [xsi:type] [cdp:JACS3] as its only attribute, also when there is no
    label.  With a notation that is a literal with a datatype it writes
    [dc:subject] with the notation as [identifier] and with [xsi:type]
    [cdp:JACS3], whatever type the datatype would give.  With a notation
    that is not a literal, or a literal without a datatype, it raises
    [AttributeError] before the JACS test is reached. *)
Theorem subject_jacs_type_forced (g : graph) (subject : term) (xg : xmlgen) :
  is_Literal (Some subject) = false ->
  Py.startswith (term_str subject) "http://jacs.dataincubator.org/" = true ->
  let content := or_empty (of_option (label_loop g (Some subject) labels None)) in
  match subject_notation g subject with
  | None =>
      subject_element g subject xg
      = Ok (textualElement "dc:subject" [("xsi:type", "cdp:JACS3")] content xg)
  | Some n =>
      match notation_datatype n with
      | Some d =>
          exists attrib,
            subject_element g subject xg
            = Ok (textualElement "dc:subject" attrib content xg)
            /\ attrs_get attrib "xsi:type" = Some "cdp:JACS3"
            /\ attrs_get attrib "identifier" = Some (term_str n)
      | None => subject_element g subject xg = Raise AttributeError
      end
  end.
Proof.
  intros Hres Hjacs content.
  assert (Hbody : subject_element g subject xg
            = do ac <-
                (let notation := graph_value g (Some subject) (NS.skos ++ "notation") in
                 do attrib0 <-
                   match notation with
                   | Some n => if term_bool n
                               then do dt <- term_datatype n in xsi_type dt
                               else Ok []
                   | None => Ok []
                   end in
                 let attrib1 :=
                   match notation with
                   | Some n => if term_bool n
                               then dict_set "identifier" (term_str n) attrib0
                               else attrib0
                   | None => attrib0
                   end in
                 Ok (dict_set "xsi:type" "cdp:JACS3" attrib1,
                     of_option (label_loop g (Some subject) labels None))) in
              let '(attrib, content) := ac in
              if negb (bool_decide (attrib = [])) || py_bool content
              then Ok (textualElement "dc:subject" attrib (or_empty content) xg)
              else Ok xg).
  { unfold subject_element, subject_attrib_content.
    destruct subject as [u|b|l]; [| |discriminate Hres];
      cbn [term_str] in Hjacs; cbn [term_str]; rewrite Hjacs; reflexivity. }
  rewrite Hbody. clear Hbody. unfold subject_notation. cbv zeta.
  destruct (graph_value g (Some subject) (NS.skos ++ "notation")) as [n|].
  - destruct (term_bool n).
    + destruct n as [u|b|l]; cbn [notation_datatype term_datatype bind];
        try reflexivity.
      destruct (datatype l) as [d|]; [|reflexivity].
      destruct (xsi_type_Some d) as [a Ha]. rewrite Ha. cbn [bind].
      eexists. split; [|split].
      * rewrite bool_decide_eq_false_2 by apply dict_set_not_nil. reflexivity.
      * rewrite attrs_get_dict_set, String.eqb_refl. reflexivity.
      * rewrite !attrs_get_dict_set, String.eqb_refl. reflexivity.
    + cbn [bind]. reflexivity.
  - cbn [bind]. reflexivity.
Qed.

Lemma subject_jacs_type_forced_witness :
  (exists attrib,
     subject_element Sample2.jacs Sample2.jacs_subject new_xmlgen
     = Ok (textualElement "dc:subject" attrib "Mathematics" new_xmlgen)
     /\ attrs_get attrib "xsi:type" = Some "cdp:JACS3"
     /\ attrs_get attrib "identifier" = Some "G100")
  /\ subject_element Sample2.jacs_plain Sample2.jacs_subject new_xmlgen
     = Raise AttributeError.
Proof.
  split.
  - apply (subject_jacs_type_forced Sample2.jacs Sample2.jacs_subject new_xmlgen);
      reflexivity.
  - apply (subject_jacs_type_forced Sample2.jacs_plain Sample2.jacs_subject new_xmlgen);
      reflexivity.
Defined.

(** ** The chunks of the incremental entry point *)

Lemma generator_loop_chunks (n : nat) :
  forall stack xg chunks,
    generator_loop n stack xg = Some (Ok chunks) ->
    length chunks = S (stack_turns stack)
    /\ (stack = [] -> chunks = [stream xg])
    /\ (stack <> [] -> last chunks = Some []).
Proof.
  induction n as [|n IH]; intros [|gen below] xg chunks H; cbn [generator_loop] in H;
    try discriminate H.
  - injection H as <-. split; [reflexivity|]. split; [reflexivity | congruence].
  - injection H as <-. split; [reflexivity|]. split; [reflexivity | congruence].
  - destruct (step (gen :: below) xg) as [st| |] eqn:Hstep; try discriminate H.
    destruct (generator_loop n (fst st) (truncate (snd st))) as [[rest| |]|] eqn:Hrest;
      cbn [bind] in H; try discriminate H.
    injection H as <-.
    destruct (IH _ _ _ Hrest) as (Hlen & Hnil & Hcons).
    split; [|split; [discriminate|intros _]].
    + cbn [length]. rewrite Hlen. apply step_turns in Hstep. lia.
    + destruct rest as [|c rest]; [discriminate Hlen|].
      rewrite last_cons_cons.
      destruct (fst st) as [|gen' below'] eqn:Hst.
      * rewrite (Hnil eq_refl). reflexivity.
      * apply Hcons. discriminate.
Qed.

(** X21.  When [generator] runs to its end, it has yielded one chunk per
    turn of the stack loop and one more after the loop, and that last chunk
    is empty: the stream has just been emptied. *)
Theorem generator_chunks_count
    (ext : externals) (g : graph) (fuel : nat) (simple : bool) (catalog : option term)
    (chunks : list (list sax)) :
  generator_chunks ext g fuel simple catalog = Ok chunks ->
  length chunks = S (turns (_serialize ext g fuel simple catalog))
  /\ last chunks = Some [].
Proof.
  unfold generator_chunks. intros H.
  destruct (generator_loop _ _ new_xmlgen) as [[cs| |]|] eqn:Hloop;
    cbn [finished] in H; try discriminate H.
  injection H as <-.
  destruct (generator_loop_chunks _ _ _ _ Hloop) as (Hlen & _ & Hlast).
  split; [|apply Hlast; discriminate].
  rewrite Hlen. cbn [stack_turns fold_right]. lia.
Qed.

Lemma generator_chunks_count_witness :
  exists chunks,
    generator_chunks Sample.ext Sample.small_catalogue 2 true (Some Sample.catalogue)
    = Ok chunks
    /\ length chunks
       = S (turns (_serialize Sample.ext Sample.small_catalogue 2 true
                              (Some Sample.catalogue)))
    /\ last chunks = Some [].
Proof.
  eexists.
  assert (H : generator_chunks Sample.ext Sample.small_catalogue 2 true
                               (Some Sample.catalogue) = Ok _)
    by (vm_compute; reflexivity).
  split; [exact H|].
  exact (generator_chunks_count _ _ _ _ _ _ H).
Defined.

(** ** Errors of the date rule *)

(** X22.  [serialize_date] never lets a [ValueError] out, whatever the date
    parser does: a parse failure is answered by writing the text as it
    is. *)
Theorem serialize_date_never_raises_ValueError
    (ext : externals) (g : graph) (entity : option term) (prop name : string)
    (xg : xmlgen) :
  serialize_date ext g entity prop name xg <> Raise ValueError.
Proof.
  unfold serialize_date. destruct (date_parts g entity prop) as [dtf content].
  destruct (negb (py_bool dtf || py_bool content)); [discriminate|].
  destruct (negb (py_bool content)); cbn [bind]; [|discriminate].
  destruct (dateutil_parse ext dtf) as [parsed|[]|]; cbn [bind]; try discriminate.
  destruct (py_datatype dtf) as [d|e|] eqn:Hd; cbn [bind]; try discriminate.
  - destruct (bool_decide (d = Some (NS.xsd ++ "date"))); [discriminate|].
    destruct (bool_decide (d = Some (NS.xsd ++ "dateTime"))); discriminate.
  - intros H. injection H as ->.
    destruct dtf as [|v|[u|b|l]]; cbn in Hd; discriminate Hd.
Qed.

(** ** The one provider of the simple mode *)

(** An element around what a tidy action writes, event by event. *)
Lemma element_shape (name : string) (attrib : attrs) (a : action) (xg xg' : xmlgen) :
  tidy a ->
  (do x <- a (startElement name attrib xg) in Ok (endElement name x)) = Ok xg' ->
  exists body,
    stream xg'
    = (stream xg ++ indentation (depth xg) (chars xg) ++ [StartElement name attrib]
       ++ body ++ [Characters (indent (depth xg)); EndElement name])%list
    /\ balanced body /\ depth xg' = depth xg /\ chars xg' = false.
Proof.
  intros Ha H.
  destruct (a (startElement name attrib xg)) as [x2| |] eqn:Hrun; cbn [bind] in H;
    try discriminate H.
  assert (Hx : xg' = endElement name x2) by congruence. subst xg'. clear H.
  destruct (Ha _ _ Hrun) as (body & [[Hs Hd] Hc] & Hb).
  rewrite startElement_eq in Hs, Hd, Hc. cbn [stream depth chars] in Hs, Hd, Hc.
  exists body. rewrite endElement_eq, (Hc eq_refl). cbn [stream depth chars].
  rewrite Hs, Hd. replace (depth xg + 1 - 1)%Z with (depth xg) by lia.
  split; [rewrite <- ?app_assoc; reflexivity|]. split; [exact Hb|]. split; reflexivity.
Qed.

(** The outermost elements of events put together. *)
Lemma outermost_nesting_app (a b : list sax) :
  forall open open',
    nesting open a = Some open' ->
    outermost (length open) (a ++ b)
    = (outermost (length open) a ++ outermost (length open') b)%list.
Proof.
  induction a as [|e a IH]; intros open open' H.
  - injection H as <-. reflexivity.
  - destruct e as [| |name attrib|name|content]; cbn [app nesting outermost] in *;
      try (apply IH; exact H).
    + specialize (IH (name :: open) open' H). cbn [length] in IH.
      destruct (length open); [rewrite IH; reflexivity | exact IH].
    + destruct open as [|top below]; [discriminate H|].
      destruct (String.eqb name top); [|discriminate H].
      cbn [length Nat.pred]. apply IH. exact H.
Qed.

Lemma outermost_app (a b : list sax) :
  balanced a -> outermost 0 (a ++ b) = (outermost 0 a ++ outermost 0 b)%list.
Proof. intros Ha. apply (outermost_nesting_app a b [] [] (Ha [])). Qed.

(** Inside an open element nothing is outermost. *)
Lemma outermost_inside (a : list sax) :
  forall open open' base,
    nesting open a = Some open' -> outermost (S base + length open) a = [].
Proof.
  induction a as [|e a IH]; intros open open' base H; [reflexivity|].
  destruct e as [| |name attrib|name|content]; cbn [nesting outermost] in *;
    try (eapply IH; exact H).
  - cbn [Nat.add]. specialize (IH (name :: open) open' base H).
    cbn [length] in IH. rewrite Nat.add_succ_r in IH. exact IH.
  - destruct open as [|top below]; [discriminate H|].
    destruct (String.eqb name top); [|discriminate H].
    cbn [length]. rewrite Nat.add_succ_r. cbn [Nat.pred Nat.add].
    apply (IH below open' base H).
Qed.

Lemma outermost_element (name : string) (attrib : attrs) (inner : list sax) :
  balanced inner ->
  outermost 0 (StartElement name attrib :: inner ++ [EndElement name]) = [name].
Proof.
  intros Hin. cbn [outermost].
  pose proof (outermost_nesting_app inner [EndElement name] [name] [name] (Hin [name]))
    as E1.
  cbn [length] in E1. rewrite E1.
  pose proof (outermost_inside inner [] [] 0 (Hin [])) as E2.
  cbn [length Nat.add] in E2. rewrite E2. reflexivity.
Qed.

Lemma outermost_indentation (d : Z) (c : bool) (rest : list sax) :
  outermost 0 (indentation d c ++ rest) = outermost 0 rest.
Proof. unfold indentation. destruct (negb (d =? 0)%Z && negb c); reflexivity. Qed.

Lemma writes_only_skip (names : list string) : writes_only names skip.
Proof.
  intros xg xg' H. injection H as <-. exists [].
  split; [apply emits_refl|]. split; [apply balanced_nil | constructor].
Qed.

Lemma writes_only_seq (names : list string) (a b : action) :
  writes_only names a -> writes_only names b ->
  writes_only names (fun xg => do xg' <- a xg in b xg').
Proof.
  intros Ha Hb xg xg' H.
  destruct (a xg) as [x1| |] eqn:H1; cbn [bind] in H; try discriminate H.
  destruct (Ha _ _ H1) as (b1 & He1 & Hb1 & Hn1).
  destruct (Hb _ _ H) as (b2 & He2 & Hb2 & Hn2).
  exists (b1 ++ b2)%list. split; [eapply emits_trans; eassumption|].
  split; [apply balanced_app; assumption|].
  rewrite (outermost_app _ _ Hb1). apply Forall_app. split; assumption.
Qed.

Lemma writes_only_let {A : Type} (names : list string) (r : result A) (k : A -> action) :
  (forall x, writes_only names (k x)) -> writes_only names (fun xg => do x <- r in k x xg).
Proof.
  intros Hk xg xg' H. destruct r as [x| |]; cbn [bind] in H; try discriminate H.
  exact (Hk x _ _ H).
Qed.

Lemma writes_only_for_each {A : Type} (names : list string) (l : list A)
    (body : A -> action) :
  (forall x, writes_only names (body x)) -> writes_only names (for_each l body).
Proof.
  intros Hb. induction l as [|x l IH]; cbn [for_each].
  - apply writes_only_skip.
  - apply (writes_only_seq names (body x) (for_each l body)); [apply Hb | exact IH].
Qed.

Lemma writes_only_textual (names : list string) (name : string) (attrib : attrs)
    (content : string) :
  name ∈ names -> writes_only names (fun xg => Ok (textualElement name attrib content xg)).
Proof.
  intros Hname xg xg' H. injection H as <-. eexists.
  split; [apply textualElement_emits|]. split; [apply textual_balanced|].
  rewrite outermost_indentation. cbn [outermost Nat.pred].
  constructor; [exact Hname | constructor].
Qed.

(** An element around what a tidy action writes. *)
Lemma writes_only_element (names : list string) (name : string) (attrib : attrs)
    (a : action) :
  name ∈ names -> tidy a ->
  writes_only names
    (fun xg => do xg' <- a (startElement name attrib xg) in Ok (endElement name xg')).
Proof.
  intros Hname Ha xg xg' H.
  destruct (a (startElement name attrib xg)) as [x2| |] eqn:Hrun; cbn [bind] in H;
    try discriminate H.
  injection H as <-.
  destruct (Ha _ _ Hrun) as (b & [[Hs Hd] Hc] & Hb).
  rewrite startElement_eq in Hs, Hd, Hc. cbn [stream depth chars] in Hs, Hd, Hc.
  rewrite endElement_eq, (Hc eq_refl).
  assert (Hinner : balanced (b ++ [Characters (indent (depth x2 - 1))]))
    by (apply balanced_app; [exact Hb | apply balanced_characters]).
  exists (indentation (depth xg) (chars xg)
          ++ StartElement name attrib
             :: (b ++ [Characters (indent (depth x2 - 1))]) ++ [EndElement name])%list.
  split; [split; [split|]|split].
  - cbn [stream]. rewrite Hs. rewrite <- ?app_assoc. cbn [app].
    rewrite <- ?app_assoc. reflexivity.
  - cbn [depth]. rewrite Hd. lia.
  - reflexivity.
  - apply balanced_app; [apply balanced_indentation|].
    apply balanced_element. exact Hinner.
  - rewrite outermost_indentation, (outermost_element _ _ _ Hinner).
    constructor; [exact Hname | constructor].
Qed.

Lemma writes_only_descriptive_text_element (names : list string) (ext : externals)
    (name : string) (obj : term) (attrib : attrs) :
  name ∈ names -> writes_only names (descriptive_text_element ext name obj attrib).
Proof.
  intros Hname.
  assert (Hfragment : forall (parsed : result etree),
             writes_only names
               (fun xg =>
                  do xml <- parsed in
                  do xg' <- serialize_etree xml xmlns_nsmap
                              (startElement name attrib xg) in
                  Ok (endElement name xg'))).
  { intros parsed. apply (writes_only_let names parsed). intros xml.
    apply (writes_only_element names name attrib (serialize_etree xml xmlns_nsmap));
      [exact Hname | apply serialize_etree_is_tidy]. }
  assert (Hother : writes_only names (fun xg =>
             do dt <- term_datatype obj in
             if bool_decide (dt = Some (NS.xtypes ++ "Fragment-XHTML")) then
               do xml <- etree_fromstring ext (term_str obj) in
               do xg' <- serialize_etree xml xmlns_nsmap (startElement name attrib xg) in
               Ok (endElement name xg')
             else if bool_decide (dt = Some (NS.xtypes ++ "Fragment-HTML")) then
               do xml <- etree_fromstring_html ext (term_str obj) in
               do xg' <- serialize_etree xml xmlns_nsmap (startElement name attrib xg) in
               Ok (endElement name xg')
             else Ok (textualElement name attrib (term_str obj) xg))).
  { apply (writes_only_let names (term_datatype obj)). intros dt.
    destruct (bool_decide (dt = Some (NS.xtypes ++ "Fragment-XHTML")));
      [apply Hfragment|].
    destruct (bool_decide (dt = Some (NS.xtypes ++ "Fragment-HTML")));
      [apply Hfragment|].
    apply writes_only_textual. exact Hname. }
  destruct obj as [u|b|l]; [|exact Hother ..].
  apply (writes_only_element names name [("href", u)] skip); [exact Hname | apply tidy_skip].
Qed.

Lemma writes_only_find_first (names : list string) (ext : externals) (g : graph)
    (name : string) (ps : list string) (rich : bool) (entity : option term) :
  name ∈ names -> writes_only names (_find_first ext g name ps rich entity).
Proof.
  intros Hname. unfold _find_first. destruct (chain_objects g entity ps) as [|obj rest].
  - apply writes_only_skip.
  - destruct rich;
      [apply writes_only_descriptive_text_element | apply writes_only_textual];
      exact Hname.
Qed.

(** [serialize_common] writes identifiers, a title, a link and a
    description, and no other element. *)
Lemma serialize_common_writes_only (ext : externals) (g : graph) (entity : option term) :
  writes_only common_names (serialize_common ext g entity).
Proof.
  assert (Hid : "dc:identifier" ∈ common_names) by (unfold common_names; repeat constructor).
  unfold serialize_common.
  apply writes_only_seq.
  { unfold serialize_identifiers. apply writes_only_seq.
    - apply writes_only_for_each. intros obj.
      apply (writes_only_let _ (term_datatype obj)). intros dt.
      apply (writes_only_let _ (xsi_type dt)). intros attrib.
      destruct attrib; [apply writes_only_skip | apply writes_only_textual; exact Hid].
    - apply writes_only_for_each. intros identifier.
      apply writes_only_textual. exact Hid. }
  apply writes_only_seq;
    [apply writes_only_find_first; unfold common_names; repeat constructor|].
  apply writes_only_seq;
    apply writes_only_find_first; unfold common_names; repeat constructor.
Qed.

(** X23.  In the simple mode, a document that [serialize] completes has,
    directly under the root element, the elements [serialize_common] writes
    for the catalogue (identifiers, title, link, description) and after
    them exactly one [xcri:provider] element, whoever offers the courses;
    everything else lies inside that element. *)
Theorem serialize_simple_one_provider
    (ext : externals) (g : graph) (fuel : nat) (catalog : option term)
    (sink out : list sax) :
  serialize ext g fuel true catalog sink = Ok out ->
  exists xg1 common body,
    serialize_common ext g catalog
      (startElement "xcri:catalog" (catalog_attrib ext) (startDocument (mkXg sink 0 false)))
    = Ok xg1
    /\ stream xg1
       = (sink ++ [StartDocument; StartElement "xcri:catalog" (catalog_attrib ext)]
          ++ common)%list
    /\ out = (sink ++ [StartDocument; StartElement "xcri:catalog" (catalog_attrib ext)]
              ++ (common
                  ++ [Characters (indent 1); StartElement "xcri:provider" []]
                  ++ body
                  ++ [Characters (indent 1); EndElement "xcri:provider"])
              ++ [Characters (indent 0); EndElement "xcri:catalog"; EndDocument])%list
    /\ balanced body
    /\ Forall (fun name => name ∈ common_names) (outermost 0 common)
    /\ outermost 0 (common
                    ++ [Characters (indent 1); StartElement "xcri:provider" []]
                    ++ body
                    ++ [Characters (indent 1); EndElement "xcri:provider"])
       = (outermost 0 common ++ ["xcri:provider"])%list.
Proof.
  unfold serialize. rewrite serialize_loop_run by (cbn [stack_turns fold_right]; lia).
  cbn [finished run_stack _serialize catalog_element run bind]. unfold catalog_content.
  set (x0 := startElement "xcri:catalog" (catalog_attrib ext)
               (startDocument (mkXg sink 0 false))).
  intros H.
  destruct (collect_courses g fuel {[catalog]} []) as [pcs|e|];
    cbn [run bind fail_with] in H.
  - destruct (serialize_common ext g catalog x0) as [x1| |] eqn:Hcommon;
      cbn [bind skip] in H; try discriminate H.
    set (provider := graph_value g catalog (NS.dcterms ++ "publisher")) in H.
    set (courses := concat (map (fun pc => elements (snd pc)) pcs)) in H.
    unfold provider_element in H. cbn [run bind skip] in H.
    destruct (run (provider_content ext g fuel provider courses)
                  (startElement "xcri:provider" [] x1)) as [x2| |] eqn:Hrun;
      cbn [bind] in H; try discriminate H.
    unfold skip in H. cbn [bind] in H.
    assert (Hout : out = stream (endDocument (endElement "xcri:catalog"
                                                (endElement "xcri:provider" x2))))
      by congruence.
    clear H. rewrite Hout. clear Hout.
    destruct (serialize_common_writes_only ext g catalog _ _ Hcommon)
      as (common & [[Hs1 Hd1] Hc1] & Hb1 & Hn1).
    destruct (element_shape "xcri:provider" []
                (run (provider_content ext g fuel provider courses)) x1
                (endElement "xcri:provider" x2)) as (body & Hs2 & Hb2 & Hd2 & Hc2).
    { intros y y' Hy.
      destruct (provider_content_run_tidy ext g fuel provider courses y y' Hy)
        as (b & He & Hb). exists b. split; assumption. }
    { rewrite Hrun. reflexivity. }
    assert (Hx0 : stream x0
                  = (sink ++ [StartDocument; StartElement "xcri:catalog" (catalog_attrib ext)])%list
                  /\ depth x0 = 1%Z /\ chars x0 = false).
    { subst x0. rewrite startElement_eq. unfold startDocument, write, indentation.
      cbn [stream depth chars Z.eqb negb andb Z.add]. rewrite <- ?app_assoc.
      repeat split. }
    destruct Hx0 as (Hs0 & Hd0 & Hc0).
    exists x1, common, body.
    split; [reflexivity|]. split; [rewrite Hs1, Hs0, <- app_assoc; reflexivity|].
    split; [|split; [exact Hb2|split; [exact Hn1|]]].
    + unfold endDocument, write. cbn [stream]. rewrite endElement_eq. cbn [stream].
      rewrite Hc2, Hs2, Hd2, Hs1, Hd1, Hs0, Hd0, (Hc1 Hc0).
      unfold indentation.
      cbn [Z.eqb negb andb Z.add Z.sub Z.opp Z.pos_sub].
      rewrite <- ?app_assoc. reflexivity.
    + rewrite (outermost_app _ _ Hb1). f_equal.
      cbn [app outermost].
      pose proof (outermost_nesting_app body
                    [Characters (indent 1); EndElement "xcri:provider"]
                    ["xcri:provider"] ["xcri:provider"] (Hb2 _)) as E1.
      cbn [length] in E1. rewrite E1.
      pose proof (outermost_inside body [] [] 0 (Hb2 [])) as E2.
      cbn [length Nat.add] in E2. rewrite E2. reflexivity.
  - destruct (serialize_common ext g catalog x0); discriminate H.
  - destruct (serialize_common ext g catalog x0); discriminate H.
Qed.

Lemma serialize_simple_one_provider_witness :
  exists out xg1 common body,
    serialize Sample.ext Sample.small_catalogue 2 true (Some Sample.catalogue) [] = Ok out
    /\ serialize_common Sample.ext Sample.small_catalogue (Some Sample.catalogue)
         (startElement "xcri:catalog" (catalog_attrib Sample.ext)
            (startDocument (mkXg [] 0 false)))
       = Ok xg1
    /\ stream xg1
       = ([] ++ [StartDocument; StartElement "xcri:catalog" (catalog_attrib Sample.ext)]
          ++ common)%list
    /\ out = ([] ++ [StartDocument; StartElement "xcri:catalog" (catalog_attrib Sample.ext)]
              ++ (common
                  ++ [Characters (indent 1); StartElement "xcri:provider" []]
                  ++ body
                  ++ [Characters (indent 1); EndElement "xcri:provider"])
              ++ [Characters (indent 0); EndElement "xcri:catalog"; EndDocument])%list
    /\ balanced body
    /\ Forall (fun name => name ∈ common_names) (outermost 0 common)
    /\ outermost 0 (common
                    ++ [Characters (indent 1); StartElement "xcri:provider" []]
                    ++ body
                    ++ [Characters (indent 1); EndElement "xcri:provider"])
       = (outermost 0 common ++ ["xcri:provider"])%list.
Proof.
  eexists.
  assert (H : serialize Sample.ext Sample.small_catalogue 2 true (Some Sample.catalogue) []
              = Ok _) by (vm_compute; reflexivity).
  destruct (serialize_simple_one_provider _ _ _ _ _ _ H) as (xg1 & common & body & Hrest).
  exists xg1, common, body. split; [exact H | exact Hrest].
Defined.
